(** * Consensus-set rolling update: role priorities, update plans, status

    A shallow embedding of the consensus-set part of
    [controllers/apps/clusterversion_controller.go] (the second document of
    that file, package [consensusset]): the role priority map, the role map,
    the three update plans, the walk function, the status reconciliation and
    the propagation of the roles to the environment config maps and the
    update of the role label of a pod; of the cluster version controller of
    the first document (package [apps]): the validation of the cluster
    versions of a cluster definition and the upgradable flag of the clusters;
    and of the object factory of the tests ([BaseFactory]).

    Go values are modelled as follows.
    - [string]-based types ([AccessMode], [UpdateStrategy], [WorkloadType],
      [consensusRole]) are Rocq strings, compared with [String.eqb].
    - [int] is [Z]; lengths and slice indices are [nat].
    - [map[string]T] is [gmap string T]; reading an absent key of a
      [map[string]int] yields the zero value, see [priorityOf].
    - a pointer that may be [nil] is an [option]; dereferencing [nil], indexing
      or slicing out of range and writing to a [nil] map panic, and a function
      that can panic returns [option], with [None] for the panic.
    - a slice is the list of its elements, a [nil] slice and an empty one
      alike, except for the followers of a status, which [cmp.Equal] compares:
      there the slice is an [option], [None] for the [nil] slice, see
      [ConsensusSetStatus.Followers]; a slice that is modified while a
      [range] loop walks it is modelled with its backing array and its
      current length, see [resetFollowers].
    - [sort.SliceStable] is a stable insertion sort, see [SliceStable].
    - the API server is not modelled: what the client and the fetch helpers
      answer in a pass is an input of the pass ([Client.t]), the requests a
      pass sends are listed in order ([Action]), and the cluster a pass returns
      is the cluster object of the caller as the pass leaves it. *)

From Stdlib Require Import ZArith String Ascii List Permutation Sorted Lia Bool.
From stdpp Require Import gmap strings list sorting.

Local Open Scope string_scope.
Local Open Scope Z_scope.
Local Open Scope list_scope.

(* [naive_solver] clears hypotheses by name and warns when one is gone. *)
#[local] Set Warnings "-clear-no-such-hyp".

(** ** The API types ([apis/apps/v1alpha1], [k8s.io/api]) *)

(** [type AccessMode string] *)
Definition AccessMode := string.

(** [type UpdateStrategy string] *)
Definition UpdateStrategy := string.

(** [type WorkloadType string] *)
Definition WorkloadType := string.

Module appsv1alpha1.

(** Modelled from the spec: the constants of [AccessMode], [UpdateStrategy]
    and [WorkloadType] are declared in the API package, which is not part of
    the sources at hand; the spec names them ([None], [Readonly],
    [ReadWrite]; [Serial], [Parallel], [BestEffortParallel]) and each
    constant is taken to be the string of its name. *)
Definition None : AccessMode := "None".
Definition Readonly : AccessMode := "Readonly".
Definition ReadWrite : AccessMode := "ReadWrite".

Definition SerialStrategy : UpdateStrategy := "Serial".
Definition ParallelStrategy : UpdateStrategy := "Parallel".
Definition BestEffortParallelStrategy : UpdateStrategy := "BestEffortParallel".

Definition Consensus : WorkloadType := "Consensus".

End appsv1alpha1.

Module ConsensusMember.
Record t := mk { Name : string; AccessMode : AccessMode }.
End ConsensusMember.

Module ConsensusSetSpec.
Record t := mk {
  Leader : ConsensusMember.t;
  Followers : list ConsensusMember.t;
  Learner : option ConsensusMember.t;
  UpdateStrategy : UpdateStrategy
}.
End ConsensusSetSpec.

Module ClusterComponentDefinition.
Record t := mk {
  WorkloadType : WorkloadType;
  ConsensusSpec : option ConsensusSetSpec.t
}.
End ClusterComponentDefinition.

Module ConsensusMemberStatus.
Record t := mk { Name : string; Pod : string; AccessMode : AccessMode }.
End ConsensusMemberStatus.

(** The elements of a slice that may be [nil]. *)
Definition elements {A : Type} (s : option (list A)) : list A := default [] s.

(** [Followers] is a slice that [cmp.Equal] compares, and [cmp.Equal] tells
    the [nil] slice from an empty one: [None] is the [nil] slice, [Some []] an
    empty slice that is not [nil]. [Learner] is a pointer. *)
Module ConsensusSetStatus.
Record t := mk {
  Leader : ConsensusMemberStatus.t;
  Followers : option (list ConsensusMemberStatus.t);
  Learner : option ConsensusMemberStatus.t
}.
End ConsensusSetStatus.

(** Modelled from the spec: a pod is read through accessors that are not part
    of the sources at hand ([pod.Labels[intctrlutil.RoleLabelKey]],
    [intctrlutil.GetParentNameAndOrdinal], [util.GetPodRevision],
    [util.PodIsReady], [pod.DeletionTimestamp != nil]); a pod is the record of
    what they return, the spec's ReplicaObservation
    [{name, ordinal, roleLabel, revision, ready, terminating}]. *)
Module Pod.
Record t := mk {
  Name : string;
  Ordinal : Z;
  RoleLabel : string;
  Revision : string;
  Ready : bool;
  Terminating : bool
}.
End Pod.

Module StatefulSet.
Record t := mk {
  ComponentLabel : string;        (* Labels[intctrlutil.AppComponentLabelKey] *)
  Generation : Z;
  ObservedGeneration : Z;         (* Status.ObservedGeneration *)
  Replicas : option Z;            (* Spec.Replicas, a pointer *)
  UpdateRevision : string         (* Status.UpdateRevision *)
}.
End StatefulSet.

Module ConfigMap.
Record t := mk {
  Name : string;
  Data : option (gmap string string)   (* a nil map has no data *)
}.
End ConfigMap.

#[global] Instance ConsensusMemberStatus_eq_dec : EqDecision ConsensusMemberStatus.t.
Proof. solve_decision. Defined.

#[global] Instance ConsensusSetStatus_eq_dec : EqDecision ConsensusSetStatus.t.
Proof. solve_decision. Defined.

#[global] Instance Pod_eq_dec : EqDecision Pod.t.
Proof. solve_decision. Defined.

(** ** Roles and priorities *)

(** [type consensusRole string] *)
Definition consensusRole := string.

Module consensusMemberExt.
Record t := mk {
  name : string;
  consensusRole : consensusRole;
  accessMode : AccessMode;
  podName : string
}.
End consensusMemberExt.

Definition roleLeader : consensusRole := "Leader".
Definition roleFollower : consensusRole := "Follower".
Definition roleLearner : consensusRole := "Learner".

Definition leaderPriority : Z := Z.shiftl 1 5.
Definition followerReadWritePriority : Z := Z.shiftl 1 4.
Definition followerReadonlyPriority : Z := Z.shiftl 1 3.
Definition followerNonePriority : Z := Z.shiftl 1 2.
Definition learnerPriority : Z := Z.shiftl 1 1.
Definition emptyPriority : Z := Z.shiftl 1 0.

(** [rolePriorityMap[role]]: an absent key reads as the zero value. *)
Definition priorityOf (rolePriorityMap : gmap string Z) (role : string) : Z :=
  default 0 (rolePriorityMap !! role).

(** The body of the loop over the followers in [ComposeRolePriorityMap]: a
    [switch] without a default case. *)
Definition putFollowerPriority (rolePriorityMap : gmap string Z)
    (follower : ConsensusMember.t) : gmap string Z :=
  if String.eqb (ConsensusMember.AccessMode follower) appsv1alpha1.None then
    <[ConsensusMember.Name follower := followerNonePriority]> rolePriorityMap
  else if String.eqb (ConsensusMember.AccessMode follower) appsv1alpha1.Readonly then
    <[ConsensusMember.Name follower := followerReadonlyPriority]> rolePriorityMap
  else if String.eqb (ConsensusMember.AccessMode follower) appsv1alpha1.ReadWrite then
    <[ConsensusMember.Name follower := followerReadWritePriority]> rolePriorityMap
  else rolePriorityMap.

(** The priorities of a present consensus spec: what [ComposeRolePriorityMap]
    does once [component.ConsensusSpec] is not [nil]. *)
Definition composePriorities (spec : ConsensusSetSpec.t) : gmap string Z :=
  let rolePriorityMap : gmap string Z := <["" := emptyPriority]> ∅ in
  let rolePriorityMap :=
    <[ConsensusMember.Name (ConsensusSetSpec.Leader spec) := leaderPriority]>
      rolePriorityMap in
  let rolePriorityMap :=
    match ConsensusSetSpec.Learner spec with
    | Some learner => <[ConsensusMember.Name learner := learnerPriority]> rolePriorityMap
    | Datatypes.None => rolePriorityMap
    end in
  fold_left putFollowerPriority (ConsensusSetSpec.Followers spec) rolePriorityMap.

(** [putConsensusMemberExt]; the map is never [nil] at its call sites. *)
Definition putConsensusMemberExt (roleMap : gmap string consensusMemberExt.t)
    (name : string) (role : consensusRole) (accessMode : AccessMode)
    : gmap string consensusMemberExt.t :=
  if String.eqb name "" || String.eqb role "" || String.eqb accessMode "" then roleMap
  else
    <[name := consensusMemberExt.mk name role accessMode ""]> roleMap.

(** The role map of a present consensus spec. *)
Definition composeRoles (spec : ConsensusSetSpec.t) : gmap string consensusMemberExt.t :=
  let roleMap : gmap string consensusMemberExt.t := ∅ in
  let roleMap :=
    putConsensusMemberExt roleMap
      (ConsensusMember.Name (ConsensusSetSpec.Leader spec))
      roleLeader
      (ConsensusMember.AccessMode (ConsensusSetSpec.Leader spec)) in
  let roleMap :=
    fold_left
      (fun roleMap follower =>
         putConsensusMemberExt roleMap
           (ConsensusMember.Name follower) roleFollower
           (ConsensusMember.AccessMode follower))
      (ConsensusSetSpec.Followers spec) roleMap in
  match ConsensusSetSpec.Learner spec with
  | Some learner =>
      putConsensusMemberExt roleMap
        (ConsensusMember.Name learner) roleLearner
        (ConsensusMember.AccessMode learner)
  | Datatypes.None => roleMap
  end.

(** [composeConsensusRoleMap]: it reads [componentDef.ConsensusSpec.Leader]
    without a [nil] check, so a [nil] consensus spec panics. *)
Definition composeConsensusRoleMap (componentDef : ClusterComponentDefinition.t)
    : option (gmap string consensusMemberExt.t) :=
  match ClusterComponentDefinition.ConsensusSpec componentDef with
  | Some spec => Some (composeRoles spec)
  | Datatypes.None => Datatypes.None
  end.

(** ** Sorting *)

(** [sort.SliceStable] with the comparison [less]: insertion from the right,
    an element going before the ones it is not greater than, which keeps the
    elements that compare equal in their order. For a strict weak order, as
    the two comparisons of this file are, every stable sort returns the same
    list. *)
Fixpoint insertStable {A : Type} (less : A -> A -> bool) (x : A) (l : list A) : list A :=
  match l with
  | [] => [x]
  | y :: l' => if less y x then y :: insertStable less x l' else x :: l
  end.

Definition SliceStable {A : Type} (less : A -> A -> bool) (l : list A) : list A :=
  foldr (insertStable less) [] l.

(** The comparison of [SortPods]. *)
Definition podLess (rolePriorityMap : gmap string Z) (podI podJ : Pod.t) : bool :=
  let roleI := Pod.RoleLabel podI in
  let roleJ := Pod.RoleLabel podJ in
  if Z.eqb (priorityOf rolePriorityMap roleI) (priorityOf rolePriorityMap roleJ) then
    Z.ltb (Pod.Ordinal podI) (Pod.Ordinal podJ)
  else
    Z.ltb (priorityOf rolePriorityMap roleI) (priorityOf rolePriorityMap roleJ).

Definition SortPods (pods : list Pod.t) (rolePriorityMap : gmap string Z) : list Pod.t :=
  SliceStable (podLess rolePriorityMap) pods.

(** [strings.Compare(a, b) < 0]: the order of the bytes. *)
Definition stringLess (a b : string) : bool :=
  match String.compare a b with Lt => true | _ => false end.

(** ** Plans ([util.Plan], [util.Step]) *)

(** A step holds an object and the steps that follow it; the steps of one
    [NextSteps] are walked together and the first of them leads on. *)
#[warnings="-register-all"]
Inductive Step := mkStep { Obj : option Pod.t; NextSteps : list Step }.

(** The step a pointer into the plan refers to: the pointer is the path of
    child indices from [plan.Start]. *)
Fixpoint stepAt (start : list nat) (s : Step) : option Step :=
  match start with
  | [] => Some s
  | i :: start' => NextSteps s !! i ≫= stepAt start'
  end.

(** [start.NextSteps = append(start.NextSteps, nextStep)] *)
Fixpoint appendNext (start : list nat) (nextStep : Step) (s : Step) : Step :=
  match start with
  | [] => mkStep (Obj s) (NextSteps s ++ [nextStep])
  | i :: start' => mkStep (Obj s) (alter (appendNext start' nextStep) i (NextSteps s))
  end.

(** [nextStep := &util.Step{}; nextStep.Obj = pod] *)
Definition stepOf (pod : Pod.t) : Step := mkStep (Some pod) [].

(** [len(start.NextSteps)] *)
Definition lenNextSteps (plan : Step) (start : list nat) : nat :=
  match stepAt start plan with
  | Some s => length (NextSteps s)
  | Datatypes.None => 0
  end.

(** [if len(start.NextSteps) > 0 { start = start.NextSteps[0] }] *)
Definition advance (plan : Step) (start : list nat) : list nat :=
  if (0 <? lenNextSteps plan start)%nat then start ++ [0%nat] else start.

(** [generateConsensusSerialPlan]: the pointer moves to the step just
    appended, the last of [start.NextSteps]. *)
Definition generateConsensusSerialPlan (plan : Step) (pods : list Pod.t) : Step :=
  fst (fold_left
         (fun '(plan, start) pod =>
            let plan' := appendNext start (stepOf pod) plan in
            (plan', start ++ [(lenNextSteps plan' start - 1)%nat]))
         pods (plan, [])).

(** [generateConsensusParallelPlan] *)
Definition generateConsensusParallelPlan (plan : Step) (pods : list Pod.t) : Step :=
  fold_left (fun plan pod => appendNext [] (stepOf pod) plan) pods plan.

(** [for i := 0; i < end; i++ { ... podList[i] ... }]: [i] is the index, [n]
    the iterations left; an index out of range panics. *)
Fixpoint appendIndexed (start : list nat) (podList : list Pod.t) (i n : nat)
    (plan : Step) : option Step :=
  match n with
  | O => Some plan
  | S n' =>
      pod ← podList !! i;
      appendIndexed start podList (S i) n' (appendNext start (stepOf pod) plan)
  end.

(** [s[low:]]: panics when [low] is beyond the length. *)
Definition sliceFrom {A : Type} (s : list A) (low : nat) : option (list A) :=
  if (low <=? length s)%nat then Some (drop low s) else Datatypes.None.

(** [generateConsensusBestEffortParallelPlan] *)
Definition generateConsensusBestEffortParallelPlan (plan : Step) (pods : list Pod.t)
    (rolePriorityMap : gmap string Z) : option Step :=
  let start : list nat := [] in
  (* append unknown, empty and learner *)
  let '(plan, index) :=
    fold_left
      (fun '(plan, index) pod =>
         let role := Pod.RoleLabel pod in
         if Z.leb (priorityOf rolePriorityMap role) learnerPriority then
           (appendNext start (stepOf pod) plan, S index)
         else (plan, index))
      pods (plan, 0%nat) in
  let start := advance plan start in
  (* append 1/2 followers *)
  podList ← sliceFrom pods index;
  let followerCount :=
    fold_left
      (fun followerCount pod =>
         if Z.ltb (priorityOf rolePriorityMap (Pod.RoleLabel pod)) leaderPriority
         then S followerCount else followerCount)
      podList 0%nat in
  let end_ := (followerCount / 2)%nat in
  plan ← appendIndexed start podList 0 end_ plan;
  let start := advance plan start in
  (* append the other 1/2 followers *)
  podList ← sliceFrom podList end_;
  let end_ := (followerCount - end_)%nat in
  plan ← appendIndexed start podList 0 end_ plan;
  let start := advance plan start in
  (* append leader *)
  podList ← sliceFrom podList end_;
  Some (fold_left (fun plan pod => appendNext start (stepOf pod) plan) podList plan).

(** ** The client and what a pass does to the outside *)

(** An error of the client; [apierrors.IsNotFound] tells the first one. *)
Inductive error := NotFound | Failed (msg : string).

Definition IsNotFound (err : error) : bool :=
  match err with NotFound => true | Failed _ => false end.

Module Cluster.
Record t := mk {
  Name : string;
  (* Status.Components, each entry read through its ConsensusSetStatus *)
  Components : gmap string (option ConsensusSetStatus.t)
}.
End Cluster.

(** What the client and the fetch helpers answer during one pass: the
    helpers ([util.GetComponentDefByCluster], [util.GetPodListByStatefulSet])
    and the API server are outside the sources at hand, so their answers are
    inputs of the pass. *)
Module Client.
Record t := mk {
  GetComponentDefByCluster : error + option ClusterComponentDefinition.t;
  GetPodListByStatefulSet : error + list Pod.t;
  StatusPatch : option error;
  List : error + list ConfigMap.t;
  Patch : ConfigMap.t -> option error;
  Delete : Pod.t -> option error
}.
End Client.

(** The requests a pass sends. *)
Inductive Action :=
| DeletePod (pod : Pod.t)
| PatchStatus (componentName : string) (status : ConsensusSetStatus.t)
| PatchConfigMap (config : ConfigMap.t).

(** The [plan.WalkFunc] closure of [generateConsensusUpdatePlan]: the Go
    result [(bool, error)] and the requests sent. *)
Definition WalkFunc (cli : Client.t) (stsObj : StatefulSet.t) (obj : option Pod.t)
    : (bool * option error) * list Action :=
  match obj with
  | Datatypes.None => ((false, Some (Failed "wrong type: obj not Pod")), [])
  | Some pod =>
      (* if DeletionTimestamp is not nil, it is terminating. *)
      if Pod.Terminating pod then ((true, Datatypes.None), [])
      (* if pod is the latest version, we do nothing *)
      else if String.eqb (Pod.Revision pod) (StatefulSet.UpdateRevision stsObj) then
        (* wait until ready *)
        ((negb (Pod.Ready pod), Datatypes.None), [])
      else
        (* delete the pod to trigger associate StatefulSet to re-create it *)
        match Client.Delete cli pod with
        | Some err =>
            if negb (IsNotFound err) then ((false, Some err), [DeletePod pod])
            else ((true, Datatypes.None), [DeletePod pod])
        | Datatypes.None => ((true, Datatypes.None), [DeletePod pod])
        end
  end.

(** Modelled from the spec: one batch of the walk of [util.Plan.WalkOneStep],
    which is not part of the sources at hand. Section 4.4: every replica of
    the batch is classified in turn; an error ends the walk at once, otherwise
    the result tells whether some replica is not settled yet. *)
Fixpoint walkSteps (walk : option Pod.t -> (bool * option error) * list Action)
    (steps : list Step) (shouldStop : bool) : (error + bool) * list Action :=
  match steps with
  | [] => (inr shouldStop, [])
  | step :: steps' =>
      match walk (Obj step) with
      | ((_, Some err), sent) => (inl err, sent)
      | ((walked, Datatypes.None), sent) =>
          let '(r, sent') := walkSteps walk steps' (walked || shouldStop) in
          (r, sent ++ sent')
      end
  end.

(** Modelled from the spec: [util.Plan.WalkOneStep] is not part of the
    sources at hand. Section 4.4: starting at the earliest batch, every
    replica of the batch is classified; when all are settled the walk goes on
    with the next batch in the same call; it stops at the first batch that is
    not fully settled or when the plan is exhausted; the result is complete
    exactly when every batch was fully settled, and an error ends the walk at
    once. *)
Fixpoint WalkOneStep (walk : option Pod.t -> (bool * option error) * list Action)
    (start : Step) : (bool * option error) * list Action :=
  match start with
  | mkStep _ steps =>
      match steps with
      | [] => ((true, Datatypes.None), [])
      | first :: _ =>
          match walkSteps walk steps false with
          | (inl err, sent) => ((false, Some err), sent)
          | (inr true, sent) => ((false, Datatypes.None), sent)
          | (inr false, sent) =>
              let '(r, sent') := WalkOneStep walk first in (r, sent ++ sent')
          end
      end
  end.

(** ** The status of the consensus set *)

(** The removal loop of [resetConsensusSetStatusRole],
    [for index, member := range Followers { if member.Pod == podName {
       Followers = append(Followers[:index], Followers[index+1:]...) } }].
    [range] evaluates the slice once: the loop runs over the indices of the
    first length and reads the backing array, which the [append] inside
    rewrites in place. [backing] is that array, [len] the length of
    [Followers] at the moment, [index] the index of the iteration and [n] the
    iterations left. [Followers[index+1:]] panics once [index+1] is beyond
    [len]; the [append] moves the elements from [index+1] up to [len] one
    place down and leaves the last place as it was. *)
Fixpoint resetFollowersLoop (podName : string) (n index : nat)
    (backing : list ConsensusMemberStatus.t) (len : nat)
    : option (list ConsensusMemberStatus.t * nat) :=
  match n with
  | O => Some (backing, len)
  | S n' =>
      member ← backing !! index;
      if String.eqb (ConsensusMemberStatus.Pod member) podName then
        if (index + 1 <=? len)%nat then
          resetFollowersLoop podName n' (S index)
            (take index backing ++ drop (index + 1) (take len backing)
               ++ drop (len - 1) backing)
            (len - 1)%nat
        else Datatypes.None
      else resetFollowersLoop podName n' (S index) backing len
  end.

Definition resetFollowers (podName : string) (followers : list ConsensusMemberStatus.t)
    : option (list ConsensusMemberStatus.t) :=
  '(backing, len) ← resetFollowersLoop podName (length followers) 0 followers (length followers);
  Some (take len backing).

Section ConsensusSet.

(** [appsv1alpha1.DefaultLeader], [util.ComponentStatusDefaultPodName] and
    [strings.ToUpper] are declared outside the sources at hand: the
    development holds for every value of them. *)
Variable DefaultLeader : ConsensusMember.t.
Variable ComponentStatusDefaultPodName : string.
Variable ToUpper : string -> string.

(** [ComposeRolePriorityMap]: a [nil] consensus spec is replaced by
    [&ConsensusSetSpec{Leader: DefaultLeader}], the other fields zero. *)
Definition ComposeRolePriorityMap (component : ClusterComponentDefinition.t)
    : gmap string Z :=
  composePriorities
    match ClusterComponentDefinition.ConsensusSpec component with
    | Some spec => spec
    | Datatypes.None => ConsensusSetSpec.mk DefaultLeader [] Datatypes.None ""
    end.

Definition setConsensusSetStatusLeader (consensusSetStatus : ConsensusSetStatus.t)
    (memberExt : consensusMemberExt.t) : ConsensusSetStatus.t * bool :=
  if String.eqb (ConsensusMemberStatus.Pod (ConsensusSetStatus.Leader consensusSetStatus))
       (consensusMemberExt.podName memberExt)
  then (consensusSetStatus, false)
  else
    (ConsensusSetStatus.mk
       (ConsensusMemberStatus.mk
          (consensusMemberExt.name memberExt)
          (consensusMemberExt.podName memberExt)
          (consensusMemberExt.accessMode memberExt))
       (ConsensusSetStatus.Followers consensusSetStatus)
       (ConsensusSetStatus.Learner consensusSetStatus),
     true).

(** The comparison of the sort in [setConsensusSetStatusFollower]. *)
Definition followerLess (fi fj : ConsensusMemberStatus.t) : bool :=
  stringLess (ConsensusMemberStatus.Pod fi) (ConsensusMemberStatus.Pod fj).

(** [setConsensusSetStatusFollower]: [append] returns a slice that is not
    [nil]. *)
Definition setConsensusSetStatusFollower (consensusSetStatus : ConsensusSetStatus.t)
    (memberExt : consensusMemberExt.t) : ConsensusSetStatus.t * bool :=
  if existsb
       (fun member =>
          String.eqb (ConsensusMemberStatus.Pod member) (consensusMemberExt.podName memberExt))
       (elements (ConsensusSetStatus.Followers consensusSetStatus))
  then (consensusSetStatus, false)
  else
    let member :=
      ConsensusMemberStatus.mk
        (consensusMemberExt.name memberExt)
        (consensusMemberExt.podName memberExt)
        (consensusMemberExt.accessMode memberExt) in
    (ConsensusSetStatus.mk
       (ConsensusSetStatus.Leader consensusSetStatus)
       (Some (SliceStable followerLess
                (elements (ConsensusSetStatus.Followers consensusSetStatus) ++ [member])))
       (ConsensusSetStatus.Learner consensusSetStatus),
     true).

Definition setConsensusSetStatusLearner (consensusSetStatus : ConsensusSetStatus.t)
    (memberExt : consensusMemberExt.t) : ConsensusSetStatus.t * bool :=
  let learner :=
    match ConsensusSetStatus.Learner consensusSetStatus with
    | Some learner => learner
    | Datatypes.None => ConsensusMemberStatus.mk "" "" ""
    end in
  if String.eqb (ConsensusMemberStatus.Pod learner) (consensusMemberExt.podName memberExt)
  then
    (ConsensusSetStatus.mk
       (ConsensusSetStatus.Leader consensusSetStatus)
       (ConsensusSetStatus.Followers consensusSetStatus)
       (Some learner),
     false)
  else
    (ConsensusSetStatus.mk
       (ConsensusSetStatus.Leader consensusSetStatus)
       (ConsensusSetStatus.Followers consensusSetStatus)
       (Some (ConsensusMemberStatus.mk
                (consensusMemberExt.name memberExt)
                (consensusMemberExt.podName memberExt)
                (consensusMemberExt.accessMode memberExt))),
     true).

(** [resetConsensusSetStatusRole]: the loop over a [nil] slice does not run
    and leaves it [nil]; a slice that is not [nil] stays so, also when its
    last element is removed. *)
Definition resetConsensusSetStatusRole (consensusSetStatus : ConsensusSetStatus.t)
    (podName : string) : option ConsensusSetStatus.t :=
  (* reset leader *)
  let leader :=
    if String.eqb (ConsensusMemberStatus.Pod (ConsensusSetStatus.Leader consensusSetStatus)) podName
    then ConsensusMemberStatus.mk "" ComponentStatusDefaultPodName appsv1alpha1.None
    else ConsensusSetStatus.Leader consensusSetStatus in
  (* reset follower *)
  followers ←
    match ConsensusSetStatus.Followers consensusSetStatus with
    | Some followers => Some <$> resetFollowers podName followers
    | Datatypes.None => Some Datatypes.None
    end;
  (* reset learner *)
  let learner :=
    match ConsensusSetStatus.Learner consensusSetStatus with
    | Some learner =>
        if String.eqb (ConsensusMemberStatus.Pod learner) podName
        then Datatypes.None else Some learner
    | Datatypes.None => Datatypes.None
    end in
  Some (ConsensusSetStatus.mk leader followers learner).

Definition setConsensusSetStatusRole (consensusSetStatus : ConsensusSetStatus.t)
    (componentDef : ClusterComponentDefinition.t) (role podName : string)
    : option (ConsensusSetStatus.t * bool) :=
  (* mapping role label to consensus member *)
  roleMap ← composeConsensusRoleMap componentDef;
  match roleMap !! role with
  | Datatypes.None => Some (consensusSetStatus, false)
  | Some memberExt =>
      let memberExt :=
        consensusMemberExt.mk
          (consensusMemberExt.name memberExt)
          (consensusMemberExt.consensusRole memberExt)
          (consensusMemberExt.accessMode memberExt)
          podName in
      consensusSetStatus ←
        resetConsensusSetStatusRole consensusSetStatus (consensusMemberExt.podName memberExt);
      (* update cluster.status *)
      if String.eqb (consensusMemberExt.consensusRole memberExt) roleLeader then
        Some (setConsensusSetStatusLeader consensusSetStatus memberExt)
      else if String.eqb (consensusMemberExt.consensusRole memberExt) roleFollower then
        Some (setConsensusSetStatusFollower consensusSetStatus memberExt)
      else if String.eqb (consensusMemberExt.consensusRole memberExt) roleLearner then
        Some (setConsensusSetStatusLearner consensusSetStatus memberExt)
      else Some (consensusSetStatus, false)
  end.

(** [setConsensusSetStatusRoles]; the status is never [nil] at its call
    site. *)
Fixpoint setConsensusSetStatusRoles (consensusSetStatus : ConsensusSetStatus.t)
    (componentDef : ClusterComponentDefinition.t) (pods : list Pod.t)
    : option ConsensusSetStatus.t :=
  match pods with
  | [] => Some consensusSetStatus
  | pod :: pods' =>
      if negb (Pod.Ready pod) then
        setConsensusSetStatusRoles consensusSetStatus componentDef pods'
      else
        let role := Pod.RoleLabel pod in
        '(consensusSetStatus, _) ←
          setConsensusSetStatusRole consensusSetStatus componentDef role (Pod.Name pod);
        setConsensusSetStatusRoles consensusSetStatus componentDef pods'
  end.

(** ** The roles in the environment config maps *)

(** The first loop of [updateConsensusRoleInfo]: the leader and the followers
    seen so far. *)
Fixpoint collectRoleInfo (componentDef : ClusterComponentDefinition.t)
    (pods : list Pod.t) (leader followers : string) : option (string * string) :=
  match pods with
  | [] => Some (leader, followers)
  | pod :: pods' =>
      let role := Pod.RoleLabel pod in
      (* mapping role label to consensus member *)
      roleMap ← composeConsensusRoleMap componentDef;
      match roleMap !! role with
      | Datatypes.None => collectRoleInfo componentDef pods' leader followers
      | Some memberExt =>
          if String.eqb (consensusMemberExt.consensusRole memberExt) roleLeader then
            collectRoleInfo componentDef pods' (Pod.Name pod) followers
          else if String.eqb (consensusMemberExt.consensusRole memberExt) roleFollower then
            let followers :=
              if (0 <? String.length followers)%nat
              then String.append followers "," else followers in
            collectRoleInfo componentDef pods' leader (String.append followers (Pod.Name pod))
          else collectRoleInfo componentDef pods' leader followers
      end
  end.

Definition leaderKey (componentName : string) : string :=
  String.append "KB_" (String.append (ToUpper componentName) "_LEADER").

Definition followersKey (componentName : string) : string :=
  String.append "KB_" (String.append (ToUpper componentName) "_FOLLOWERS").

(** The second loop of [updateConsensusRoleInfo]: a config map without data
    panics at the first assignment, an error of [cli.Patch] ends the loop. *)
Fixpoint patchConfigs (cli : Client.t) (componentName leader followers : string)
    (items : list ConfigMap.t) : option (option error * list Action) :=
  match items with
  | [] => Some (Datatypes.None, [])
  | config :: items' =>
      data ← ConfigMap.Data config;
      let data := <[leaderKey componentName := leader]> data in
      let data := <[followersKey componentName := followers]> data in
      let config := ConfigMap.mk (ConfigMap.Name config) (Some data) in
      match Client.Patch cli config with
      | Some err => Some (Some err, [PatchConfigMap config])
      | Datatypes.None =>
          '(err, sent) ← patchConfigs cli componentName leader followers items';
          Some (err, PatchConfigMap config :: sent)
      end
  end.

Definition updateConsensusRoleInfo (cli : Client.t)
    (componentDef : ClusterComponentDefinition.t) (componentName : string)
    (pods : list Pod.t) : option (option error * list Action) :=
  '(leader, followers) ← collectRoleInfo componentDef pods "" "";
  match Client.List cli with
  | inl err => Some (Some err, [])
  | inr items => patchConfigs cli componentName leader followers items
  end.

(** ** The update plan and the pass *)

(** [generateConsensusUpdatePlan]: the start of the plan, whose walk function
    is [WalkFunc cli stsObj]. [component.ConsensusSpec.UpdateStrategy] panics
    on a [nil] consensus spec; the [switch] has no default case. *)
Definition generateConsensusUpdatePlan (pods : list Pod.t)
    (component : ClusterComponentDefinition.t) : option Step :=
  let plan := mkStep Datatypes.None [] in
  let rolePriorityMap := ComposeRolePriorityMap component in
  let pods := SortPods pods rolePriorityMap in
  (* generate plan by UpdateStrategy *)
  spec ← ClusterComponentDefinition.ConsensusSpec component;
  let strategy := ConsensusSetSpec.UpdateStrategy spec in
  if String.eqb strategy appsv1alpha1.SerialStrategy then
    Some (generateConsensusSerialPlan plan pods)
  else if String.eqb strategy appsv1alpha1.ParallelStrategy then
    Some (generateConsensusParallelPlan plan pods)
  else if String.eqb strategy appsv1alpha1.BestEffortParallelStrategy then
    generateConsensusBestEffortParallelPlan plan pods rolePriorityMap
  else Some plan.

(** The status every pass starts from: the literal names the leader only,
    so the followers are the [nil] slice and the learner the [nil] pointer. *)
Definition initialConsensusSetStatus : ConsensusSetStatus.t :=
  ConsensusSetStatus.mk
    (ConsensusMemberStatus.mk "" ComponentStatusDefaultPodName appsv1alpha1.None)
    Datatypes.None Datatypes.None.

(** [!cmp.Equal(newConsensusSetStatus, oldConsensusSetStatus)]: the
    comparison of what the two pointers refer to, field by field, a [nil]
    slice or pointer being equal to a [nil] one only; the new status is never
    [nil]. *)
Definition statusChanged (newConsensusSetStatus : ConsensusSetStatus.t)
    (oldConsensusSetStatus : option ConsensusSetStatus.t) : bool :=
  negb (bool_decide (Some newConsensusSetStatus = oldConsensusSetStatus)).

(** [handleConsensusSetUpdate]: the Go result [(bool, error)], the cluster
    object of the caller as the pass leaves it and the requests sent, in
    order. The new status is written into the cluster object before the
    status patch is sent, so the object holds it also when the patch fails.
    [util.InitClusterComponentStatusIfNeed] is outside the sources at hand: it
    is taken to make the entry of the component when it is missing and to
    leave the other entries as they are. *)
Definition handleConsensusSetUpdate (cli : Client.t) (cluster : Cluster.t)
    (stsObj : StatefulSet.t)
    : option (bool * option error * Cluster.t * list Action) :=
  (* get component from ClusterDefinition by compDefName *)
  match Client.GetComponentDefByCluster cli with
  | inl err => Some (false, Some err, cluster, [])
  | inr Datatypes.None => Some (true, Datatypes.None, cluster, [])
  | inr (Some component) =>
      if negb (String.eqb (ClusterComponentDefinition.WorkloadType component)
                 appsv1alpha1.Consensus)
      then Some (true, Datatypes.None, cluster, [])
      else
        match Client.GetPodListByStatefulSet cli with
        | inl err => Some (false, Some err, cluster, [])
        | inr pods =>
            let componentName := StatefulSet.ComponentLabel stsObj in
            (* first, get the old status *)
            let oldConsensusSetStatus :=
              Cluster.Components cluster !! componentName ≫= id in
            (* then, calculate the new status *)
            newConsensusSetStatus ←
              setConsensusSetStatusRoles initialConsensusSetStatus component pods;
            (* if status changed, do update *)
            '(err, cluster, sent) ←
              (if statusChanged newConsensusSetStatus oldConsensusSetStatus then
                 (* componentStatus.ConsensusSetStatus = newConsensusSetStatus;
                    cluster.Status.Components[componentName] = componentStatus *)
                 let cluster :=
                   Cluster.mk (Cluster.Name cluster)
                     (<[componentName := Some newConsensusSetStatus]>
                        (Cluster.Components cluster)) in
                 let sent := [PatchStatus componentName newConsensusSetStatus] in
                 match Client.StatusPatch cli with
                 | Some err => Some (Some err, cluster, sent)
                 | Datatypes.None =>
                     (* add consensus role info to pod env *)
                     '(err, sent') ←
                       updateConsensusRoleInfo cli component componentName pods;
                     Some (err, cluster, sent ++ sent')
                 end
               else Some (Datatypes.None, cluster, []));
            match err with
            | Some err => Some (false, Some err, cluster, sent)
            | Datatypes.None =>
                if negb (Z.eqb (StatefulSet.Generation stsObj)
                           (StatefulSet.ObservedGeneration stsObj))
                then Some (false, Datatypes.None, cluster, sent)
                else
                  replicas ← StatefulSet.Replicas stsObj;
                  if negb (Z.eqb (Z.of_nat (length pods)) replicas)
                  then Some (false, Datatypes.None, cluster, sent)
                  else
                    (* generate the pods Deletion plan *)
                    plan ← generateConsensusUpdatePlan pods component;
                    (* execute plan *)
                    let '(done, err, sent') := WalkOneStep (WalkFunc cli stsObj) plan in
                    Some (done, err, cluster, sent ++ sent')
            end
        end
  end.

(** ** Readings of a consensus spec used in the statements *)

(** The consensus spec [ComposeRolePriorityMap] works on. *)
Definition specOrDefault (component : ClusterComponentDefinition.t) : ConsensusSetSpec.t :=
  match ClusterComponentDefinition.ConsensusSpec component with
  | Some spec => spec
  | Datatypes.None => ConsensusSetSpec.mk DefaultLeader [] Datatypes.None ""
  end.

End ConsensusSet.

(** The leader, the learner if there is one, and the followers. *)
Definition members (spec : ConsensusSetSpec.t) : list ConsensusMember.t :=
  ConsensusSetSpec.Leader spec
    :: option_list (ConsensusSetSpec.Learner spec) ++ ConsensusSetSpec.Followers spec.

(** The role labels of a spec. *)
Definition roleLabels (spec : ConsensusSetSpec.t) : list string :=
  ConsensusMember.Name <$> members spec.

(** A valid role specification: the role names differ from each other and
    from the empty label. *)
Definition validRoles (spec : ConsensusSetSpec.t) : Prop :=
  NoDup ("" :: roleLabels spec).

(** The priority a follower's access mode stands for, if any. *)
Definition followerPriority (accessMode : AccessMode) : option Z :=
  if String.eqb accessMode appsv1alpha1.None then Some followerNonePriority
  else if String.eqb accessMode appsv1alpha1.Readonly then Some followerReadonlyPriority
  else if String.eqb accessMode appsv1alpha1.ReadWrite then Some followerReadWritePriority
  else Datatypes.None.

(** A well-formed entry: a name and an access mode that are not empty. *)
Definition wellFormed (e : ConsensusMember.t) : Prop :=
  ConsensusMember.Name e ≠ "" ∧ ConsensusMember.AccessMode e ≠ "".

(** The access modes the priority map knows. *)
Definition recognised (accessMode : AccessMode) : Prop :=
  accessMode = appsv1alpha1.None ∨ accessMode = appsv1alpha1.Readonly
  ∨ accessMode = appsv1alpha1.ReadWrite.

(** [a] does not come after [b] in the order of the comparison [less]. *)
Definition notAfter {A : Type} (less : A -> A -> bool) (a b : A) : Prop :=
  less b a = false.

(** ** Readings of a status used in the statements *)

(** The pod names in the three slots of a status. The leader slot is never
    empty in Go: it holds the default pod name when no pod is the leader. *)
Definition leaderPods (defaultPodName : string) (s : ConsensusSetStatus.t) : list string :=
  if decide (ConsensusMemberStatus.Pod (ConsensusSetStatus.Leader s) = defaultPodName)
  then [] else [ConsensusMemberStatus.Pod (ConsensusSetStatus.Leader s)].

Definition followerPods (s : ConsensusSetStatus.t) : list string :=
  ConsensusMemberStatus.Pod <$> elements (ConsensusSetStatus.Followers s).

Definition learnerPods (s : ConsensusSetStatus.t) : list string :=
  ConsensusMemberStatus.Pod <$> option_list (ConsensusSetStatus.Learner s).

(** No pod name is in two slots or twice among the followers, and the
    followers are in the order of their pod names. *)
Definition slotsConsistent (defaultPodName : string) (s : ConsensusSetStatus.t) : Prop :=
  NoDup (leaderPods defaultPodName s ++ followerPods s ++ learnerPods s)
  ∧ StronglySorted (notAfter stringLess) (followerPods s).

(** ** Readings of a plan used in the statements *)

(** The batches of a plan in the order of the walk: the objects of
    [NextSteps], then the batches below the first of these steps. *)
Fixpoint planBatches (start : Step) : list (list (option Pod.t)) :=
  match start with
  | mkStep _ steps =>
      match steps with
      | [] => []
      | first :: _ => (Obj <$> steps) :: planBatches first
      end
  end.

(** The objects of a batch of pods. *)
Definition batchObjs (pods : list Pod.t) : list (option Pod.t) := Some <$> pods.

(** The pods of all the steps of a plan, wherever they hang. *)
Fixpoint planPods (start : Step) : list Pod.t :=
  match start with
  | mkStep obj steps => option_list obj ++ flat_map planPods steps
  end.

(** The steps that hold the batches [batches] one after the other: the steps
    of a batch are siblings and the next batch hangs below the first of them;
    an empty batch leaves no step. *)
Fixpoint linked (batches : list (list Pod.t)) : list Step :=
  match batches with
  | [] => []
  | [] :: batches' => linked batches'
  | (pod :: pods) :: batches' =>
      mkStep (Some pod) (linked batches') :: (stepOf <$> pods)
  end.

(** A loop that appends a step for every pod of [pods] below [start]. *)
Definition appendAll (start : list nat) (pods : list Pod.t) (plan : Step) : Step :=
  fold_left (fun plan pod => appendNext start (stepOf pod) plan) pods plan.

(** Such loops in a row, the pointer advancing after each. *)
Fixpoint appendBatches (start : list nat) (batches : list (list Pod.t)) (plan : Step) : Step :=
  match batches with
  | [] => plan
  | pods :: batches' =>
      let plan' := appendAll start pods plan in
      appendBatches (advance plan' start) batches' plan'
  end.

(** The priority of the role a pod is labelled with. *)
Definition podPriority (rolePriorityMap : gmap string Z) (pod : Pod.t) : Z :=
  priorityOf rolePriorityMap (Pod.RoleLabel pod).

(** The four groups of the best-effort-parallel plan of a sorted pod list:
    the pods up to the learner priority; of the [F] pods above it and below the
    leader priority, the first [F/2] and the other [F - F/2]; the pods that
    reach the leader priority, which is the highest a role has. *)
Definition lowPods (m : gmap string Z) (pods : list Pod.t) : list Pod.t :=
  filter (λ pod, podPriority m pod ≤ learnerPriority) pods.

Definition followerPodsOf (m : gmap string Z) (pods : list Pod.t) : list Pod.t :=
  filter (λ pod, learnerPriority < podPriority m pod < leaderPriority) pods.

Definition leaderPodsOf (m : gmap string Z) (pods : list Pod.t) : list Pod.t :=
  filter (λ pod, leaderPriority ≤ podPriority m pod) pods.

Definition bestEffortGroups (m : gmap string Z) (pods : list Pod.t) : list (list Pod.t) :=
  let followers := followerPodsOf m pods in
  let F := length followers in
  [lowPods m pods;
   take (F / 2) followers;
   drop (F / 2) followers;
   leaderPodsOf m pods].

(** Sorted by priority, then ordinal: no pod is below one before it in the
    order of [SortPods]. *)
Definition sortedPods (m : gmap string Z) (pods : list Pod.t) : Prop :=
  StronglySorted (notAfter (podLess m)) pods.

(** The name and the label of the ready pods, in the order of the list. *)
Definition readyRoles (pods : list Pod.t) : list (string * string) :=
  (λ pod, (Pod.Name pod, Pod.RoleLabel pod)) <$> filter (λ pod, Pod.Ready pod = true) pods.

(** ** Readings of a pass used in the statements *)

(** The status update for a list of pod names and labels. *)
Fixpoint applyRoles (defaultPodName : string) (status : ConsensusSetStatus.t)
    (componentDef : ClusterComponentDefinition.t) (roles : list (string * string))
    : option ConsensusSetStatus.t :=
  match roles with
  | [] => Some status
  | (podName, role) :: roles' =>
      '(status, _) ← setConsensusSetStatusRole defaultPodName status componentDef role podName;
      applyRoles defaultPodName status componentDef roles'
  end.

(** The stateful set has not converged for the pods observed: its generation
    is not the observed one, or the pods are not as many as the replicas. *)
Definition notConverged (stsObj : StatefulSet.t) (pods : list Pod.t) : Prop :=
  StatefulSet.Generation stsObj ≠ StatefulSet.ObservedGeneration stsObj
  ∨ ∃ replicas, StatefulSet.Replicas stsObj = Some replicas
                ∧ Z.of_nat (length pods) ≠ replicas.

Definition isDelete (action : Action) : Prop := ∃ pod, action = DeletePod pod.

Definition isPatchConfigMap (action : Action) : Prop :=
  ∃ config, action = PatchConfigMap config.

(** What [handleConsensusSetUpdate] does once the status part is over without
    an error: the two checks, the plan and its walk. *)
Definition deletionStage (DefaultLeader : ConsensusMember.t) (cli : Client.t)
    (stsObj : StatefulSet.t) (pods : list Pod.t)
    (component : ClusterComponentDefinition.t) (cluster : Cluster.t) (sent : list Action)
    : option (bool * option error * Cluster.t * list Action) :=
  if negb (Z.eqb (StatefulSet.Generation stsObj) (StatefulSet.ObservedGeneration stsObj))
  then Some (false, Datatypes.None, cluster, sent)
  else
    replicas ← StatefulSet.Replicas stsObj;
    if negb (Z.eqb (Z.of_nat (length pods)) replicas)
    then Some (false, Datatypes.None, cluster, sent)
    else
      plan ← generateConsensusUpdatePlan DefaultLeader pods component;
      let '(done, err, sent') := WalkOneStep (WalkFunc cli stsObj) plan in
      Some (done, err, cluster, sent ++ sent').

(** The cluster with the status of a component set. *)
Definition withStatus (cluster : Cluster.t) (componentName : string)
    (status : ConsensusSetStatus.t) : Cluster.t :=
  Cluster.mk (Cluster.Name cluster)
    (<[componentName := Some status]> (Cluster.Components cluster)).

(** The status the cluster holds for a component. *)
Definition statusOf (cluster : Cluster.t) (componentName : string)
    : option ConsensusSetStatus.t :=
  Cluster.Components cluster !! componentName ≫= id.

(** ** Readings of the config propagation used in the statements *)

(** The role the role map gives a label. *)
Definition roleOfLabel (spec : ConsensusSetSpec.t) (label : string) : option consensusRole :=
  consensusMemberExt.consensusRole <$> composeRoles spec !! label.

(** The names of the pods labelled as followers, in the order of the list. *)
Definition followerNames (spec : ConsensusSetSpec.t) (pods : list Pod.t) : list string :=
  Pod.Name <$> filter (λ pod, roleOfLabel spec (Pod.RoleLabel pod) = Some roleFollower) pods.

(** The name of the last pod of the list labelled as leader, or the empty
    string. *)
Definition leaderName (spec : ConsensusSetSpec.t) (pods : list Pod.t) : string :=
  default ""
    (last (Pod.Name <$>
             filter (λ pod, roleOfLabel spec (Pod.RoleLabel pod) = Some roleLeader) pods)).

(** The names [names] joined onto [followers] the way the loop does: a comma
    goes first unless nothing was collected so far. *)
Definition joinOnto (followers : string) (names : list string) : string :=
  fold_left
    (fun followers name =>
       String.append
         (if (0 <? String.length followers)%nat then String.append followers "," else followers)
         name)
    names followers.

(** A config map with the two keys of the component set. *)
Definition propagated (ToUpper : string -> string) (componentName leader followers : string)
    (config : ConfigMap.t) : ConfigMap.t :=
  ConfigMap.mk (ConfigMap.Name config)
    (Some (<[followersKey ToUpper componentName := followers]>
             (<[leaderKey ToUpper componentName := leader]>
                (default ∅ (ConfigMap.Data config))))).

(** ** Sample inputs *)

Module Sample.

Definition defaultLeader : ConsensusMember.t :=
  ConsensusMember.mk "leader" appsv1alpha1.ReadWrite.

Definition defaultPodName : string := "Unknown".

(** Upper case of the ASCII letters, the other bytes unchanged. *)
Definition upperAscii (c : ascii) : ascii :=
  let n := nat_of_ascii c in
  if ((97 <=? n) && (n <=? 122))%nat then ascii_of_nat (n - 32) else c.

Fixpoint toUpper (s : string) : string :=
  match s with
  | EmptyString => EmptyString
  | String c s' => String (upperAscii c) (toUpper s')
  end.

(** The scenario of the spec extended with a learner and a follower without
    access. *)
Definition consensusSpec : ConsensusSetSpec.t :=
  ConsensusSetSpec.mk
    (ConsensusMember.mk "primary" appsv1alpha1.ReadWrite)
    [ConsensusMember.mk "secondary" appsv1alpha1.ReadWrite;
     ConsensusMember.mk "secondary2" appsv1alpha1.Readonly;
     ConsensusMember.mk "standby" appsv1alpha1.None]
    (Some (ConsensusMember.mk "learner" appsv1alpha1.Readonly))
    appsv1alpha1.BestEffortParallelStrategy.

Definition component : ClusterComponentDefinition.t :=
  ClusterComponentDefinition.mk appsv1alpha1.Consensus (Some consensusSpec).

(** A leader whose access mode is empty. *)
Definition emptyAccessLeader : ClusterComponentDefinition.t :=
  ClusterComponentDefinition.mk appsv1alpha1.Consensus
    (Some (ConsensusSetSpec.mk (ConsensusMember.mk "primary" "") [] Datatypes.None
             appsv1alpha1.SerialStrategy)).

(** A component that is not a consensus set. *)
Definition stateless : ClusterComponentDefinition.t :=
  ClusterComponentDefinition.mk "Stateless" Datatypes.None.

(** A ready pod at revision [rev]. *)
Definition pod (name : string) (ordinal : Z) (role rev : string) : Pod.t :=
  Pod.mk name ordinal role rev true false.

(** Four pods of the sample component in the order of [SortPods]: the
    learner, the two followers, the leader; the first follower is stale. *)
Definition pods : list Pod.t :=
  [pod "mysql-3" 3 "learner" "rev-2";
   pod "mysql-1" 1 "secondary2" "rev-1";
   pod "mysql-2" 2 "secondary" "rev-2";
   pod "mysql-0" 0 "primary" "rev-2"].

(** Two followers listed against the order of their names. *)
Definition unsortedPods : list Pod.t :=
  [pod "mysql-1" 1 "secondary" "rev-2";
   pod "mysql-0" 0 "secondary2" "rev-2"].

(** The stateful set of the component "mysql", whose update revision is
    "rev-2". *)
Definition sts (generation observed : Z) (replicas : Z) : StatefulSet.t :=
  StatefulSet.mk "mysql" generation observed (Some replicas) "rev-2".

Definition cluster : Cluster.t := Cluster.mk "cluster" ∅.

Definition config : ConfigMap.t := ConfigMap.mk "mysql-env" (Some ∅).

(** A client whose fetches succeed and whose requests succeed or fail as
    told. *)
Definition client (component : option ClusterComponentDefinition.t)
    (pods : list Pod.t) (configs : list ConfigMap.t)
    (statusPatch patch delete : option error) : Client.t :=
  Client.mk (inr component) (inr pods) statusPatch (inr configs)
    (fun _ => patch) (fun _ => delete).

(** The status of the sample component when only its leader pod is seen. *)
Definition leaderStatus : ConsensusSetStatus.t :=
  ConsensusSetStatus.mk
    (ConsensusMemberStatus.mk "primary" "mysql-0" appsv1alpha1.ReadWrite)
    Datatypes.None Datatypes.None.

End Sample.

(** ** Further readings used in the statements *)

#[global] Instance wellFormed_dec (e : ConsensusMember.t) : Decision (wellFormed e).
Proof. unfold wellFormed. apply _. Defined.

#[global] Instance recognised_dec (accessMode : AccessMode) : Decision (recognised accessMode).
Proof. unfold recognised. apply _. Defined.

(** The last follower of the list that carries the label and passes the
    test [P], the one whose entry is written last. *)
Definition lastMember (P : ConsensusMember.t → Prop) `{∀ e, Decision (P e)}
    (label : string) (followers : list ConsensusMember.t) : option ConsensusMember.t :=
  last (filter (λ f, ConsensusMember.Name f = label ∧ P f) followers).

(** The entry of the role map for a member in a role. *)
Definition extOf (role : consensusRole) (e : ConsensusMember.t) : consensusMemberExt.t :=
  consensusMemberExt.mk (ConsensusMember.Name e) role (ConsensusMember.AccessMode e) "".

(** A member that carries the label and is well formed. *)
Definition named (label : string) (e : ConsensusMember.t) : Prop :=
  ConsensusMember.Name e = label ∧ wellFormed e.

#[global] Instance named_dec label e : Decision (named label e).
Proof. unfold named. apply _. Defined.

(** The names of the ready pods whose label stands for the role [role], in
    the order of the list. *)
Definition readyNamesOf (spec : ConsensusSetSpec.t) (role : consensusRole)
    (pods : list Pod.t) : list string :=
  Pod.Name <$>
    filter (λ pod, Pod.Ready pod = true ∧ roleOfLabel spec (Pod.RoleLabel pod) = Some role)
      pods.

(** The pods that count for the status: ready and labelled with a role of
    the role map. *)
Definition counted (spec : ConsensusSetSpec.t) (pod : Pod.t) : Prop :=
  Pod.Ready pod = true ∧ is_Some (composeRoles spec !! Pod.RoleLabel pod).

#[global] Instance counted_dec spec pod : Decision (counted spec pod).
Proof. unfold counted. apply _. Defined.

(** The pods of the same rank in the order of [SortPods]. *)
Definition sameRank (m : gmap string Z) (priority ordinal : Z) (pod : Pod.t) : Prop :=
  podPriority m pod = priority ∧ Pod.Ordinal pod = ordinal.

#[global] Instance sameRank_dec m priority ordinal pod :
  Decision (sameRank m priority ordinal pod).
Proof. unfold sameRank. apply _. Defined.

(** ** The role label of a pod ([UpdateConsensusSetRoleLabel]) *)

Section RoleLabel.

(** [intctrlutil.RoleLabelKey] and
    [intctrlutil.ConsensusSetAccessModeLabelKey] are declared outside the
    sources at hand: the development holds for every value of them. *)
Variable RoleLabelKey : string.
Variable ConsensusSetAccessModeLabelKey : string.

(** [UpdateConsensusSetRoleLabel]: the answers of [cli.Get] for the cluster,
    of [util.GetComponentDefByCluster] and of [cli.Patch] are inputs; the
    pod is read through [pod.Labels], a map that may be [nil], and writing
    to a [nil] map panics. The result is the Go error and the labels of the
    pod in the patch request, if one is sent. *)
Definition UpdateConsensusSetRoleLabel (get : option error)
    (getComponentDefByCluster : error + option ClusterComponentDefinition.t)
    (patch : option error) (labels : option (gmap string string)) (role : string)
    : option (option error * option (gmap string string)) :=
  (* get cluster obj *)
  match get with
  | Some err => Some (Some err, Datatypes.None)
  | Datatypes.None =>
      (* get componentDef this pod belongs to *)
      match getComponentDefByCluster with
      | inl err => Some (Some err, Datatypes.None)
      | inr Datatypes.None => Some (Datatypes.None, Datatypes.None)
      | inr (Some componentDef) =>
          roleMap ← composeConsensusRoleMap componentDef;
          (* role not defined in CR, ignore it *)
          match roleMap !! role with
          | Datatypes.None => Some (Datatypes.None, Datatypes.None)
          | Some memberExt =>
              (* update pod role label *)
              labels ← labels;
              let labels := <[RoleLabelKey := role]> labels in
              let labels :=
                <[ConsensusSetAccessModeLabelKey := consensusMemberExt.accessMode memberExt]>
                  labels in
              Some (patch, Some labels)
          end
      end
  end.

End RoleLabel.

(** ** The cluster version controller (package [apps]) *)

Module ClusterDefinition.
Record t := mk { Name : string; Generation : Z }.
End ClusterDefinition.

(** A cluster version as the controller reads and writes it. *)
Module ClusterVersion.
Record t := mk {
  Name : string;
  Deleting : bool;               (* !GetDeletionTimestamp().IsZero() *)
  Phase : string;                (* Status.Phase *)
  Message : string;              (* Status.Message *)
  ObservedGeneration : Z;        (* Status.ObservedGeneration *)
  ClusterDefGeneration : Z       (* Status.ClusterDefGeneration *)
}.
End ClusterVersion.

(** A cluster as [syncClusterStatusOperationsWithUpgrade] reads and writes
    it: [Status.Operations] is a pointer, of which [Upgradable] is read. *)
Module ClusterOperations.
Record t := mk { Name : string; Upgradable : option bool }.
End ClusterOperations.

(** [strings.Join] *)
Fixpoint Join (elems : list string) (sep : string) : string :=
  match elems with
  | [] => ""
  | [elem] => elem
  | elem :: elems' => String.append elem (String.append sep (Join elems' sep))
  end.

Section ClusterVersionController.

(** [appsv1alpha1.UnavailablePhase], [appsv1alpha1.AvailablePhase],
    [ClusterVersion.GetInconsistentComponentsInfo] and the [%v] of
    [fmt.Sprintf] for a slice of strings are declared outside the sources at
    hand: the development holds for every value of them. *)
Variable UnavailablePhase : string.
Variable AvailablePhase : string.
Variable GetInconsistentComponentsInfo :
  ClusterVersion.t → ClusterDefinition.t → list string * list string.
Variable formatNames : list string → string.

Definition validateClusterVersion (clusterVersion : ClusterVersion.t)
    (clusterDef : ClusterDefinition.t) : string :=
  let '(notFoundComponentDefNames, noContainersComponents) :=
    GetInconsistentComponentsInfo clusterVersion clusterDef in
  let statusMsgs : list string := [] in
  let statusMsgs :=
    if (0 <? length notFoundComponentDefNames)%nat then
      statusMsgs ++
        [String.append "spec.componentSpecs[*].componentDefRef "
           (String.append (formatNames notFoundComponentDefNames)
              " not found in ClusterDefinition.spec.componentDefs[*].name")]
    else if (0 <? length noContainersComponents)%nat then
      statusMsgs ++
        [String.append "spec.componentSpecs[*].componentDefRef "
           (String.append (formatNames noContainersComponents)
              " missing spec.componentSpecs[*].containers in ClusterDefinition.spec.componentDefs[*] and ClusterVersion.spec.componentVersions[*]")]
    else statusMsgs in
  Join statusMsgs ";".

(** The body of the loop of [clusterVersionUpdateHandler] for an item whose
    [ClusterDefGeneration] is not the generation of the definition: the item
    as it is sent in the status patch. *)
Definition revalidate (clusterDef : ClusterDefinition.t) (item : ClusterVersion.t)
    : ClusterVersion.t :=
  let statusMsg := validateClusterVersion item clusterDef in
  if negb (String.eqb statusMsg "") then
    ClusterVersion.mk (ClusterVersion.Name item) (ClusterVersion.Deleting item)
      UnavailablePhase statusMsg
      (ClusterVersion.ObservedGeneration item) (ClusterVersion.ClusterDefGeneration item)
  else
    ClusterVersion.mk (ClusterVersion.Name item) (ClusterVersion.Deleting item)
      AvailablePhase ""
      (ClusterVersion.ObservedGeneration item) (ClusterDefinition.Generation clusterDef).

(** The loop of [clusterVersionUpdateHandler]: the Go error and the items
    sent in a status patch, in order; an error of the patch ends the loop. *)
Fixpoint revalidateItems (patch : ClusterVersion.t → option error)
    (clusterDef : ClusterDefinition.t) (items : list ClusterVersion.t)
    : option error * list ClusterVersion.t :=
  match items with
  | [] => (Datatypes.None, [])
  | item :: items' =>
      if negb (Z.eqb (ClusterVersion.ClusterDefGeneration item)
                 (ClusterDefinition.Generation clusterDef))
      then
        let item := revalidate clusterDef item in
        match patch item with
        | Some err => (Some err, [item])
        | Datatypes.None =>
            let '(err, sent) := revalidateItems patch clusterDef items' in
            (err, item :: sent)
        end
      else revalidateItems patch clusterDef items'
  end.

(** [clusterVersionUpdateHandler]: the answers of [labels.Parse], of
    [cli.List] and of [cli.Status().Patch] are inputs. *)
Definition clusterVersionUpdateHandler (parse : option error)
    (list_ : error + list ClusterVersion.t) (patch : ClusterVersion.t → option error)
    (clusterDef : ClusterDefinition.t) : option error * list ClusterVersion.t :=
  match parse with
  | Some err => (Some err, [])
  | Datatypes.None =>
      match list_ with
      | inl err => (Some err, [])
      | inr items => revalidateItems patch clusterDef items
      end
  end.

(** [handleClusterDefNotFound]: the Go error, the cluster version as the
    caller holds it afterwards and the status patches sent. *)
Definition handleClusterDefNotFound (patch : ClusterVersion.t → option error)
    (clusterVersion : ClusterVersion.t) (message : string)
    : option error * ClusterVersion.t * list ClusterVersion.t :=
  if String.eqb (ClusterVersion.Message clusterVersion) message then
    (Datatypes.None, clusterVersion, [])
  else
    let clusterVersion :=
      ClusterVersion.mk (ClusterVersion.Name clusterVersion)
        (ClusterVersion.Deleting clusterVersion)
        UnavailablePhase message
        (ClusterVersion.ObservedGeneration clusterVersion)
        (ClusterVersion.ClusterDefGeneration clusterVersion) in
    (patch clusterVersion, clusterVersion, [clusterVersion]).

(** What a status patch of [clusterVersionUpdateHandler] says of the item
    [item]: [item'] is the item sent. *)
Definition revalidated (clusterDef : ClusterDefinition.t) (item item' : ClusterVersion.t)
    : Prop :=
  ClusterVersion.Name item' = ClusterVersion.Name item
  ∧ if decide (GetInconsistentComponentsInfo item clusterDef = ([], []))
    then ClusterVersion.Phase item' = AvailablePhase
         ∧ ClusterVersion.Message item' = ""
         ∧ ClusterVersion.ClusterDefGeneration item' = ClusterDefinition.Generation clusterDef
    else ClusterVersion.Phase item' = UnavailablePhase
         ∧ ClusterVersion.Message item' ≠ ""
         ∧ ClusterVersion.ClusterDefGeneration item'
           = ClusterVersion.ClusterDefGeneration item.

End ClusterVersionController.

(** The loop of [syncClusterStatusOperationsWithUpgrade] over the clusters:
    [v] is a copy of the item, a [nil] [Status.Operations] is replaced by an
    empty one, whose [Upgradable] is [false]; an error of the patch ends the
    loop. *)
Fixpoint syncClusters (patch : ClusterOperations.t → option error) (upgradable : bool)
    (items : list ClusterOperations.t) : option error * list ClusterOperations.t :=
  match items with
  | [] => (Datatypes.None, [])
  | v :: items' =>
      let operations := default false (ClusterOperations.Upgradable v) in
      if Bool.eqb operations upgradable then syncClusters patch upgradable items'
      else
        let v := ClusterOperations.mk (ClusterOperations.Name v) (Some upgradable) in
        match patch v with
        | Some err => (Some err, [v])
        | Datatypes.None =>
            let '(err, sent) := syncClusters patch upgradable items' in
            (err, v :: sent)
        end
  end.

(** [syncClusterStatusOperationsWithUpgrade]: the answers of the two
    [Client.List] calls and of [Client.Status().Patch] are inputs; the result
    is the Go error and the clusters sent in a status patch, in order. *)
Definition syncClusterStatusOperationsWithUpgrade
    (listClusters : error + list ClusterOperations.t)
    (listClusterVersions : error + list ClusterVersion.t)
    (patch : ClusterOperations.t → option error)
    (clusterVersion : ClusterVersion.t) : option error * list ClusterOperations.t :=
  (* if not delete or create ClusterVersion, return *)
  if negb (Z.eqb (ClusterVersion.ObservedGeneration clusterVersion) 0)
     && negb (ClusterVersion.Deleting clusterVersion)
  then (Datatypes.None, [])
  else
    match listClusters with
    | inl err => (Some err, [])
    | inr clusterList =>
        match listClusterVersions with
        | inl err => (Some err, [])
        | inr clusterVersionList =>
            let upgradable := (1 <? length clusterVersionList)%nat in
            syncClusters patch upgradable clusterList
        end
    end.

(** ** The object factory of the tests ([BaseFactory]) *)

(** The object a factory builds, read through [SetNamespace], [SetName],
    [SetLabels], [GetName] and [GetLabels]; the labels are a map that may be
    [nil]. *)
Module Object.
Record t := mk {
  Namespace : string;
  Name : string;
  Labels : option (gmap string string)
}.
End Object.

(** [BaseFactory]: the object it holds; the concrete factory that every
    method returns for chaining is the factory itself. *)
Module BaseFactory.

Record t := mk { object : Object.t }.

(** [init] *)
Definition init (namespace name : string) (obj : Object.t) : t :=
  mk (Object.mk namespace name (Some ∅)).

(** [get] *)
Definition get (factory : t) : Object.t := object factory.

(** [GetObject] *)
Definition GetObject (factory : t) : Object.t := object factory.

(** [AddLabelsInMap]: the loop writes every entry of [labels] into the map
    of the object, in the order of the iteration; writing to a [nil] map
    panics, and a loop over no entry writes nothing. *)
Definition AddLabelsInMap (factory : t) (labels : gmap string string) : option t :=
  let l := Object.Labels (object factory) in
  l ← map_fold
        (λ k v (l : option (option (gmap string string))),
           l ← l; l ← l; Some (Some (<[k := v]> l)))
        (Some l) labels;
  Some (mk (Object.mk (Object.Namespace (object factory)) (Object.Name (object factory)) l)).

End BaseFactory.

(** ** Further sample inputs *)

Module Fixture.

(** A cluster version observed at generation 1 for a definition at
    generation [clusterDefGeneration]. *)
Definition version (name : string) (clusterDefGeneration : Z) : ClusterVersion.t :=
  ClusterVersion.mk name false "Available" "" 1 clusterDefGeneration.

(** A cluster version that is being created. *)
Definition created : ClusterVersion.t :=
  ClusterVersion.mk "v2" false "" "" 0 0.

Definition clusterDef : ClusterDefinition.t := ClusterDefinition.mk "mysql" 2.

(** The version "broken" refers to a component the definition does not have. *)
Definition inconsistent (clusterVersion : ClusterVersion.t) (clusterDef : ClusterDefinition.t)
    : list string * list string :=
  if String.eqb (ClusterVersion.Name clusterVersion) "broken" then (["proxy"], []) else ([], []).

(** The [%v] of a slice of strings: the elements between brackets, a space
    between two. *)
Definition formatNames (names : list string) : string :=
  String.append "[" (String.append (Join names " ") "]").

Definition clusters : list ClusterOperations.t :=
  [ClusterOperations.mk "c1" Datatypes.None;
   ClusterOperations.mk "c2" (Some true);
   ClusterOperations.mk "c3" (Some false)].

(** Two followers of the same name, and a learner of that name too. *)
Definition sharedName : ConsensusSetSpec.t :=
  ConsensusSetSpec.mk
    (ConsensusMember.mk "primary" appsv1alpha1.ReadWrite)
    [ConsensusMember.mk "replica" appsv1alpha1.ReadWrite;
     ConsensusMember.mk "replica" appsv1alpha1.Readonly]
    (Some (ConsensusMember.mk "replica" appsv1alpha1.None))
    appsv1alpha1.SerialStrategy.

(** The sample pods with one that is not ready and one of an unknown label. *)
Definition mixedPods : list Pod.t :=
  Pod.mk "mysql-4" 4 "secondary" "rev-2" false false
    :: Sample.pod "mysql-5" 5 "arbiter" "rev-2"
    :: Sample.pods.

Definition follower (pod : string) : ConsensusMemberStatus.t :=
  ConsensusMemberStatus.mk "secondary" pod appsv1alpha1.ReadWrite.

(** The sample component with another update strategy. *)
Definition withStrategy (strategy : UpdateStrategy) : ClusterComponentDefinition.t :=
  ClusterComponentDefinition.mk appsv1alpha1.Consensus
    (Some (ConsensusSetSpec.mk
             (ConsensusSetSpec.Leader Sample.consensusSpec)
             (ConsensusSetSpec.Followers Sample.consensusSpec)
             (ConsensusSetSpec.Learner Sample.consensusSpec)
             strategy)).

(** Three config maps, and a client that refuses the patch of the second. *)
Definition configs : list ConfigMap.t :=
  [ConfigMap.mk "env-0" (Some ∅); ConfigMap.mk "env-1" (Some ∅); ConfigMap.mk "env-2" (Some ∅)].

Definition refusing (name : string) : Client.t :=
  Client.mk (inr (Some Sample.component)) (inr Sample.pods) Datatypes.None (inr configs)
    (fun config =>
       if String.eqb (ConfigMap.Name config) name then Some (Failed "denied")
       else Datatypes.None)
    (fun _ => Datatypes.None).

(** The status of the sample component for the sample pods. *)
Definition fullStatus : ConsensusSetStatus.t :=
  ConsensusSetStatus.mk
    (ConsensusMemberStatus.mk "primary" "mysql-0" appsv1alpha1.ReadWrite)
    (Some [ConsensusMemberStatus.mk "secondary2" "mysql-1" appsv1alpha1.Readonly;
           ConsensusMemberStatus.mk "secondary" "mysql-2" appsv1alpha1.ReadWrite])
    (Some (ConsensusMemberStatus.mk "learner" "mysql-3" appsv1alpha1.Readonly)).

(** The labels of a pod of the sample component. *)
Definition podLabels : gmap string string :=
  <["app.kubernetes.io/instance" := "cluster"]> (<["role" := "secondary"]> ∅).

End Fixture.

(** * Properties *)

(** ** The priority map *)

Lemma priorities_values :
  leaderPriority = 32 ∧ followerReadWritePriority = 16 ∧ followerReadonlyPriority = 8
  ∧ followerNonePriority = 4 ∧ learnerPriority = 2 ∧ emptyPriority = 1.
Proof. repeat split; reflexivity. Qed.

Lemma putFollowerPriority_eq m f :
  putFollowerPriority m f =
    match followerPriority (ConsensusMember.AccessMode f) with
    | Some p => <[ConsensusMember.Name f := p]> m
    | Datatypes.None => m
    end.
Proof.
  unfold putFollowerPriority, followerPriority.
  repeat (destruct (String.eqb _ _); [reflexivity|]). reflexivity.
Qed.

(** A label that no follower with a recognised access mode carries keeps its
    entry through the loop over the followers. *)
Lemma fold_putFollowerPriority_other fs : ∀ (m : gmap string Z) l,
  (∀ f, f ∈ fs → ConsensusMember.Name f = l →
        followerPriority (ConsensusMember.AccessMode f) = Datatypes.None) →
  fold_left putFollowerPriority fs m !! l = m !! l.
Proof.
  induction fs as [|g fs IH]; intros m l Hl; [reflexivity|].
  simpl. rewrite IH by (intros f Hf; apply Hl; by right).
  rewrite putFollowerPriority_eq.
  destruct (followerPriority (ConsensusMember.AccessMode g)) as [p|] eqn:Hp; [|done].
  destruct (decide (ConsensusMember.Name g = l)) as [Heq|Hne].
  - rewrite (Hl g) in Hp by (done || by left). discriminate.
  - by rewrite lookup_insert_ne.
Qed.

(** With distinct follower names, a follower with a recognised access mode
    ends with the priority of that mode. *)
Lemma fold_putFollowerPriority_member fs : ∀ (m : gmap string Z) f p,
  NoDup (ConsensusMember.Name <$> fs) → f ∈ fs →
  followerPriority (ConsensusMember.AccessMode f) = Some p →
  fold_left putFollowerPriority fs m !! ConsensusMember.Name f = Some p.
Proof.
  induction fs as [|g fs IH]; intros m f p Hnd Hf Hp; [by apply elem_of_nil in Hf|].
  rewrite fmap_cons in Hnd. apply NoDup_cons in Hnd as [Hg Hnd].
  apply elem_of_cons in Hf as [->|Hf]; simpl.
  - rewrite fold_putFollowerPriority_other.
    + rewrite putFollowerPriority_eq, Hp. apply lookup_insert_eq.
    + intros f Hf Hname. exfalso. apply Hg. rewrite <- Hname.
      by apply list_elem_of_fmap_2.
  - by apply IH.
Qed.

Lemma composePriorities_empty spec :
  "" ∉ roleLabels spec → priorityOf (composePriorities spec) "" = emptyPriority.
Proof.
  intros Hne. unfold priorityOf, composePriorities.
  assert (Hmem : ∀ x, x ∈ members spec → ConsensusMember.Name x ≠ "").
  { intros x Hx Heq. apply Hne. rewrite <- Heq. by apply list_elem_of_fmap_2. }
  rewrite fold_putFollowerPriority_other.
  - assert (ConsensusMember.Name (ConsensusSetSpec.Leader spec) ≠ "")
      by (apply Hmem; unfold members; by left).
    destruct (ConsensusSetSpec.Learner spec) as [learner|] eqn:Hl.
    + assert (ConsensusMember.Name learner ≠ "").
      { apply Hmem. unfold members. rewrite Hl. simpl. right. by left. }
      rewrite lookup_insert_ne by done. rewrite lookup_insert_ne by done.
      by rewrite lookup_insert_eq.
    + rewrite lookup_insert_ne by done. by rewrite lookup_insert_eq.
  - intros f Hf Heq. exfalso. apply (Hmem f); [|done].
    unfold members. right. apply elem_of_app. by right.
Qed.

Lemma composePriorities_leader spec :
  NoDup (roleLabels spec) →
  priorityOf (composePriorities spec) (ConsensusMember.Name (ConsensusSetSpec.Leader spec))
  = leaderPriority.
Proof.
  unfold roleLabels, members. rewrite fmap_cons, fmap_app.
  intros [Hl _]%NoDup_cons. unfold priorityOf, composePriorities.
  rewrite fold_putFollowerPriority_other.
  - destruct (ConsensusSetSpec.Learner spec) as [learner|]; simpl in *.
    + rewrite lookup_insert_ne, lookup_insert_eq; [done|].
      intros Heq. apply Hl. rewrite Heq. by left.
    + by rewrite lookup_insert_eq.
  - intros f Hf Heq. exfalso. apply Hl. apply elem_of_app. right.
    rewrite <- Heq. by apply list_elem_of_fmap_2.
Qed.

Lemma composePriorities_learner spec learner :
  NoDup (roleLabels spec) → ConsensusSetSpec.Learner spec = Some learner →
  priorityOf (composePriorities spec) (ConsensusMember.Name learner) = learnerPriority.
Proof.
  unfold roleLabels, members. rewrite fmap_cons, fmap_app.
  intros [_ [_ [Hd _]]%NoDup_app]%NoDup_cons Hlearner.
  unfold priorityOf, composePriorities. rewrite Hlearner in *. simpl in Hd.
  rewrite fold_putFollowerPriority_other.
  - by rewrite lookup_insert_eq.
  - intros f Hf Heq. exfalso. apply (Hd (ConsensusMember.Name learner)); [by left|].
    rewrite <- Heq. by apply list_elem_of_fmap_2.
Qed.

Lemma composePriorities_follower spec f p :
  NoDup (roleLabels spec) → f ∈ ConsensusSetSpec.Followers spec →
  followerPriority (ConsensusMember.AccessMode f) = Some p →
  priorityOf (composePriorities spec) (ConsensusMember.Name f) = p.
Proof.
  unfold roleLabels, members. rewrite fmap_cons, fmap_app.
  intros [_ [_ [_ Hnd]]%NoDup_app]%NoDup_cons Hf Hp.
  unfold priorityOf, composePriorities.
  by rewrite (fold_putFollowerPriority_member _ _ f p).
Qed.

Lemma composePriorities_absent spec l :
  l ∉ "" :: roleLabels spec → priorityOf (composePriorities spec) l = 0.
Proof.
  unfold roleLabels, members. rewrite fmap_cons, fmap_app.
  intros Hl. unfold priorityOf, composePriorities.
  rewrite fold_putFollowerPriority_other.
  - destruct (ConsensusSetSpec.Learner spec) as [learner|]; simpl in *.
    + rewrite !lookup_insert_ne, lookup_empty; [done| | |]; intros Heq; apply Hl;
        rewrite <- Heq; set_solver.
    + rewrite !lookup_insert_ne, lookup_empty; [done| |]; intros Heq; apply Hl;
        rewrite <- Heq; set_solver.
  - intros f Hf Heq. exfalso. apply Hl. right. right. apply elem_of_app. right.
    rewrite <- Heq. by apply list_elem_of_fmap_2.
Qed.

(** Every priority of the map is one of the role priorities, so none exceeds
    the leader's. *)
Lemma composePriorities_bound spec l :
  0 ≤ priorityOf (composePriorities spec) l ≤ leaderPriority.
Proof.
  unfold priorityOf, composePriorities.
  set (m0 := match ConsensusSetSpec.Learner spec with
             | Some learner => _ | Datatypes.None => _ end).
  assert (H0 : ∀ l, 0 ≤ default 0 (m0 !! l) ≤ leaderPriority).
  { intros k. subst m0. destruct (ConsensusSetSpec.Learner spec) as [learner|].
    - destruct (decide (ConsensusMember.Name learner = k)) as [->|];
        [rewrite lookup_insert_eq; by vm_compute|rewrite lookup_insert_ne by done].
      destruct (decide (ConsensusMember.Name (ConsensusSetSpec.Leader spec) = k)) as [->|];
        [rewrite lookup_insert_eq; by vm_compute|rewrite lookup_insert_ne by done].
      destruct (decide ("" = k)) as [<-|];
        [rewrite lookup_insert_eq; by vm_compute|rewrite lookup_insert_ne by done].
      rewrite lookup_empty. by vm_compute.
    - destruct (decide (ConsensusMember.Name (ConsensusSetSpec.Leader spec) = k)) as [->|];
        [rewrite lookup_insert_eq; by vm_compute|rewrite lookup_insert_ne by done].
      destruct (decide ("" = k)) as [<-|];
        [rewrite lookup_insert_eq; by vm_compute|rewrite lookup_insert_ne by done].
      rewrite lookup_empty. by vm_compute. }
  clearbody m0. revert m0 H0 l.
  induction (ConsensusSetSpec.Followers spec) as [|f fs IH]; intros m0 H0 l; [apply H0|].
  simpl. apply IH. intros k. rewrite putFollowerPriority_eq.
  unfold followerPriority.
  repeat (destruct (String.eqb _ _);
    [destruct (decide (ConsensusMember.Name f = k)) as [->|];
       [rewrite lookup_insert_eq; by vm_compute|rewrite lookup_insert_ne by done; apply H0]|]).
  apply H0.
Qed.

Section PriorityOrder.

Variable DefaultLeader : ConsensusMember.t.

Lemma ComposeRolePriorityMap_eq component :
  ComposeRolePriorityMap DefaultLeader component
  = composePriorities (specOrDefault DefaultLeader component).
Proof. reflexivity. Qed.

(** C3. For a component whose role names differ from each other and from the
    empty label, the priority map gives the leader label 32, the label of a
    ReadWrite follower 16, of a Readonly follower 8, of a follower without
    access 4, the learner label 2, the empty label 1 and every label that the
    specification does not name 0; these priorities are strictly ordered,
    Leader > FollowerReadWrite > FollowerReadonly > FollowerNone > Learner >
    Empty > Unknown. The specification is the component's own, or the one made
    of the default leader when the component has none. *)
Theorem role_priority_total_order (component : ClusterComponentDefinition.t) :
  let spec := specOrDefault DefaultLeader component in
  let rolePriorityMap := ComposeRolePriorityMap DefaultLeader component in
  validRoles spec →
  priorityOf rolePriorityMap (ConsensusMember.Name (ConsensusSetSpec.Leader spec)) = 32
  ∧ (∀ f, f ∈ ConsensusSetSpec.Followers spec →
       (ConsensusMember.AccessMode f = appsv1alpha1.ReadWrite →
          priorityOf rolePriorityMap (ConsensusMember.Name f) = 16)
       ∧ (ConsensusMember.AccessMode f = appsv1alpha1.Readonly →
          priorityOf rolePriorityMap (ConsensusMember.Name f) = 8)
       ∧ (ConsensusMember.AccessMode f = appsv1alpha1.None →
          priorityOf rolePriorityMap (ConsensusMember.Name f) = 4))
  ∧ (∀ learner, ConsensusSetSpec.Learner spec = Some learner →
       priorityOf rolePriorityMap (ConsensusMember.Name learner) = 2)
  ∧ priorityOf rolePriorityMap "" = 1
  ∧ (∀ label, label ∉ "" :: roleLabels spec → priorityOf rolePriorityMap label = 0)
  ∧ leaderPriority = 32 ∧ followerReadWritePriority = 16
  ∧ followerReadonlyPriority = 8 ∧ followerNonePriority = 4
  ∧ learnerPriority = 2 ∧ emptyPriority = 1
  ∧ 0 < emptyPriority < learnerPriority
  ∧ learnerPriority < followerNonePriority < followerReadonlyPriority
  ∧ followerReadonlyPriority < followerReadWritePriority < leaderPriority.
Proof.
  intros spec rolePriorityMap Hvalid. subst rolePriorityMap.
  rewrite ComposeRolePriorityMap_eq. fold spec.
  unfold validRoles in Hvalid. apply NoDup_cons in Hvalid as [Hempty Hnd].
  split; [by rewrite composePriorities_leader|].
  split.
  { intros f Hf. repeat split; intros Hmode;
      apply (composePriorities_follower spec f _ Hnd Hf); by rewrite Hmode. }
  split; [intros learner Hl; by rewrite (composePriorities_learner spec learner)|].
  split; [by rewrite composePriorities_empty|].
  split; [intros label Hl; by apply composePriorities_absent|].
  by vm_compute.
Qed.

End PriorityOrder.

Lemma role_priority_total_order_sample :
  validRoles (specOrDefault Sample.defaultLeader Sample.component)
  ∧ priorityOf (ComposeRolePriorityMap Sample.defaultLeader Sample.component) "primary" = 32
  ∧ priorityOf (ComposeRolePriorityMap Sample.defaultLeader Sample.component) "" = 1.
Proof.
  assert (Hvalid : validRoles (specOrDefault Sample.defaultLeader Sample.component)).
  { unfold validRoles. refine (bool_decide_unpack _ _). by vm_compute. }
  split; [exact Hvalid|].
  pose proof (role_priority_total_order Sample.defaultLeader Sample.component Hvalid)
    as (Hleader & _ & _ & Hempty & _).
  split; [exact Hleader|exact Hempty].
Defined.

(** ** The role map *)

Lemma putConsensusMemberExt_skip roleMap name role accessMode :
  name = "" ∨ accessMode = "" →
  putConsensusMemberExt roleMap name role accessMode = roleMap.
Proof.
  unfold putConsensusMemberExt. intros [-> | ->]; simpl; [done|].
  by rewrite !orb_true_r.
Qed.

Lemma putConsensusMemberExt_lookup roleMap name role accessMode label :
  role ≠ "" →
  putConsensusMemberExt roleMap name role accessMode !! label =
    if bool_decide (name = label ∧ name ≠ "" ∧ accessMode ≠ "")
    then Some (consensusMemberExt.mk name role accessMode "")
    else roleMap !! label.
Proof.
  intros Hrole. unfold putConsensusMemberExt.
  destruct (String.eqb_spec name "") as [->|Hn]; simpl.
  { rewrite bool_decide_eq_false_2; [done|]. by intros (_ & ? & _). }
  destruct (String.eqb_spec role "") as [?|_]; [done|]; simpl.
  destruct (String.eqb_spec accessMode "") as [->|Ha].
  { rewrite bool_decide_eq_false_2; [done|]. by intros (_ & _ & ?). }
  destruct (decide (name = label)) as [->|Hne].
  - rewrite lookup_insert_eq. by rewrite bool_decide_eq_true_2.
  - rewrite lookup_insert_ne by done.
    rewrite bool_decide_eq_false_2; [done|]. by intros (? & _).
Qed.

Lemma fold_putFollower_lookup fs : ∀ (roleMap : gmap string consensusMemberExt.t) label ext,
  fold_left
    (fun roleMap follower =>
       putConsensusMemberExt roleMap (ConsensusMember.Name follower) roleFollower
         (ConsensusMember.AccessMode follower)) fs roleMap !! label = Some ext →
  (∃ f, f ∈ fs ∧ ConsensusMember.Name f = label ∧ wellFormed f
        ∧ ext = consensusMemberExt.mk label roleFollower (ConsensusMember.AccessMode f) "")
  ∨ roleMap !! label = Some ext.
Proof.
  induction fs as [|g fs IH]; intros roleMap label ext; simpl; [by right|].
  intros [(f & Hf & ?)|Hg]%IH.
  - left. exists f. split; [by right|done].
  - rewrite putConsensusMemberExt_lookup in Hg by done. case_bool_decide as Hc.
    + destruct Hc as (<- & ? & ?). left. exists g. split; [by left|].
      by inversion Hg.
    + by right.
Qed.

Lemma fold_putFollower_is_Some fs : ∀ (roleMap : gmap string consensusMemberExt.t) label,
  ((∃ f, f ∈ fs ∧ ConsensusMember.Name f = label ∧ wellFormed f) ∨ is_Some (roleMap !! label)) →
  is_Some (fold_left
    (fun roleMap follower =>
       putConsensusMemberExt roleMap (ConsensusMember.Name follower) roleFollower
         (ConsensusMember.AccessMode follower)) fs roleMap !! label).
Proof.
  induction fs as [|g fs IH]; intros roleMap label; simpl.
  { intros [(f & Hf & _)|?]; [by apply elem_of_nil in Hf|done]. }
  intros [(f & [->|Hf]%elem_of_cons & Hname & Hwf)|Hm]; apply IH.
  - right. rewrite putConsensusMemberExt_lookup by done.
    rewrite bool_decide_eq_true_2; [done|]. by destruct Hwf.
  - left. by exists f.
  - right. rewrite putConsensusMemberExt_lookup by done. by case_bool_decide.
Qed.

(** The entries of the role map: each comes from a well-formed member of the
    spec and carries the role of that member. *)
Lemma composeRoles_lookup spec label ext :
  composeRoles spec !! label = Some ext →
  consensusMemberExt.name ext = label ∧ consensusMemberExt.podName ext = ""
  ∧ label ≠ ""
  ∧ ((consensusMemberExt.consensusRole ext = roleLeader
      ∧ ConsensusMember.Name (ConsensusSetSpec.Leader spec) = label)
     ∨ (consensusMemberExt.consensusRole ext = roleFollower
        ∧ ∃ f, f ∈ ConsensusSetSpec.Followers spec ∧ ConsensusMember.Name f = label)
     ∨ (consensusMemberExt.consensusRole ext = roleLearner
        ∧ ∃ learner, ConsensusSetSpec.Learner spec = Some learner
                     ∧ ConsensusMember.Name learner = label)).
Proof.
  unfold composeRoles. intros H.
  assert (Hrest : ∀ ext,
    fold_left
      (fun roleMap follower =>
         putConsensusMemberExt roleMap (ConsensusMember.Name follower) roleFollower
           (ConsensusMember.AccessMode follower)) (ConsensusSetSpec.Followers spec)
      (putConsensusMemberExt ∅ (ConsensusMember.Name (ConsensusSetSpec.Leader spec))
         roleLeader (ConsensusMember.AccessMode (ConsensusSetSpec.Leader spec)))
      !! label = Some ext →
    consensusMemberExt.name ext = label ∧ consensusMemberExt.podName ext = ""
    ∧ label ≠ ""
    ∧ ((consensusMemberExt.consensusRole ext = roleLeader
        ∧ ConsensusMember.Name (ConsensusSetSpec.Leader spec) = label)
       ∨ (consensusMemberExt.consensusRole ext = roleFollower
          ∧ ∃ f, f ∈ ConsensusSetSpec.Followers spec ∧ ConsensusMember.Name f = label))).
  { intros e [(f & Hf & Hname & [Hn _] & ->)|Hl]%fold_putFollower_lookup.
    - simpl. repeat split; [congruence|]. right. split; [done|]. by exists f.
    - rewrite putConsensusMemberExt_lookup in Hl by done. case_bool_decide as Hc.
      + destruct Hc as (<- & ? & ?). inversion Hl; subst; simpl.
        repeat split; [done|]. by left.
      + by rewrite lookup_empty in Hl. }
  destruct (ConsensusSetSpec.Learner spec) as [learner|].
  - rewrite putConsensusMemberExt_lookup in H by done. case_bool_decide as Hc.
    + destruct Hc as (<- & ? & ?). inversion H; subst; simpl.
      repeat split; [done|]. right. right. split; [done|]. by exists learner.
    + destruct (Hrest _ H) as (? & ? & ? & [?|?]); repeat split; auto.
  - destruct (Hrest _ H) as (? & ? & ? & [?|?]); repeat split; auto.
Qed.

(** The keys of the role map: the labels that are not empty and that a member
    with an access mode carries. *)
Lemma composeRoles_is_Some spec label :
  is_Some (composeRoles spec !! label)
  ↔ ∃ e, e ∈ members spec ∧ ConsensusMember.Name e = label ∧ wellFormed e.
Proof.
  unfold composeRoles, members. split.
  - intros [ext H].
    destruct (ConsensusSetSpec.Learner spec) as [learner|]; simpl.
    + rewrite putConsensusMemberExt_lookup in H by done. case_bool_decide as Hc.
      { destruct Hc as (<- & ? & ?). exists learner. split; [set_solver|done]. }
      apply fold_putFollower_lookup in H as [(f & Hf & ? & ? & _)|Hl].
      { exists f. split; [set_solver|done]. }
      rewrite putConsensusMemberExt_lookup in Hl by done. case_bool_decide as Hc'.
      * destruct Hc' as (<- & ? & ?). eexists. split; [by left|done].
      * by rewrite lookup_empty in Hl.
    + apply fold_putFollower_lookup in H as [(f & Hf & ? & ? & _)|Hl].
      { exists f. split; [set_solver|done]. }
      rewrite putConsensusMemberExt_lookup in Hl by done. case_bool_decide as Hc'.
      * destruct Hc' as (<- & ? & ?). eexists. split; [by left|done].
      * by rewrite lookup_empty in Hl.
  - intros (e & He & Hname & Hwf).
    assert (Hfold : e = ConsensusSetSpec.Leader spec ∨ e ∈ ConsensusSetSpec.Followers spec →
      is_Some (fold_left
        (fun roleMap follower =>
           putConsensusMemberExt roleMap (ConsensusMember.Name follower) roleFollower
             (ConsensusMember.AccessMode follower)) (ConsensusSetSpec.Followers spec)
        (putConsensusMemberExt ∅ (ConsensusMember.Name (ConsensusSetSpec.Leader spec))
           roleLeader (ConsensusMember.AccessMode (ConsensusSetSpec.Leader spec)))
        !! label)).
    { intros [->|Hf]; apply fold_putFollower_is_Some.
      - right. rewrite putConsensusMemberExt_lookup by done.
        rewrite bool_decide_eq_true_2; [done|]. by destruct Hwf.
      - left. by exists e. }
    destruct (ConsensusSetSpec.Learner spec) as [learner|]; simpl in He.
    + rewrite putConsensusMemberExt_lookup by done. case_bool_decide; [done|].
      apply elem_of_cons in He as [->|[->|He]%elem_of_cons].
      * apply Hfold. by left.
      * exfalso. destruct Hwf. auto.
      * apply Hfold. by right.
    + apply elem_of_cons in He as [->|He]; apply Hfold; auto.
Qed.

Lemma followerPriority_None accessMode :
  followerPriority accessMode = Datatypes.None ↔ ¬ recognised accessMode.
Proof.
  unfold followerPriority, recognised.
  destruct (String.eqb_spec accessMode appsv1alpha1.None); [naive_solver|].
  destruct (String.eqb_spec accessMode appsv1alpha1.Readonly); [naive_solver|].
  destruct (String.eqb_spec accessMode appsv1alpha1.ReadWrite); naive_solver.
Qed.

(** The priority of a label after the loop over the followers. *)
Lemma fold_putFollowerPriority_last label fs : ∀ m : gmap string Z,
  fold_left putFollowerPriority fs m !! label
  = match lastMember (λ f, recognised (ConsensusMember.AccessMode f)) label fs with
    | Some f => followerPriority (ConsensusMember.AccessMode f)
    | Datatypes.None => m !! label
    end.
Proof.
  unfold lastMember. induction fs as [|f fs IH]; intros m; [done|]. simpl.
  rewrite IH, putFollowerPriority_eq.
  destruct (decide (ConsensusMember.Name f = label
                    ∧ recognised (ConsensusMember.AccessMode f))) as [[Hname Hmode]|Hno].
  - rewrite filter_cons_True by done. rewrite last_cons.
    destruct (last (filter _ fs)) as [g|]; [done|].
    destruct (followerPriority (ConsensusMember.AccessMode f)) as [p|] eqn:Hp.
    + by rewrite <- Hname, lookup_insert_eq.
    + by apply followerPriority_None in Hp.
  - rewrite filter_cons_False by done.
    destruct (last (filter _ fs)) as [g|]; [done|].
    destruct (followerPriority (ConsensusMember.AccessMode f)) as [p|] eqn:Hp; [|done].
    apply lookup_insert_ne. intros Hname. apply Hno. split; [done|].
    apply dec_stable. intros Hmode. apply followerPriority_None in Hmode. congruence.
Qed.

Section Malformed.

Variable DefaultLeader : ConsensusMember.t.
Variable ComponentStatusDefaultPodName : string.

(** C10, amended. For a component with a consensus spec: the insert helper
    returns the role map as it is when the name or the access mode is empty,
    so the keys of the role map are the labels of the members that have a
    name and an access mode; a follower whose access mode is none of None,
    Readonly and ReadWrite adds nothing to the priority map. A pod whose label
    is not a key of the role map is skipped by the status update, and a label
    that is neither the empty label, the leader's or the learner's name nor
    the name of a follower with a recognised access mode has priority 0. The
    two maps are filled independently, and the priority map does not look at
    the access mode of the leader or the learner: whatever that access mode
    is, the learner's name has priority 2 unless a follower with a recognised
    access mode carries the same name, and the leader's name has priority 32
    unless the learner or such a follower carries the same name; an entry
    written later replaces the one of the same name. *)
Theorem malformed_entries (component : ClusterComponentDefinition.t)
    (spec : ConsensusSetSpec.t) :
  ClusterComponentDefinition.ConsensusSpec component = Some spec →
  let rolePriorityMap := ComposeRolePriorityMap DefaultLeader component in
  (∀ roleMap name role accessMode,
     name = "" ∨ accessMode = "" →
     putConsensusMemberExt roleMap name role accessMode = roleMap)
  ∧ (∃ roleMap, composeConsensusRoleMap component = Some roleMap
       ∧ (∀ label, is_Some (roleMap !! label)
                   ↔ ∃ e, e ∈ members spec ∧ ConsensusMember.Name e = label ∧ wellFormed e)
       ∧ (∀ status label podName, roleMap !! label = Datatypes.None →
            setConsensusSetStatusRole ComponentStatusDefaultPodName status component
              label podName = Some (status, false)))
  ∧ (∀ m f, ¬ recognised (ConsensusMember.AccessMode f) → putFollowerPriority m f = m)
  ∧ (∀ label,
       label ≠ "" →
       label ≠ ConsensusMember.Name (ConsensusSetSpec.Leader spec) →
       (∀ learner, ConsensusSetSpec.Learner spec = Some learner →
                   label ≠ ConsensusMember.Name learner) →
       (∀ f, f ∈ ConsensusSetSpec.Followers spec → ConsensusMember.Name f = label →
             ¬ recognised (ConsensusMember.AccessMode f)) →
       rolePriorityMap !! label = Datatypes.None ∧ priorityOf rolePriorityMap label = 0)
  ∧ ((∀ learner, ConsensusSetSpec.Learner spec = Some learner →
                  ConsensusMember.Name learner
                  ≠ ConsensusMember.Name (ConsensusSetSpec.Leader spec)) →
     (∀ f, f ∈ ConsensusSetSpec.Followers spec →
           ConsensusMember.Name f = ConsensusMember.Name (ConsensusSetSpec.Leader spec) →
           ¬ recognised (ConsensusMember.AccessMode f)) →
     priorityOf rolePriorityMap (ConsensusMember.Name (ConsensusSetSpec.Leader spec)) = 32)
  ∧ (∀ learner,
       ConsensusSetSpec.Learner spec = Some learner →
       (∀ f, f ∈ ConsensusSetSpec.Followers spec →
             ConsensusMember.Name f = ConsensusMember.Name learner →
             ¬ recognised (ConsensusMember.AccessMode f)) →
       priorityOf rolePriorityMap (ConsensusMember.Name learner) = 2)
  ∧ (∀ f,
       f ∈ ConsensusSetSpec.Followers spec →
       recognised (ConsensusMember.AccessMode f) →
       4 ≤ priorityOf rolePriorityMap (ConsensusMember.Name f) ≤ 16).
Proof.
  intros Hspec rolePriorityMap. subst rolePriorityMap.
  rewrite ComposeRolePriorityMap_eq. unfold specOrDefault. rewrite Hspec.
  split; [apply putConsensusMemberExt_skip|].
  split.
  { exists (composeRoles spec). unfold composeConsensusRoleMap. rewrite Hspec.
    split; [done|]. split; [apply composeRoles_is_Some|].
    intros status label podName Hnone. unfold setConsensusSetStatusRole.
    unfold composeConsensusRoleMap. rewrite Hspec. simpl. by rewrite Hnone. }
  split.
  { intros m f Hf. rewrite putFollowerPriority_eq.
    apply followerPriority_None in Hf. by rewrite Hf. }
  split.
  { intros label Hempty Hleader Hlearner Hfollowers.
    assert (Hnone : composePriorities spec !! label = Datatypes.None).
    { unfold composePriorities. rewrite fold_putFollowerPriority_other.
      - destruct (ConsensusSetSpec.Learner spec) as [learner|].
        + rewrite lookup_insert_ne by (intros Heq; by apply (Hlearner learner)).
          rewrite lookup_insert_ne by done. rewrite lookup_insert_ne by done.
          apply lookup_empty.
        + rewrite lookup_insert_ne by done. rewrite lookup_insert_ne by done.
          apply lookup_empty.
      - intros f Hf Hname. apply followerPriority_None. by apply Hfollowers. }
    split; [done|]. unfold priorityOf. by rewrite Hnone. }
  split.
  { intros Hlearner Hfollowers. unfold priorityOf, composePriorities.
    rewrite fold_putFollowerPriority_other
      by (intros f Hf Hname; apply followerPriority_None; by apply Hfollowers).
    destruct (ConsensusSetSpec.Learner spec) as [learner|].
    - rewrite lookup_insert_ne by (by apply Hlearner). by rewrite lookup_insert_eq.
    - by rewrite lookup_insert_eq. }
  split.
  { intros learner Hlearner Hfollowers. unfold priorityOf, composePriorities.
    rewrite fold_putFollowerPriority_other
      by (intros f Hf Hname; apply followerPriority_None; by apply Hfollowers).
    rewrite Hlearner. by rewrite lookup_insert_eq. }
  intros f Hf Hmode. unfold priorityOf, composePriorities.
  rewrite fold_putFollowerPriority_last.
  assert (Hin : f ∈ filter (λ g, ConsensusMember.Name g = ConsensusMember.Name f
                                 ∧ recognised (ConsensusMember.AccessMode g))
                       (ConsensusSetSpec.Followers spec))
    by (by apply list_elem_of_filter).
  unfold lastMember.
  destruct (last (filter _ (ConsensusSetSpec.Followers spec))) as [g|] eqn:Hlast.
  - apply last_Some in Hlast as [l' Hl'].
    assert (Hg : g ∈ filter (λ g, ConsensusMember.Name g = ConsensusMember.Name f
                                  ∧ recognised (ConsensusMember.AccessMode g))
                        (ConsensusSetSpec.Followers spec))
      by (rewrite Hl'; set_solver).
    apply list_elem_of_filter in Hg as [[_ Hg] _].
    unfold followerPriority.
    destruct Hg as [->|[->| ->]]; vm_compute; split; congruence.
  - apply last_None in Hlast. rewrite Hlast in Hin. by apply elem_of_nil in Hin.
Qed.

End Malformed.

Lemma malformed_entries_sample :
  ClusterComponentDefinition.ConsensusSpec Sample.emptyAccessLeader
    = Some (ConsensusSetSpec.mk (ConsensusMember.mk "primary" "") [] Datatypes.None
              appsv1alpha1.SerialStrategy)
  ∧ setConsensusSetStatusRole Sample.defaultPodName
      (initialConsensusSetStatus Sample.defaultPodName) Sample.emptyAccessLeader
      "primary" "pod-0"
    = Some (initialConsensusSetStatus Sample.defaultPodName, false).
Proof.
  split; [reflexivity|].
  pose proof (malformed_entries Sample.defaultLeader Sample.defaultPodName
                Sample.emptyAccessLeader _ eq_refl) as (_ & (roleMap & Hmap & _ & Hskip) & _).
  apply Hskip. inversion Hmap. by vm_compute.
Defined.

(** C10 as stated fails: the name of a leader whose access mode is empty is
    left out of the role map, so a pod with that label is skipped by the status
    update, and yet the label has the leader's priority 32 and not 0. *)
Lemma empty_access_leader_not_unknown :
  composeConsensusRoleMap Sample.emptyAccessLeader = Some ∅
  ∧ setConsensusSetStatusRole Sample.defaultPodName
      (initialConsensusSetStatus Sample.defaultPodName) Sample.emptyAccessLeader
      "primary" "mysql-0"
    = Some (initialConsensusSetStatus Sample.defaultPodName, false)
  ∧ priorityOf (ComposeRolePriorityMap Sample.defaultLeader Sample.emptyAccessLeader)
      "primary" = 32
  ∧ priorityOf (ComposeRolePriorityMap Sample.defaultLeader Sample.emptyAccessLeader)
      "primary" ≠ 0.
Proof. by vm_compute. Qed.

(** ** A component without a consensus spec *)

(** C8 at the failing input. For a component without a consensus spec the
    priority map gives the default leader's name the leader priority, whereas
    the role map panics, and with it the status update of a pod, the status
    update of a pass as soon as a pod is ready, and the config propagation as
    soon as there is a pod. *)
Theorem nil_consensus_spec_panics (DefaultLeader : ConsensusMember.t)
    (ComponentStatusDefaultPodName : string) (ToUpper : string → string)
    (workloadType : WorkloadType) :
  let component := ClusterComponentDefinition.mk workloadType Datatypes.None in
  priorityOf (ComposeRolePriorityMap DefaultLeader component)
    (ConsensusMember.Name DefaultLeader) = leaderPriority
  ∧ composeConsensusRoleMap component = Datatypes.None
  ∧ (∀ status role podName,
       setConsensusSetStatusRole ComponentStatusDefaultPodName status component role podName
       = Datatypes.None)
  ∧ (∀ status pod pods,
       Pod.Ready pod = true →
       setConsensusSetStatusRoles ComponentStatusDefaultPodName status component (pod :: pods)
       = Datatypes.None)
  ∧ (∀ cli componentName pod pods,
       updateConsensusRoleInfo ToUpper cli component componentName (pod :: pods)
       = Datatypes.None).
Proof.
  intros component. split.
  { unfold priorityOf, ComposeRolePriorityMap, composePriorities. simpl.
    by rewrite lookup_insert_eq. }
  split; [done|]. split; [done|]. split; [|done].
  intros status pod pods Hready. simpl. by rewrite Hready.
Qed.

(** ** The walk function *)

(** C7, amended. The walk function sends at most one request, the delete of
    the pod it is given, and sends it exactly when the pod is not terminating
    and its revision differs from the update revision; a terminating pod and a
    pod at the update revision, ready or not, are never deleted. After the
    delete the pod counts as not settled when the delete succeeded or the pod
    was not found; any other error of the delete is returned as the error of
    the walk function. *)
Theorem walk_deletes_stale_only (cli : Client.t) (stsObj : StatefulSet.t) (pod : Pod.t) :
  let stale :=
    Pod.Terminating pod = false ∧ Pod.Revision pod ≠ StatefulSet.UpdateRevision stsObj in
  let result := fst (WalkFunc cli stsObj (Some pod)) in
  let sent := snd (WalkFunc cli stsObj (Some pod)) in
  (DeletePod pod ∈ sent ↔ stale)
  ∧ (sent = [DeletePod pod] ∨ sent = [])
  ∧ (Pod.Terminating pod = true → result = (true, Datatypes.None))
  ∧ (Pod.Terminating pod = false →
     Pod.Revision pod = StatefulSet.UpdateRevision stsObj →
     result = (negb (Pod.Ready pod), Datatypes.None))
  ∧ (stale →
     match Client.Delete cli pod with
     | Datatypes.None | Some NotFound => result = (true, Datatypes.None)
     | Some (Failed msg) => result = (false, Some (Failed msg))
     end).
Proof.
  intros stale result sent. subst stale result sent. unfold WalkFunc.
  destruct (Pod.Terminating pod) eqn:Hterm; simpl.
  { split; [split; [by intros ?%elem_of_nil|by intros [? _]]|].
    split; [by right|]. split; [done|]. split; [done|]. by intros [? _]. }
  destruct (String.eqb_spec (Pod.Revision pod) (StatefulSet.UpdateRevision stsObj)) as [Heq|Hne];
    simpl.
  { split; [split; [by intros ?%elem_of_nil|by intros [_ ?]]|].
    split; [by right|]. split; [done|]. split; [done|]. by intros [_ ?]. }
  assert (Hin : DeletePod pod ∈ [DeletePod pod]) by (by left).
  destruct (Client.Delete cli pod) as [[|msg]|]; simpl;
    (split; [done|]); (split; [by left|]); (split; [done|]); (split; [done|]); done.
Qed.

(** C7 as stated fails: the delete of a stale pod that is not terminating
    fails with an error that is not "not found"; the delete was sent, and the
    walk function returns the error, not the answer "not settled". *)
Lemma walk_delete_error_is_returned :
  let cli := Sample.client (Some Sample.component) [] [] Datatypes.None Datatypes.None
               (Some (Failed "timeout")) in
  let pod := Sample.pod "mysql-0" 0 "secondary" "rev-1" in
  WalkFunc cli (Sample.sts 1 1 3) (Some pod)
    = ((false, Some (Failed "timeout")), [DeletePod pod])
  ∧ fst (WalkFunc cli (Sample.sts 1 1 3) (Some pod)) ≠ (true, Datatypes.None).
Proof. by vm_compute. Qed.

(** ** Stable sorting *)

Section SliceStableFacts.

Context {A : Type} (less : A → A → bool).

Lemma insertStable_Permutation x l : insertStable less x l ≡ₚ x :: l.
Proof.
  induction l as [|y l IH]; simpl; [done|].
  destruct (less y x); [|done]. rewrite IH. apply Permutation_swap.
Qed.

Lemma SliceStable_Permutation l : SliceStable less l ≡ₚ l.
Proof.
  induction l as [|x l IH]; simpl; [done|].
  rewrite insertStable_Permutation. by rewrite IH.
Qed.

(** The comparison is a strict weak order. *)
Hypothesis less_asym : ∀ a b, less a b = true → less b a = false.
Hypothesis less_negtrans : ∀ a b c, less a b = false → less b c = false → less a c = false.

Lemma insertStable_sorted x l :
  StronglySorted (notAfter less) l → StronglySorted (notAfter less) (insertStable less x l).
Proof.
  induction l as [|y l IH]; simpl; intros Hs.
  { repeat constructor. }
  apply StronglySorted_inv in Hs as [Hl Hy].
  destruct (less y x) eqn:Hyx.
  - constructor; [by apply IH|].
    rewrite insertStable_Permutation. constructor; [|done].
    by apply less_asym.
  - constructor; [by constructor|]. constructor; [done|].
    eapply Forall_impl; [exact Hy|]. intros z Hz. unfold notAfter in *.
    by apply (less_negtrans z y x).
Qed.

Lemma SliceStable_sorted l : StronglySorted (notAfter less) (SliceStable less l).
Proof.
  induction l as [|x l IH]; simpl; [constructor|]. by apply insertStable_sorted.
Qed.

(** A sorted list is left as it is. *)
Lemma SliceStable_of_sorted l : StronglySorted (notAfter less) l → SliceStable less l = l.
Proof.
  induction l as [|x l IH]; simpl; [done|]. intros [Hl Hx]%StronglySorted_inv.
  rewrite IH by done. destruct l as [|y l]; [done|]. simpl.
  apply Forall_cons in Hx as [Hxy _]. unfold notAfter in Hxy. by rewrite Hxy.
Qed.

End SliceStableFacts.

(** ** The order of the strings *)

Lemma ascii_compare_refl c : Ascii.compare c c = Eq.
Proof. unfold Ascii.compare. apply N.compare_refl. Qed.

Lemma ascii_compare_lt_trans a b c :
  Ascii.compare a b = Lt → Ascii.compare b c = Lt → Ascii.compare a c = Lt.
Proof. unfold Ascii.compare. rewrite !N.compare_lt_iff. lia. Qed.

Lemma string_compare_refl s : String.compare s s = Eq.
Proof. induction s as [|c s IH]; simpl; [done|]. by rewrite ascii_compare_refl. Qed.

Lemma string_compare_lt_trans a : ∀ b c,
  String.compare a b = Lt → String.compare b c = Lt → String.compare a c = Lt.
Proof.
  induction a as [|x a IH]; intros [|y b] [|z c]; simpl; try done.
  destruct (Ascii.compare x y) eqn:Hxy; try done;
    destruct (Ascii.compare y z) eqn:Hyz; try done; intros Hab Hbc.
  - apply Ascii.compare_eq_iff in Hxy as ->. apply Ascii.compare_eq_iff in Hyz as ->.
    rewrite ascii_compare_refl. by apply (IH b c).
  - apply Ascii.compare_eq_iff in Hxy as ->. by rewrite Hyz.
  - apply Ascii.compare_eq_iff in Hyz as <-. by rewrite Hxy.
  - by rewrite (ascii_compare_lt_trans x y z).
Qed.

Lemma stringLess_irrefl a : stringLess a a = false.
Proof. unfold stringLess. by rewrite string_compare_refl. Qed.

Lemma stringLess_asym a b : stringLess a b = true → stringLess b a = false.
Proof.
  unfold stringLess. rewrite (String.compare_antisym b a).
  by destruct (String.compare a b).
Qed.

Lemma stringLess_negtrans a b c :
  stringLess a b = false → stringLess b c = false → stringLess a c = false.
Proof.
  unfold stringLess. intros Hab Hbc.
  destruct (String.compare a c) eqn:Hac; try done. exfalso.
  destruct (String.compare b c) eqn:Hbc'; try done.
  - apply String.compare_eq_iff in Hbc' as ->. by rewrite Hac in Hab.
  - assert (String.compare c b = Lt) as Hcb
      by (rewrite String.compare_antisym, Hbc'; done).
    by rewrite (string_compare_lt_trans a c b Hac Hcb) in Hab.
Qed.

(** Two names of which neither is below the other are the same name. *)
Lemma stringLess_total a b : stringLess a b = false → stringLess b a = false → a = b.
Proof.
  unfold stringLess. rewrite (String.compare_antisym b a).
  destruct (String.compare a b) eqn:Hab; try done. intros _ _.
  by apply String.compare_eq_iff.
Qed.

Lemma followerLess_asym a b : followerLess a b = true → followerLess b a = false.
Proof. apply stringLess_asym. Qed.

Lemma followerLess_negtrans a b c :
  followerLess a b = false → followerLess b c = false → followerLess a c = false.
Proof. apply stringLess_negtrans. Qed.

Lemma podLess_asym m a b : podLess m a b = true → podLess m b a = false.
Proof.
  unfold podLess.
  destruct (Z.eqb_spec (priorityOf m (Pod.RoleLabel a)) (priorityOf m (Pod.RoleLabel b)));
    destruct (Z.eqb_spec (priorityOf m (Pod.RoleLabel b)) (priorityOf m (Pod.RoleLabel a)));
    lia.
Qed.

Lemma podLess_negtrans m a b c :
  podLess m a b = false → podLess m b c = false → podLess m a c = false.
Proof.
  unfold podLess.
  destruct (Z.eqb_spec (priorityOf m (Pod.RoleLabel a)) (priorityOf m (Pod.RoleLabel b)));
    destruct (Z.eqb_spec (priorityOf m (Pod.RoleLabel b)) (priorityOf m (Pod.RoleLabel c)));
    destruct (Z.eqb_spec (priorityOf m (Pod.RoleLabel a)) (priorityOf m (Pod.RoleLabel c)));
    lia.
Qed.

(** ** The removal of a pod from the followers *)

Lemma filter_all {A : Type} (P : A → Prop) `{∀ x, Decision (P x)} (l : list A) :
  Forall P l → filter P l = l.
Proof.
  induction 1 as [|x l Hx Hl IH]; [done|]. by rewrite filter_cons_True, IH.
Qed.

Lemma filter_none {A : Type} (P : A → Prop) `{∀ x, Decision (P x)} (l : list A) :
  Forall (λ x, ¬ P x) l → filter P l = [].
Proof.
  induction 1 as [|x l Hx Hl IH]; [done|]. by rewrite filter_cons_False.
Qed.

Section ResetFollowers.

Variable podName : string.

Abbreviation other := (λ member : ConsensusMemberStatus.t, ConsensusMemberStatus.Pod member ≠ podName).

(** No follower from [index] on is the pod: the loop changes nothing. *)
Lemma resetFollowersLoop_no_match n : ∀ index backing len,
  (∀ j member, index ≤ j → backing !! j = Some member → other member)%nat →
  (index + n ≤ length backing)%nat →
  resetFollowersLoop podName n index backing len = Some (backing, len).
Proof.
  induction n as [|n IH]; intros index backing len Hother Hlen; simpl; [done|].
  destruct (lookup_lt_is_Some_2 backing index) as [member Hm]; [lia|].
  rewrite Hm. simpl.
  destruct (String.eqb_spec (ConsensusMemberStatus.Pod member) podName) as [Heq|_].
  { by destruct (Hother index member). }
  apply IH; [|lia]. intros j m Hj. apply Hother. lia.
Qed.

(** One follower is the pod: the loop takes it out; the last place of the
    array keeps its old content beyond the new length. *)
Lemma resetFollowersLoop_one_match l1 x l2 n : ∀ index,
  Forall other l1 → ConsensusMemberStatus.Pod x = podName → Forall other l2 →
  (index ≤ length l1)%nat → (index + n = length (l1 ++ x :: l2))%nat →
  ∃ backing,
    resetFollowersLoop podName n index (l1 ++ x :: l2) (length (l1 ++ x :: l2))
    = Some (backing, (length l1 + length l2)%nat)
    ∧ take (length l1 + length l2) backing = l1 ++ l2.
Proof.
  induction n as [|n IH]; intros index H1 Hx H2 Hindex Hn.
  { rewrite length_app in Hn. simpl in Hn. lia. }
  assert (Hlen : length (l1 ++ x :: l2) = (length l1 + S (length l2))%nat)
    by (by rewrite length_app).
  simpl. destruct (decide (index = length l1)) as [->|Hne].
  - rewrite list_lookup_middle by done. simpl.
    rewrite <- String.eqb_eq in Hx. rewrite Hx.
    destruct (Nat.leb_spec (length l1 + 1) (length (l1 ++ x :: l2))) as [_|?]; [|lia].
    rewrite take_app_length, (take_ge (l1 ++ x :: l2)) by lia.
    assert (Hdrop : drop (length l1 + 1) (l1 ++ x :: l2) = l2).
    { rewrite (cons_middle x l1 l2), (assoc_L (++) l1 [x] l2).
      apply drop_app_length'. rewrite length_app. simpl. lia. }
    rewrite Hdrop.
    replace (length (l1 ++ x :: l2) - 1)%nat with (length l1 + length l2)%nat by lia.
    eexists. split.
    + apply resetFollowersLoop_no_match.
      * intros j member Hj Hlook.
        assert (Hin : member ∈ l2).
        { rewrite lookup_app_r in Hlook by lia.
          destruct (decide (j - length l1 < length l2)%nat) as [Hlt|Hge].
          - rewrite lookup_app_l in Hlook by done. by eapply list_elem_of_lookup_2.
          - rewrite lookup_app_r in Hlook by lia.
            rewrite lookup_drop in Hlook.
            rewrite lookup_app_r in Hlook by lia.
            replace (length l1 + length l2 + (j - length l1 - length l2) - length l1)%nat
              with (S (j - length l1 - 1)) in Hlook by lia.
            simpl in Hlook. by eapply list_elem_of_lookup_2. }
        by eapply (proj1 (Forall_forall _ _) H2).
      * rewrite !length_app, length_drop, Hlen. lia.
    + rewrite (assoc_L (++) l1 l2).
      apply take_app_length'. by rewrite length_app.
  - assert (Hlt : (index < length l1)%nat) by lia.
    destruct (lookup_lt_is_Some_2 l1 index Hlt) as [member Hm].
    rewrite lookup_app_l by done. rewrite Hm. simpl.
    destruct (String.eqb_spec (ConsensusMemberStatus.Pod member) podName) as [Heq|_].
    { exfalso. eapply (proj1 (Forall_forall _ _) H1); [|exact Heq].
      by eapply list_elem_of_lookup_2. }
    apply IH; try done; lia.
Qed.

(** With followers of distinct pod names the loop does not panic and removes
    the pod. *)
Lemma resetFollowers_NoDup followers :
  NoDup (ConsensusMemberStatus.Pod <$> followers) →
  resetFollowers podName followers = Some (filter other followers).
Proof.
  intros Hnd. unfold resetFollowers.
  destruct (decide (podName ∈ ConsensusMemberStatus.Pod <$> followers)) as [Hin|Hnin].
  - apply list_elem_of_fmap in Hin as (x & Hx & Hin).
    apply list_elem_of_split in Hin as (l1 & l2 & ->).
    rewrite fmap_app, fmap_cons in Hnd. apply NoDup_app in Hnd as (_ & Hd & Hnd).
    apply NoDup_cons in Hnd as [Hx2 _].
    assert (H1 : Forall other l1).
    { apply Forall_forall. intros m Hm Heq. apply (Hd podName).
      - rewrite <- Heq. by apply list_elem_of_fmap_2.
      - rewrite Hx. by left. }
    assert (H2 : Forall other l2).
    { apply Forall_forall. intros m Hm Heq. apply Hx2. rewrite <- Hx, <- Heq.
      by apply list_elem_of_fmap_2. }
    destruct (resetFollowersLoop_one_match l1 x l2 (length (l1 ++ x :: l2)) 0)
      as (backing & -> & Htake); try done; [lia|].
    simpl. rewrite Htake. rewrite filter_app, filter_cons_False by (by intros ?).
    by rewrite !filter_all.
  - rewrite resetFollowersLoop_no_match; [|..|simpl; lia].
    + simpl. rewrite take_ge by lia. rewrite filter_all; [done|].
      apply Forall_forall. intros m Hm Heq. apply Hnin. rewrite <- Heq.
      by apply list_elem_of_fmap_2.
    + intros j m _ Hlook Heq. apply Hnin. rewrite <- Heq.
      apply list_elem_of_fmap_2. by eapply list_elem_of_lookup_2.
Qed.

End ResetFollowers.

(** ** The slots of the status *)

Lemma fmap_filter_pod podName (l : list ConsensusMemberStatus.t) :
  ConsensusMemberStatus.Pod <$> filter (λ m, ConsensusMemberStatus.Pod m ≠ podName) l
  = filter (λ x, x ≠ podName) (ConsensusMemberStatus.Pod <$> l).
Proof.
  induction l as [|m l IH]; [done|]. rewrite fmap_cons, !filter_cons.
  destruct (decide (ConsensusMemberStatus.Pod m ≠ podName)); [|done].
  by rewrite fmap_cons, IH.
Qed.

Lemma StronglySorted_filter {A : Type} (R : relation A) (P : A → Prop)
    `{∀ x, Decision (P x)} (l : list A) :
  StronglySorted R l → StronglySorted R (filter P l).
Proof.
  induction 1 as [|x l Hl IH Hx]; [constructor|]. rewrite filter_cons.
  destruct (decide (P x)); [|done]. constructor; [done|].
  apply Forall_forall. intros y [_ Hy]%list_elem_of_filter.
  by eapply (proj1 (Forall_forall _ _) Hx).
Qed.

Lemma existsb_pod_false podName (l : list ConsensusMemberStatus.t) :
  podName ∉ ConsensusMemberStatus.Pod <$> l →
  existsb (λ member, String.eqb (ConsensusMemberStatus.Pod member) podName) l = false.
Proof.
  induction l as [|m l IH]; [done|]. rewrite fmap_cons, not_elem_of_cons.
  intros [Hne Hl]. simpl. rewrite IH by done.
  destruct (String.eqb_spec (ConsensusMemberStatus.Pod m) podName); [congruence|done].
Qed.

(** The removal loop on a slice that may be [nil]. *)
Lemma resetFollowers_slice podName (followers : option (list ConsensusMemberStatus.t)) :
  NoDup (ConsensusMemberStatus.Pod <$> elements followers) →
  match followers with
  | Some followers => Some <$> resetFollowers podName followers
  | Datatypes.None => Some Datatypes.None
  end
  = Some (filter (λ member, ConsensusMemberStatus.Pod member ≠ podName) <$> followers).
Proof.
  destruct followers as [followers|]; simpl; [|done].
  intros Hnd. by rewrite resetFollowers_NoDup by done.
Qed.

Lemma elements_filter {A : Type} (P : A → Prop) `{∀ x, Decision (P x)}
    (s : option (list A)) :
  elements (filter P <$> s) = filter P (elements s).
Proof. by destruct s. Qed.

Section Slots.

Variable defaultPodName : string.

Lemma slotsConsistent_iff s :
  slotsConsistent defaultPodName s
  ↔ NoDup (followerPods s)
    ∧ StronglySorted (notAfter stringLess) (followerPods s)
    ∧ (∀ x, x ∈ leaderPods defaultPodName s →
            (x ∉ followerPods s) ∧ (x ∉ learnerPods s))
    ∧ (∀ x, x ∈ followerPods s → x ∉ learnerPods s).
Proof.
  unfold slotsConsistent. rewrite !NoDup_app.
  assert (NoDup (leaderPods defaultPodName s)).
  { unfold leaderPods. case_decide; [constructor|apply NoDup_singleton]. }
  assert (NoDup (learnerPods s)).
  { unfold learnerPods. destruct (ConsensusSetStatus.Learner s);
      [apply NoDup_singleton|constructor]. }
  setoid_rewrite not_elem_of_app. naive_solver.
Qed.

Lemma initialConsensusSetStatus_consistent :
  slotsConsistent defaultPodName (initialConsensusSetStatus defaultPodName).
Proof.
  apply slotsConsistent_iff. unfold leaderPods, followerPods, learnerPods. simpl.
  rewrite decide_True by done.
  split; [constructor|]. split; [constructor|].
  split; intros x Hx; by apply elem_of_nil in Hx.
Qed.

(** The reset takes the pod out of every slot. *)
Lemma resetConsensusSetStatusRole_spec s podName :
  slotsConsistent defaultPodName s →
  ∃ s1, resetConsensusSetStatusRole defaultPodName s podName = Some s1
    ∧ slotsConsistent defaultPodName s1
    ∧ (podName ∉ leaderPods defaultPodName s1)
    ∧ (podName ∉ followerPods s1)
    ∧ (podName ∉ learnerPods s1)
    ∧ (∀ x, x ≠ podName →
         (x ∈ leaderPods defaultPodName s1 ↔ x ∈ leaderPods defaultPodName s)
         ∧ (x ∈ followerPods s1 ↔ x ∈ followerPods s)
         ∧ (x ∈ learnerPods s1 ↔ x ∈ learnerPods s)).
Proof.
  intros Hs. pose proof Hs as (Hnd & Hsorted & Hleader & Hfl)%slotsConsistent_iff.
  unfold resetConsensusSetStatusRole.
  rewrite resetFollowers_slice by exact Hnd. simpl. eexists. split; [done|].
  set (s1 := ConsensusSetStatus.mk _ _ _).
  assert (Hf1 : followerPods s1 = filter (λ x, x ≠ podName) (followerPods s)).
  { unfold followerPods, s1. simpl. rewrite elements_filter. apply fmap_filter_pod. }
  assert (Hfin : ∀ x, x ∈ followerPods s1 ↔ x ∈ followerPods s ∧ x ≠ podName).
  { intros x. rewrite Hf1, list_elem_of_filter. naive_solver. }
  assert (Hlin : ∀ x, x ∈ learnerPods s1 ↔ x ∈ learnerPods s ∧ x ≠ podName).
  { intros x. unfold learnerPods, s1. simpl.
    destruct (ConsensusSetStatus.Learner s) as [learner|]; simpl.
    - destruct (String.eqb_spec (ConsensusMemberStatus.Pod learner) podName) as [Heq|Hne];
        simpl; rewrite ?list_elem_of_singleton; [|naive_solver].
      split; [by intros ?%elem_of_nil|]. intros [-> ?]. by destruct H.
    - split; [by intros ?%elem_of_nil|]. by intros [?%elem_of_nil _]. }
  assert (Hpin : ∀ x, x ∈ leaderPods defaultPodName s1
                      ↔ x ∈ leaderPods defaultPodName s ∧ x ≠ podName).
  { intros x. unfold leaderPods, s1. simpl.
    destruct (String.eqb_spec
                (ConsensusMemberStatus.Pod (ConsensusSetStatus.Leader s)) podName)
      as [Heq|Hne]; simpl.
    - rewrite decide_True by done. case_decide; [set_solver|].
      rewrite list_elem_of_singleton. split; [by intros ?%elem_of_nil|].
      intros [-> ?]. by destruct H0.
    - case_decide; [set_solver|]. rewrite list_elem_of_singleton. naive_solver. }
  split.
  { apply slotsConsistent_iff. split; [rewrite Hf1; by apply NoDup_filter|].
    split; [rewrite Hf1; by apply StronglySorted_filter|].
    split.
    - intros x [Hx ?]%Hpin. destruct (Hleader x Hx). rewrite Hfin, Hlin. naive_solver.
    - intros x [Hx ?]%Hfin. rewrite Hlin. specialize (Hfl x Hx). naive_solver. }
  split; [rewrite Hpin; naive_solver|].
  split; [rewrite Hfin; naive_solver|].
  split; [rewrite Hlin; naive_solver|].
  intros x Hx. rewrite Hpin, Hfin, Hlin. naive_solver.
Qed.

(** The three updates on a status from which the pod is absent. *)
Lemma setConsensusSetStatusLeader_spec s1 name role accessMode podName :
  slotsConsistent defaultPodName s1 →
  podName ∉ followerPods s1 → podName ∉ learnerPods s1 →
  let s2 := fst (setConsensusSetStatusLeader s1
                   (consensusMemberExt.mk name role accessMode podName)) in
  slotsConsistent defaultPodName s2
  ∧ ConsensusMemberStatus.Pod (ConsensusSetStatus.Leader s2) = podName
  ∧ followerPods s2 = followerPods s1 ∧ learnerPods s2 = learnerPods s1.
Proof.
  intros Hs Hf Hl. unfold setConsensusSetStatusLeader. simpl.
  destruct (String.eqb_spec
              (ConsensusMemberStatus.Pod (ConsensusSetStatus.Leader s1)) podName)
    as [Heq|Hne]; simpl; [done|].
  split; [|done].
  apply slotsConsistent_iff in Hs as (Hnd & Hsorted & Hleader & Hfl).
  apply slotsConsistent_iff. unfold followerPods, learnerPods, leaderPods in *. simpl.
  repeat split; try done; case_decide; set_solver.
Qed.

Lemma setConsensusSetStatusFollower_spec s1 name role accessMode podName :
  slotsConsistent defaultPodName s1 →
  podName ∉ leaderPods defaultPodName s1 →
  podName ∉ followerPods s1 → podName ∉ learnerPods s1 →
  let s2 := fst (setConsensusSetStatusFollower s1
                   (consensusMemberExt.mk name role accessMode podName)) in
  slotsConsistent defaultPodName s2
  ∧ followerPods s2 ≡ₚ followerPods s1 ++ [podName]
  ∧ ConsensusSetStatus.Leader s2 = ConsensusSetStatus.Leader s1
  ∧ learnerPods s2 = learnerPods s1.
Proof.
  intros Hs Hp Hf Hl. unfold setConsensusSetStatusFollower. simpl.
  rewrite existsb_pod_false by exact Hf. simpl.
  set (member := ConsensusMemberStatus.mk name podName accessMode).
  set (s2 := ConsensusSetStatus.mk _ _ _).
  assert (Hperm : followerPods s2 ≡ₚ followerPods s1 ++ [podName]).
  { unfold followerPods, s2. simpl. rewrite SliceStable_Permutation.
    by rewrite fmap_app. }
  split; [|done].
  apply slotsConsistent_iff in Hs as (Hnd & Hsorted & Hleader & Hfl).
  apply slotsConsistent_iff.
  assert (Hin : ∀ x, x ∈ followerPods s2 ↔ x ∈ followerPods s1 ∨ x = podName).
  { intros x. rewrite Hperm. set_solver. }
  split.
  { rewrite Hperm. apply NoDup_app. split; [done|]. split; [|apply NoDup_singleton].
    intros x Hx ->%list_elem_of_singleton. done. }
  split.
  { unfold followerPods, s2. simpl.
    apply (StronglySorted_fmap ConsensusMemberStatus.Pod (notAfter followerLess)); [done|].
    apply SliceStable_sorted; [apply followerLess_asym|apply followerLess_negtrans]. }
  split.
  - intros x Hx. change (leaderPods defaultPodName s2) with (leaderPods defaultPodName s1) in Hx.
    destruct (Hleader x Hx). rewrite Hin. split; [|done]. intros [?| ->]; done.
  - intros x [Hx| ->]%Hin; [by apply Hfl|done].
Qed.

Lemma setConsensusSetStatusLearner_spec s1 name role accessMode podName :
  slotsConsistent defaultPodName s1 →
  podName ∉ leaderPods defaultPodName s1 →
  podName ∉ followerPods s1 → podName ∉ learnerPods s1 →
  let s2 := fst (setConsensusSetStatusLearner s1
                   (consensusMemberExt.mk name role accessMode podName)) in
  slotsConsistent defaultPodName s2
  ∧ learnerPods s2 = [podName]
  ∧ ConsensusSetStatus.Leader s2 = ConsensusSetStatus.Leader s1
  ∧ followerPods s2 = followerPods s1.
Proof.
  intros Hs Hp Hf Hl. unfold setConsensusSetStatusLearner. simpl.
  set (learner := match ConsensusSetStatus.Learner s1 with
                  | Some learner => learner | Datatypes.None => _ end).
  assert (Hpods : learnerPods
            (fst (if String.eqb (ConsensusMemberStatus.Pod learner) podName
                  then (ConsensusSetStatus.mk (ConsensusSetStatus.Leader s1)
                          (ConsensusSetStatus.Followers s1) (Some learner), false)
                  else (ConsensusSetStatus.mk (ConsensusSetStatus.Leader s1)
                          (ConsensusSetStatus.Followers s1)
                          (Some (ConsensusMemberStatus.mk name podName accessMode)), true)))
          = [podName]).
  { destruct (String.eqb_spec (ConsensusMemberStatus.Pod learner) podName) as [Heq|Hne];
      unfold learnerPods; simpl; by rewrite ?Heq. }
  split; [|split; [exact Hpods|]].
  - apply slotsConsistent_iff in Hs as (Hnd & Hsorted & Hleader & Hfl).
    apply slotsConsistent_iff. rewrite Hpods.
    destruct (String.eqb (ConsensusMemberStatus.Pod learner) podName); simpl;
      (split; [done|]); (split; [done|]); split.
    + intros x Hx. destruct (Hleader x Hx). split; [done|].
      intros ->%list_elem_of_singleton. done.
    + intros x Hx ->%list_elem_of_singleton. done.
    + intros x Hx. destruct (Hleader x Hx). split; [done|].
      intros ->%list_elem_of_singleton. done.
    + intros x Hx ->%list_elem_of_singleton. done.
  - by destruct (String.eqb (ConsensusMemberStatus.Pod learner) podName).
Qed.

End Slots.

Section StatusInvariant.

Variable defaultPodName : string.

Lemma setConsensusSetStatusRole_consistent component s role podName :
  slotsConsistent defaultPodName s →
  match setConsensusSetStatusRole defaultPodName s component role podName with
  | Some (s', _) =>
      slotsConsistent defaultPodName s'
      ∧ (∀ roleMap ext,
           composeConsensusRoleMap component = Some roleMap →
           roleMap !! role = Some ext →
           consensusMemberExt.consensusRole ext = roleLeader →
           ConsensusMemberStatus.Pod (ConsensusSetStatus.Leader s') = podName
           ∧ (podName ∉ followerPods s') ∧ (podName ∉ learnerPods s'))
  | Datatypes.None => ClusterComponentDefinition.ConsensusSpec component = Datatypes.None
  end.
Proof.
  intros Hs. unfold setConsensusSetStatusRole, composeConsensusRoleMap.
  destruct (ClusterComponentDefinition.ConsensusSpec component) as [spec|]; simpl; [|done].
  destruct (composeRoles spec !! role) as [ext|] eqn:Hext.
  2: { split; [done|]. intros roleMap ext [= <-]. by rewrite Hext. }
  destruct (resetConsensusSetStatusRole_spec defaultPodName s podName Hs)
    as (s1 & -> & Hs1 & Hp1 & Hf1 & Hl1 & _).
  simpl.
  destruct (String.eqb_spec (consensusMemberExt.consensusRole ext) roleLeader) as [Hrole|Hnl].
  { destruct (setConsensusSetStatusLeader_spec defaultPodName s1
                (consensusMemberExt.name ext) (consensusMemberExt.consensusRole ext)
                (consensusMemberExt.accessMode ext) podName Hs1 Hf1 Hl1)
      as (Hs2 & Hpod & Hf2 & Hl2).
    destruct (setConsensusSetStatusLeader s1 _) as [s2 changed]. simpl in *.
    split; [done|]. intros _ _ _ _ _. by rewrite Hf2, Hl2. }
  destruct (String.eqb_spec (consensusMemberExt.consensusRole ext) roleFollower) as [Hrole|Hnf].
  { destruct (setConsensusSetStatusFollower_spec defaultPodName s1
                (consensusMemberExt.name ext) (consensusMemberExt.consensusRole ext)
                (consensusMemberExt.accessMode ext) podName Hs1 Hp1 Hf1 Hl1)
      as (Hs2 & _).
    destruct (setConsensusSetStatusFollower s1 _) as [s2 changed]. simpl in *.
    split; [done|]. intros roleMap ext' [= <-]. rewrite Hext. by intros [= <-]. }
  destruct (String.eqb_spec (consensusMemberExt.consensusRole ext) roleLearner) as [Hrole|Hnr].
  { destruct (setConsensusSetStatusLearner_spec defaultPodName s1
                (consensusMemberExt.name ext) (consensusMemberExt.consensusRole ext)
                (consensusMemberExt.accessMode ext) podName Hs1 Hp1 Hf1 Hl1)
      as (Hs2 & _).
    destruct (setConsensusSetStatusLearner s1 _) as [s2 changed]. simpl in *.
    split; [done|]. intros roleMap ext' [= <-]. rewrite Hext. by intros [= <-]. }
  split; [done|]. intros roleMap ext' [= <-]. rewrite Hext. by intros [= <-].
Qed.

Lemma setConsensusSetStatusRoles_consistent component pods : ∀ s,
  slotsConsistent defaultPodName s →
  match setConsensusSetStatusRoles defaultPodName s component pods with
  | Some s' => slotsConsistent defaultPodName s'
  | Datatypes.None =>
      ClusterComponentDefinition.ConsensusSpec component = Datatypes.None
      ∧ ∃ pod, pod ∈ pods ∧ Pod.Ready pod = true
  end.
Proof.
  induction pods as [|pod pods IH]; intros s Hs; simpl; [done|].
  destruct (Pod.Ready pod) eqn:Hready; simpl.
  - pose proof (setConsensusSetStatusRole_consistent component s
                  (Pod.RoleLabel pod) (Pod.Name pod) Hs) as Hstep.
    destruct (setConsensusSetStatusRole defaultPodName s component _ _) as [[s' changed]|];
      simpl.
    + destruct Hstep as [Hs' _]. specialize (IH s' Hs').
      destruct (setConsensusSetStatusRoles defaultPodName s' component pods); [done|].
      destruct IH as (? & pod' & ? & ?). split; [done|]. exists pod'. split; [by right|done].
    + split; [done|]. exists pod. split; [by left|done].
  - specialize (IH s Hs).
    destruct (setConsensusSetStatusRoles defaultPodName s component pods); [done|].
    destruct IH as (? & pod' & ? & ?). split; [done|]. exists pod'. split; [by right|done].
Qed.

(** With a consensus spec the status of a pass is always computed. *)
Lemma setConsensusSetStatusRoles_total component spec pods s :
  ClusterComponentDefinition.ConsensusSpec component = Some spec →
  slotsConsistent defaultPodName s →
  ∃ s', setConsensusSetStatusRoles defaultPodName s component pods = Some s'.
Proof.
  intros Hspec Hs.
  pose proof (setConsensusSetStatusRoles_consistent component pods s Hs) as H.
  destruct (setConsensusSetStatusRoles defaultPodName s component pods) as [s'|];
    [by exists s'|]. destruct H as [H _]. congruence.
Qed.

(** C4. The status a pass starts from has no pod name in two slots, and the
    update for one pod keeps that: afterwards no pod name is in two of the
    slots Leader, Followers and Learner or twice among the followers, and the
    followers are in the order of their pod names; the update panics only for
    a component without a consensus spec. When the label of the pod is the
    leader's, the pod is in the leader slot afterwards and neither among the
    followers nor in the learner slot, wherever it was before. So the status
    after the ready pods of a pass has the same property. The leader slot
    counts as free while it holds the default pod name. *)
Theorem status_slots_invariant (component : ClusterComponentDefinition.t) :
  slotsConsistent defaultPodName (initialConsensusSetStatus defaultPodName)
  ∧ (∀ s role podName,
       slotsConsistent defaultPodName s →
       match setConsensusSetStatusRole defaultPodName s component role podName with
       | Some (s', _) =>
           slotsConsistent defaultPodName s'
           ∧ (∀ roleMap ext,
                composeConsensusRoleMap component = Some roleMap →
                roleMap !! role = Some ext →
                consensusMemberExt.consensusRole ext = roleLeader →
                ConsensusMemberStatus.Pod (ConsensusSetStatus.Leader s') = podName
                ∧ (podName ∉ followerPods s') ∧ (podName ∉ learnerPods s'))
       | Datatypes.None =>
           ClusterComponentDefinition.ConsensusSpec component = Datatypes.None
       end)
  ∧ (∀ pods,
       match setConsensusSetStatusRoles defaultPodName
               (initialConsensusSetStatus defaultPodName) component pods with
       | Some s' => slotsConsistent defaultPodName s'
       | Datatypes.None =>
           ClusterComponentDefinition.ConsensusSpec component = Datatypes.None
           ∧ ∃ pod, pod ∈ pods ∧ Pod.Ready pod = true
       end).
Proof.
  split; [apply initialConsensusSetStatus_consistent|].
  split; [intros s role podName; apply setConsensusSetStatusRole_consistent|].
  intros pods. apply setConsensusSetStatusRoles_consistent.
  apply initialConsensusSetStatus_consistent.
Qed.

End StatusInvariant.

(** The scenario of the spec: the pods labelled primary, secondary and
    secondary2 give the leader and the two followers in the order of their
    names; when the pod of a follower is then seen as the leader it moves to
    the leader slot. *)
Example status_scenario :
  let pods := [Sample.pod "mysql-2" 2 "secondary2" "rev-2";
               Sample.pod "mysql-0" 0 "primary" "rev-2";
               Sample.pod "mysql-1" 1 "secondary" "rev-2"] in
  let status :=
    ConsensusSetStatus.mk
      (ConsensusMemberStatus.mk "primary" "mysql-0" appsv1alpha1.ReadWrite)
      (Some [ConsensusMemberStatus.mk "secondary" "mysql-1" appsv1alpha1.ReadWrite;
             ConsensusMemberStatus.mk "secondary2" "mysql-2" appsv1alpha1.Readonly])
      Datatypes.None in
  setConsensusSetStatusRoles Sample.defaultPodName
    (initialConsensusSetStatus Sample.defaultPodName) Sample.component pods = Some status
  ∧ setConsensusSetStatusRole Sample.defaultPodName status Sample.component
      "primary" "mysql-1"
    = Some (ConsensusSetStatus.mk
              (ConsensusMemberStatus.mk "primary" "mysql-1" appsv1alpha1.ReadWrite)
              (Some [ConsensusMemberStatus.mk "secondary2" "mysql-2" appsv1alpha1.Readonly])
              Datatypes.None, true).
Proof. by vm_compute. Qed.

(** ** The plans in closed form *)

Lemma appendAll_root pods : ∀ obj steps,
  appendAll [] pods (mkStep obj steps) = mkStep obj (steps ++ (stepOf <$> pods)).
Proof.
  induction pods as [|pod pods IH]; intros obj steps; simpl.
  { by rewrite app_nil_r. }
  unfold appendAll in *. simpl. rewrite IH. by rewrite <- (assoc_L (++)).
Qed.

Lemma appendAll_lift start pods : ∀ obj first rest,
  appendAll (0%nat :: start) pods (mkStep obj (first :: rest))
  = mkStep obj (appendAll start pods first :: rest).
Proof.
  induction pods as [|pod pods IH]; intros obj first rest; [done|].
  unfold appendAll in *. simpl. by rewrite IH.
Qed.

Lemma advance_lift start obj first rest :
  advance (mkStep obj (first :: rest)) (0%nat :: start) = 0%nat :: advance first start.
Proof. unfold advance, lenNextSteps. simpl. by destruct (0 <? _)%nat. Qed.

Lemma appendBatches_lift batches : ∀ start obj first rest,
  appendBatches (0%nat :: start) batches (mkStep obj (first :: rest))
  = mkStep obj (appendBatches start batches first :: rest).
Proof.
  induction batches as [|pods batches IH]; intros start obj first rest; [done|].
  simpl. rewrite appendAll_lift, advance_lift. apply IH.
Qed.

(** Batches appended to a step without successors hang as [linked] tells. *)
Lemma appendBatches_leaf batches : ∀ obj,
  appendBatches [] batches (mkStep obj []) = mkStep obj (linked batches).
Proof.
  induction batches as [|pods batches IH]; intros obj; [done|].
  simpl. rewrite appendAll_root. simpl. destruct pods as [|pod pods]; simpl.
  - apply IH.
  - unfold advance, lenNextSteps. simpl.
    rewrite appendBatches_lift. unfold stepOf at 1. by rewrite IH.
Qed.

Lemma planBatches_linked batches : ∀ obj,
  planBatches (mkStep obj (linked batches))
  = batchObjs <$> filter (λ pods, pods ≠ []) batches.
Proof.
  induction batches as [|pods batches IH]; intros obj; [done|].
  destruct pods as [|pod pods].
  - rewrite filter_cons_False by (by intros ?). apply IH.
  - rewrite filter_cons_True by done.
    change (planBatches (mkStep obj (linked ((pod :: pods) :: batches))))
      with ((Obj <$> (mkStep (Some pod) (linked batches) :: (stepOf <$> pods)))
              :: planBatches (mkStep (Some pod) (linked batches))).
    rewrite IH, !fmap_cons. f_equal. unfold batchObjs. rewrite fmap_cons. f_equal.
    rewrite <- list_fmap_compose. by apply list_fmap_ext.
Qed.

Lemma planPods_leaves pods : flat_map planPods (stepOf <$> pods) = pods.
Proof.
  induction pods as [|pod pods IH]; [done|]. rewrite fmap_cons.
  change (flat_map planPods (stepOf pod :: (stepOf <$> pods)))
    with (planPods (stepOf pod) ++ flat_map planPods (stepOf <$> pods)).
  by rewrite IH.
Qed.

Lemma planPods_linked batches : ∀ obj,
  planPods (mkStep obj (linked batches)) ≡ₚ option_list obj ++ concat batches.
Proof.
  induction batches as [|pods batches IH]; intros obj; [done|].
  destruct pods as [|pod pods]; [apply IH|].
  specialize (IH (Some pod)).
  change (planPods (mkStep obj (linked ((pod :: pods) :: batches))))
    with (option_list obj
            ++ planPods (mkStep (Some pod) (linked batches))
            ++ flat_map planPods (stepOf <$> pods)).
  rewrite planPods_leaves, IH. apply Permutation_app_head. simpl.
  apply Permutation_cons; [done|]. apply Permutation_app_comm.
Qed.

Lemma generateConsensusParallelPlan_linked obj pods :
  generateConsensusParallelPlan (mkStep obj []) pods = mkStep obj (linked [pods]).
Proof.
  change (generateConsensusParallelPlan (mkStep obj []) pods)
    with (appendBatches [] [pods] (mkStep obj [])).
  apply appendBatches_leaf.
Qed.

(** The serial loop below [start], with the pointer it keeps. *)
Lemma serial_lift pods : ∀ start obj first rest,
  fold_left
    (fun '(plan, start) pod =>
       let plan' := appendNext start (stepOf pod) plan in
       (plan', start ++ [(lenNextSteps plan' start - 1)%nat]))
    pods (mkStep obj (first :: rest), 0%nat :: start)
  = (λ '(plan, start), (mkStep obj (plan :: rest), 0%nat :: start))
      (fold_left
         (fun '(plan, start) pod =>
            let plan' := appendNext start (stepOf pod) plan in
            (plan', start ++ [(lenNextSteps plan' start - 1)%nat]))
         pods (first, start)).
Proof.
  induction pods as [|pod pods IH]; intros start obj first rest; [done|].
  simpl. unfold lenNextSteps at 1. simpl.
  change (stepAt start (appendNext start (stepOf pod) first))
    with (stepAt start (appendNext start (stepOf pod) first)).
  fold (lenNextSteps (appendNext start (stepOf pod) first) start).
  apply IH.
Qed.

Lemma generateConsensusSerialPlan_linked pods : ∀ obj,
  generateConsensusSerialPlan (mkStep obj []) pods
  = mkStep obj (linked ((λ pod, [pod]) <$> pods)).
Proof.
  unfold generateConsensusSerialPlan.
  induction pods as [|pod pods IH]; intros obj; [done|].
  simpl. unfold lenNextSteps at 1. simpl.
  rewrite serial_lift. specialize (IH (Some pod)). unfold stepOf at 1 2.
  destruct (fold_left _ pods (mkStep (Some pod) [], [])) as [plan start].
  simpl in *. by rewrite IH.
Qed.

(** ** The best-effort-parallel plan *)

Section BestEffortParallel.

Variable m : gmap string Z.

#[local] Arguments Nat.div : simpl never.
#[local] Arguments Nat.sub : simpl never.

Lemma bep_low_loop start pods : ∀ plan index,
  fold_left
    (fun '(plan, index) pod =>
       let role := Pod.RoleLabel pod in
       if Z.leb (priorityOf m role) learnerPriority then
         (appendNext start (stepOf pod) plan, S index)
       else (plan, index))
    pods (plan, index)
  = (appendAll start (lowPods m pods) plan, (index + length (lowPods m pods))%nat).
Proof.
  induction pods as [|pod pods IH]; intros plan index; simpl.
  { by rewrite Nat.add_0_r. }
  destruct (Z.leb_spec (priorityOf m (Pod.RoleLabel pod)) learnerPriority).
  - unfold lowPods. rewrite filter_cons_True by done. rewrite IH. simpl.
    f_equal. unfold lowPods. lia.
  - unfold lowPods. rewrite filter_cons_False by (unfold podPriority; lia). apply IH.
Qed.

Lemma bep_follower_count pods : ∀ count,
  fold_left
    (fun followerCount pod =>
       if Z.ltb (priorityOf m (Pod.RoleLabel pod)) leaderPriority
       then S followerCount else followerCount)
    pods count
  = (count + length (filter (λ pod, (podPriority m pod < leaderPriority)%Z) pods))%nat.
Proof.
  induction pods as [|pod pods IH]; intros count; simpl.
  { by rewrite Nat.add_0_r. }
  destruct (Z.ltb_spec (priorityOf m (Pod.RoleLabel pod)) leaderPriority).
  - rewrite filter_cons_True by done. rewrite IH. simpl. lia.
  - rewrite filter_cons_False by (unfold podPriority; lia). apply IH.
Qed.

(** The indexed loop stays in range and appends the pods from [i] on. *)
Lemma appendIndexed_take start podList n : ∀ i plan,
  (i + n ≤ length podList)%nat →
  appendIndexed start podList i n plan
  = Some (appendAll start (take n (drop i podList)) plan).
Proof.
  induction n as [|n IH]; intros i plan Hlen; simpl; [done|].
  destruct (lookup_lt_is_Some_2 podList i) as [pod Hpod]; [lia|].
  rewrite Hpod. simpl. rewrite IH by lia.
  by rewrite (drop_S podList pod i Hpod).
Qed.

Lemma sliceFrom_in_range {A : Type} (s : list A) low :
  (low ≤ length s)%nat → sliceFrom s low = Some (drop low s).
Proof. unfold sliceFrom. intros Hlow. by destruct (Nat.leb_spec low (length s)); [|lia]. Qed.

(** The plan for any pod list: the loops never leave the list. *)
Lemma generateConsensusBestEffortParallelPlan_closed plan pods :
  let podList := drop (length (lowPods m pods)) pods in
  let F := length (filter (λ pod, podPriority m pod < leaderPriority) podList) in
  generateConsensusBestEffortParallelPlan plan pods m
  = Some (appendBatches [] [lowPods m pods;
                            take (F / 2) podList;
                            take (F - F / 2) (drop (F / 2) podList);
                            drop (F - F / 2) (drop (F / 2) podList)] plan).
Proof.
  intros podList F. unfold generateConsensusBestEffortParallelPlan.
  rewrite bep_low_loop. simpl.
  assert (Hlow : (length (lowPods m pods) ≤ length pods)%nat) by apply length_filter.
  rewrite sliceFrom_in_range by exact Hlow. simpl. fold podList.
  rewrite bep_follower_count. simpl. fold F.
  assert (HF : (F ≤ length podList)%nat) by apply length_filter.
  assert (Hhalf : (F / 2 ≤ F)%nat) by (pose proof (Nat.Div0.mul_div_le F 2); lia).
  rewrite appendIndexed_take by (simpl; lia). simpl. rewrite drop_0.
  rewrite sliceFrom_in_range by lia. simpl.
  rewrite appendIndexed_take by (simpl; rewrite length_drop; lia). simpl. rewrite drop_0.
  rewrite sliceFrom_in_range by (rewrite length_drop; lia). by simpl.
Qed.

(** A list in the order of a key is the elements up to a bound followed by
    the elements above it. *)
Lemma sorted_split {A : Type} (key : A → Z) (k : Z) (l : list A) :
  StronglySorted (λ a b, key a ≤ key b) l →
  l = filter (λ a, key a ≤ k) l ++ filter (λ a, k < key a) l.
Proof.
  induction 1 as [|x l Hl IH Hx]; [done|].
  destruct (decide (key x ≤ k)) as [Hle|Hgt].
  - rewrite filter_cons_True, filter_cons_False by lia. simpl. by rewrite <- IH.
  - rewrite filter_cons_False, filter_cons_True by lia.
    rewrite filter_none, filter_all; [done|..];
      (eapply Forall_impl; [exact Hx|]; simpl; intros; lia).
Qed.

Lemma sortedPods_priority pods :
  sortedPods m pods → StronglySorted (λ a b, podPriority m a ≤ podPriority m b) pods.
Proof.
  induction 1 as [|x l Hl IH Hx]; constructor; [done|].
  eapply Forall_impl; [exact Hx|]. intros y. unfold notAfter, podLess, podPriority.
  destruct (Z.eqb_spec (priorityOf m (Pod.RoleLabel y)) (priorityOf m (Pod.RoleLabel x))); lia.
Qed.

(** A sorted pod list is its four groups in a row. *)
Lemma sortedPods_groups pods :
  sortedPods m pods →
  drop (length (lowPods m pods)) pods = followerPodsOf m pods ++ leaderPodsOf m pods
  ∧ filter (λ pod, podPriority m pod < leaderPriority)
      (drop (length (lowPods m pods)) pods) = followerPodsOf m pods
  ∧ pods = lowPods m pods ++ followerPodsOf m pods ++ leaderPodsOf m pods.
Proof.
  intros Hsorted%sortedPods_priority.
  pose proof (sorted_split (podPriority m) learnerPriority pods Hsorted) as Hsplit.
  fold (lowPods m pods) in Hsplit.
  set (rest := filter (λ a, learnerPriority < podPriority m a) pods) in *.
  assert (Hrest : StronglySorted (λ a b, podPriority m a ≤ podPriority m b) rest)
    by (by apply StronglySorted_filter).
  pose proof (sorted_split (podPriority m) (leaderPriority - 1) rest Hrest) as Hsplit2.
  assert (Hf : filter (λ a, podPriority m a ≤ leaderPriority - 1) rest = followerPodsOf m pods).
  { unfold rest, followerPodsOf. rewrite list_filter_filter.
    apply list_filter_iff. intros pod. lia. }
  assert (Hl : filter (λ a, leaderPriority - 1 < podPriority m a) rest = leaderPodsOf m pods).
  { unfold rest, leaderPodsOf. rewrite list_filter_filter.
    apply list_filter_iff. intros pod.
    assert (learnerPriority < leaderPriority) by done. lia. }
  rewrite Hf, Hl in Hsplit2.
  assert (Hdrop : drop (length (lowPods m pods)) pods = rest).
  { rewrite Hsplit at 2. by rewrite drop_app_length. }
  rewrite Hdrop. split; [done|]. split; [|by rewrite <- Hsplit2].
  rewrite Hsplit2, filter_app.
  rewrite (filter_all _ (followerPodsOf m pods)), (filter_none _ (leaderPodsOf m pods)).
  - by rewrite app_nil_r.
  - apply Forall_forall. intros pod [Hp _]%list_elem_of_filter. lia.
  - apply Forall_forall. intros pod [Hp _]%list_elem_of_filter. lia.
Qed.

Lemma generateConsensusBestEffortParallelPlan_sorted pods :
  sortedPods m pods →
  generateConsensusBestEffortParallelPlan (mkStep Datatypes.None []) pods m
  = Some (mkStep Datatypes.None (linked (bestEffortGroups m pods))).
Proof.
  intros Hsorted. rewrite generateConsensusBestEffortParallelPlan_closed.
  destruct (sortedPods_groups pods Hsorted) as (Hdrop & HF & _).
  rewrite HF, Hdrop. rewrite appendBatches_leaf. unfold bestEffortGroups.
  set (followers := followerPodsOf m pods). set (F := length followers).
  assert (Hhalf : (F / 2 ≤ F)%nat) by (pose proof (Nat.Div0.mul_div_le F 2); lia).
  rewrite (take_app_le followers) by (fold F; lia).
  rewrite (drop_app_le followers) by (fold F; lia).
  rewrite take_app_length', drop_app_length' by (rewrite length_drop; fold F; lia).
  done.
Qed.

(** When no priority of the map exceeds the leader's, as in every map that
    [ComposeRolePriorityMap] makes, the last group is the pods whose priority
    is the leader's. *)
Lemma leaderPodsOf_exact pods :
  (∀ label, priorityOf m label ≤ leaderPriority) →
  leaderPodsOf m pods = filter (λ pod, podPriority m pod = leaderPriority) pods.
Proof.
  intros Hbound. unfold leaderPodsOf. apply list_filter_iff. intros pod.
  pose proof (Hbound (Pod.RoleLabel pod)). unfold podPriority. lia.
Qed.

(** C1. For every priority map and every pod list sorted by priority and
    then ordinal, the best-effort-parallel plan is made without a panic and
    holds four groups in this order: the pods whose priority is at most the
    learner's; of the [F] other pods below the leader priority, the first
    [F/2] in the sorted order; the other [F - F/2] of them; last, the pods that
    reach the leader priority, which are the pods with the leader priority
    when no priority of the map exceeds it, as in every map that
    [ComposeRolePriorityMap] makes. The batches of the plan are the groups
    that hold a pod, a group without pods leaving no step, and the groups in a
    row are the sorted list. *)
Theorem best_effort_parallel_four_groups (pods : list Pod.t) :
  sortedPods m pods →
  let followers := followerPodsOf m pods in
  let F := length followers in
  ∃ plan,
    generateConsensusBestEffortParallelPlan (mkStep Datatypes.None []) pods m = Some plan
    ∧ bestEffortGroups m pods
      = [lowPods m pods; take (F / 2) followers; drop (F / 2) followers; leaderPodsOf m pods]
    ∧ plan = mkStep Datatypes.None (linked (bestEffortGroups m pods))
    ∧ planBatches plan = batchObjs <$> filter (λ group, group ≠ []) (bestEffortGroups m pods)
    ∧ length (take (F / 2) followers) = (F / 2)%nat
    ∧ length (drop (F / 2) followers) = (F - F / 2)%nat
    ∧ pods = lowPods m pods ++ take (F / 2) followers ++ drop (F / 2) followers
               ++ leaderPodsOf m pods
    ∧ ((∀ label, priorityOf m label ≤ leaderPriority) →
       leaderPodsOf m pods = filter (λ pod, podPriority m pod = leaderPriority) pods).
Proof.
  intros Hsorted followers F. eexists.
  split; [by apply generateConsensusBestEffortParallelPlan_sorted|].
  split; [done|]. split; [done|]. split; [apply planBatches_linked|].
  assert (Hhalf : (F / 2 ≤ F)%nat) by (pose proof (Nat.Div0.mul_div_le F 2); lia).
  split; [rewrite length_take; fold F; lia|].
  split; [by rewrite length_drop|].
  destruct (sortedPods_groups pods Hsorted) as (_ & _ & Hpods).
  split; [|apply leaderPodsOf_exact].
  rewrite (assoc_L (++) (take _ _)), take_drop. exact Hpods.
Qed.

End BestEffortParallel.

Lemma SortPods_sorted m pods : sortedPods m (SortPods pods m).
Proof. apply SliceStable_sorted; [apply podLess_asym|apply podLess_negtrans]. Qed.

Lemma SortPods_Permutation m pods : SortPods pods m ≡ₚ pods.
Proof. apply SliceStable_Permutation. Qed.

Lemma best_effort_parallel_sample :
  let m := ComposeRolePriorityMap Sample.defaultLeader Sample.component in
  sortedPods m Sample.pods
  ∧ planBatches <$> generateConsensusBestEffortParallelPlan (mkStep Datatypes.None [])
                      Sample.pods m
    = Some [[Some (Sample.pod "mysql-3" 3 "learner" "rev-2")];
            [Some (Sample.pod "mysql-1" 1 "secondary2" "rev-1")];
            [Some (Sample.pod "mysql-2" 2 "secondary" "rev-2")];
            [Some (Sample.pod "mysql-0" 0 "primary" "rev-2")]].
Proof.
  intros m.
  assert (Hsorted : sortedPods m Sample.pods).
  { replace Sample.pods with (SortPods Sample.pods m) by (by vm_compute).
    apply SortPods_sorted. }
  split; [exact Hsorted|].
  destruct (best_effort_parallel_four_groups m Sample.pods Hsorted)
    as (plan & Hplan & _ & Heq & _).
  rewrite Hplan, Heq. by vm_compute.
Defined.

(** ** The plan of a pass *)

Lemma concat_planBatches_linked batches obj :
  concat (planBatches (mkStep obj (linked batches))) = Some <$> concat batches.
Proof.
  rewrite planBatches_linked.
  induction batches as [|pods batches IH]; [done|].
  destruct pods as [|pod pods].
  - rewrite filter_cons_False by (by intros ?). apply IH.
  - rewrite filter_cons_True by done. rewrite fmap_cons.
    change (concat (batchObjs (pod :: pods)
                      :: (batchObjs <$> filter (λ pods, pods ≠ []) batches)))
      with (batchObjs (pod :: pods)
              ++ concat (batchObjs <$> filter (λ pods, pods ≠ []) batches)).
    rewrite IH. unfold batchObjs.
    change (concat ((pod :: pods) :: batches)) with ((pod :: pods) ++ concat batches).
    by rewrite fmap_app.
Qed.

Lemma concat_singletons {A : Type} (l : list A) : concat ((λ x, [x]) <$> l) = l.
Proof. induction l as [|x l IH]; [done|]. rewrite fmap_cons. simpl. by rewrite IH. Qed.

Section UpdatePlan.

Variable DefaultLeader : ConsensusMember.t.

(** The plan of each strategy in closed form. *)
Lemma generateConsensusUpdatePlan_linked component spec pods :
  ClusterComponentDefinition.ConsensusSpec component = Some spec →
  ConsensusSetSpec.UpdateStrategy spec
    ∈ [appsv1alpha1.SerialStrategy; appsv1alpha1.ParallelStrategy;
       appsv1alpha1.BestEffortParallelStrategy] →
  let m := ComposeRolePriorityMap DefaultLeader component in
  ∃ batches,
    generateConsensusUpdatePlan DefaultLeader pods component
    = Some (mkStep Datatypes.None (linked batches))
    ∧ concat batches = SortPods pods m
    ∧ (ConsensusSetSpec.UpdateStrategy spec = appsv1alpha1.SerialStrategy →
       batches = (λ pod, [pod]) <$> SortPods pods m)
    ∧ (ConsensusSetSpec.UpdateStrategy spec = appsv1alpha1.ParallelStrategy →
       batches = [SortPods pods m])
    ∧ (ConsensusSetSpec.UpdateStrategy spec = appsv1alpha1.BestEffortParallelStrategy →
       batches = bestEffortGroups m (SortPods pods m)).
Proof.
  intros Hspec Hstrategy m. unfold generateConsensusUpdatePlan. rewrite Hspec. simpl.
  fold m.
  apply elem_of_cons in Hstrategy as [->|Hstrategy]; simpl.
  { exists ((λ pod, [pod]) <$> SortPods pods m).
    rewrite generateConsensusSerialPlan_linked, concat_singletons. by repeat split. }
  apply elem_of_cons in Hstrategy as [->|Hstrategy]; simpl.
  { exists [SortPods pods m]. rewrite generateConsensusParallelPlan_linked. simpl.
    rewrite app_nil_r. by repeat split. }
  apply list_elem_of_singleton in Hstrategy as ->. simpl.
  exists (bestEffortGroups m (SortPods pods m)).
  pose proof (SortPods_sorted m pods) as Hsorted.
  rewrite (generateConsensusBestEffortParallelPlan_sorted m) by done.
  destruct (sortedPods_groups m (SortPods pods m) Hsorted) as (_ & _ & Hgroups).
  split; [done|]. split; [|by repeat split].
  unfold bestEffortGroups. simpl. rewrite app_nil_r.
  rewrite (assoc_L (++) (take _ _)), take_drop. by rewrite <- Hgroups.
Qed.

(** C2. For each of the strategies Serial, Parallel and BestEffortParallel
    and every pod list, the plan is made without a panic and its steps hold
    the pods of the list, each as often as the list does: the pods of all the
    steps are a permutation of the list, and so are the pods of the batches
    that the walk goes through, each step being in one batch. *)
Theorem update_plan_partitions_pods (component : ClusterComponentDefinition.t)
    (spec : ConsensusSetSpec.t) (pods : list Pod.t) :
  ClusterComponentDefinition.ConsensusSpec component = Some spec →
  ConsensusSetSpec.UpdateStrategy spec
    ∈ [appsv1alpha1.SerialStrategy; appsv1alpha1.ParallelStrategy;
       appsv1alpha1.BestEffortParallelStrategy] →
  ∃ plan,
    generateConsensusUpdatePlan DefaultLeader pods component = Some plan
    ∧ planPods plan ≡ₚ pods
    ∧ concat (planBatches plan) ≡ₚ Some <$> pods
    ∧ length (planPods plan) = length pods.
Proof.
  intros Hspec Hstrategy.
  destruct (generateConsensusUpdatePlan_linked component spec pods Hspec Hstrategy)
    as (batches & Hplan & Hconcat & _).
  eexists. split; [exact Hplan|].
  assert (Hperm : planPods (mkStep Datatypes.None (linked batches)) ≡ₚ pods).
  { rewrite planPods_linked. simpl. rewrite Hconcat. apply SortPods_Permutation. }
  split; [exact Hperm|]. split; [|by rewrite Hperm].
  rewrite concat_planBatches_linked, Hconcat. by rewrite SortPods_Permutation.
Qed.

End UpdatePlan.

Lemma update_plan_partitions_pods_sample :
  ConsensusSetSpec.UpdateStrategy Sample.consensusSpec
    ∈ [appsv1alpha1.SerialStrategy; appsv1alpha1.ParallelStrategy;
       appsv1alpha1.BestEffortParallelStrategy]
  ∧ ∃ plan,
      generateConsensusUpdatePlan Sample.defaultLeader (reverse Sample.pods)
        Sample.component = Some plan
      ∧ planPods plan ≡ₚ reverse Sample.pods.
Proof.
  assert (Hstrategy : ConsensusSetSpec.UpdateStrategy Sample.consensusSpec
    ∈ [appsv1alpha1.SerialStrategy; appsv1alpha1.ParallelStrategy;
       appsv1alpha1.BestEffortParallelStrategy]).
  { right. right. by left. }
  split; [exact Hstrategy|].
  destruct (update_plan_partitions_pods Sample.defaultLeader Sample.component
              Sample.consensusSpec (reverse Sample.pods) eq_refl Hstrategy)
    as (plan & Hplan & Hperm & _).
  by exists plan.
Defined.

(** The serial plan of the spec's scenario: the learner, the follower and
    the leader give one batch each, in this order. *)
Example serial_plan_scenario :
  let spec :=
    ConsensusSetSpec.mk (ConsensusMember.mk "leader" appsv1alpha1.ReadWrite)
      [ConsensusMember.mk "follower" appsv1alpha1.ReadWrite]
      (Some (ConsensusMember.mk "learner" appsv1alpha1.Readonly))
      appsv1alpha1.SerialStrategy in
  let r0 := Sample.pod "r-0" 0 "learner" "rev-2" in
  let r1 := Sample.pod "r-1" 1 "follower" "rev-2" in
  let r2 := Sample.pod "r-2" 2 "leader" "rev-2" in
  planBatches <$>
    generateConsensusUpdatePlan Sample.defaultLeader [r2; r0; r1]
      (ClusterComponentDefinition.mk appsv1alpha1.Consensus (Some spec))
  = Some [[Some r0]; [Some r1]; [Some r2]].
Proof. by vm_compute. Qed.

(** ** The requests of a pass *)

Lemma Step_first_ind (P : Step → Prop) :
  (∀ obj, P (mkStep obj [])) →
  (∀ obj first rest, P first → P (mkStep obj (first :: rest))) →
  ∀ s, P s.
Proof.
  intros Hleaf Hnode. fix IH 1. intros [obj [|first rest]].
  - apply Hleaf.
  - apply Hnode, IH.
Qed.

Lemma WalkFunc_sent cli stsObj obj : Forall isDelete (snd (WalkFunc cli stsObj obj)).
Proof.
  unfold WalkFunc. destruct obj as [pod|]; [|constructor].
  destruct (Pod.Terminating pod); [constructor|].
  destruct (String.eqb _ _); [constructor|].
  destruct (Client.Delete cli pod) as [err|]; [destruct (negb _)|];
    simpl; repeat constructor; by exists pod.
Qed.

Lemma walkSteps_sent cli stsObj steps : ∀ shouldStop,
  Forall isDelete (snd (walkSteps (WalkFunc cli stsObj) steps shouldStop)).
Proof.
  induction steps as [|step steps IH]; intros shouldStop; simpl; [constructor|].
  pose proof (WalkFunc_sent cli stsObj (Obj step)) as Hsent.
  destruct (WalkFunc cli stsObj (Obj step)) as [[walked [err|]] sent]; simpl in *; [done|].
  specialize (IH (walked || shouldStop)).
  destruct (walkSteps _ steps _) as [r sent']. simpl in *. by apply Forall_app.
Qed.

Lemma WalkOneStep_sent cli stsObj plan :
  Forall isDelete (snd (WalkOneStep (WalkFunc cli stsObj) plan)).
Proof.
  induction plan as [obj|obj first rest IH] using Step_first_ind; simpl; [constructor|].
  pose proof (walkSteps_sent cli stsObj (first :: rest) false) as Hsent.
  change (match WalkFunc cli stsObj (Obj first) with
          | (_, Some err, sent) => (inl err, sent)
          | (walked, Datatypes.None, sent) =>
              let '(r, sent') := walkSteps (WalkFunc cli stsObj) rest (walked || false) in
              (r, sent ++ sent')
          end) with (walkSteps (WalkFunc cli stsObj) (first :: rest) false).
  destruct (walkSteps _ (first :: rest) false) as [[err|[|]] sent]; simpl in *; try done.
  destruct (WalkOneStep _ first) as [r sent']. simpl in *. by apply Forall_app.
Qed.

Lemma patchConfigs_sent ToUpper cli componentName leader followers items : ∀ err sent,
  patchConfigs ToUpper cli componentName leader followers items = Some (err, sent) →
  Forall isPatchConfigMap sent.
Proof.
  induction items as [|config items IH]; intros err sent; simpl.
  { intros [= <- <-]. constructor. }
  destruct (ConfigMap.Data config) as [data|]; simpl; [|done].
  destruct (Client.Patch cli _) as [e|].
  { intros [= <- <-]. repeat constructor. by eexists. }
  destruct (patchConfigs _ _ _ _ _ items) as [[err' sent']|]; simpl; [|done].
  intros [= <- <-]. constructor; [by eexists|]. by eapply IH.
Qed.

Lemma updateConsensusRoleInfo_sent ToUpper cli componentDef componentName pods err sent :
  updateConsensusRoleInfo ToUpper cli componentDef componentName pods = Some (err, sent) →
  Forall isPatchConfigMap sent.
Proof.
  unfold updateConsensusRoleInfo.
  destruct (collectRoleInfo componentDef pods "" "") as [[leader followers]|]; simpl; [|done].
  destruct (Client.List cli) as [e|items].
  - intros [= <- <-]. constructor.
  - apply patchConfigs_sent.
Qed.

Lemma setConsensusSetStatusRoles_applyRoles defaultPodName componentDef pods : ∀ status,
  setConsensusSetStatusRoles defaultPodName status componentDef pods
  = applyRoles defaultPodName status componentDef (readyRoles pods).
Proof.
  induction pods as [|pod pods IH]; intros status; [done|].
  unfold readyRoles. simpl. destruct (Pod.Ready pod) eqn:Hready; simpl.
  - rewrite filter_cons_True by done. rewrite fmap_cons. simpl.
    destruct (setConsensusSetStatusRole _ _ _ _ _) as [[status' changed]|]; simpl; [|done].
    apply IH.
  - rewrite filter_cons_False by (by rewrite Hready). apply IH.
Qed.

Lemma statusChanged_false status old :
  statusChanged status old = false ↔ old = Some status.
Proof.
  unfold statusChanged. rewrite negb_false_iff, bool_decide_eq_true. naive_solver.
Qed.

(** ** The pass *)

Section Pass.

Variable DefaultLeader : ConsensusMember.t.
Variable defaultPodName : string.
Variable ToUpper : string → string.

Abbreviation handle := (handleConsensusSetUpdate DefaultLeader defaultPodName ToUpper).

(** The pass for a consensus component whose pods were fetched. *)
Lemma handleConsensusSetUpdate_consensus cli cluster stsObj component pods :
  Client.GetComponentDefByCluster cli = inr (Some component) →
  ClusterComponentDefinition.WorkloadType component = appsv1alpha1.Consensus →
  Client.GetPodListByStatefulSet cli = inr pods →
  let componentName := StatefulSet.ComponentLabel stsObj in
  handle cli cluster stsObj =
    newStatus ←
      setConsensusSetStatusRoles defaultPodName (initialConsensusSetStatus defaultPodName)
        component pods;
    if statusChanged newStatus (statusOf cluster componentName) then
      match Client.StatusPatch cli with
      | Some err =>
          Some (false, Some err, withStatus cluster componentName newStatus,
                [PatchStatus componentName newStatus])
      | Datatypes.None =>
          '(err, sent) ← updateConsensusRoleInfo ToUpper cli component componentName pods;
          match err with
          | Some err =>
              Some (false, Some err, withStatus cluster componentName newStatus,
                    PatchStatus componentName newStatus :: sent)
          | Datatypes.None =>
              deletionStage DefaultLeader cli stsObj pods component
                (withStatus cluster componentName newStatus)
                (PatchStatus componentName newStatus :: sent)
          end
      end
    else deletionStage DefaultLeader cli stsObj pods component cluster [].
Proof.
  intros Hcomponent Hworkload Hpods componentName.
  unfold handleConsensusSetUpdate. rewrite Hcomponent, Hworkload, Hpods. simpl.
  fold componentName. fold (statusOf cluster componentName).
  destruct (setConsensusSetStatusRoles _ _ _ _) as [newStatus|]; simpl; [|done].
  destruct (statusChanged newStatus (statusOf cluster componentName)); simpl.
  - destruct (Client.StatusPatch cli) as [err|]; simpl; [done|].
    destruct (updateConsensusRoleInfo _ _ _ _ _) as [[[err|] sent]|]; simpl; done.
  - done.
Qed.

Lemma deletionStage_notConverged cli stsObj pods component cluster sent :
  notConverged stsObj pods →
  deletionStage DefaultLeader cli stsObj pods component cluster sent
  = Some (false, Datatypes.None, cluster, sent).
Proof.
  unfold deletionStage.
  destruct (Z.eqb_spec (StatefulSet.Generation stsObj)
              (StatefulSet.ObservedGeneration stsObj)) as [Heq|Hne]; simpl; [|done].
  intros [Hgen|(replicas & -> & Hne)]; [done|]. simpl.
  by destruct (Z.eqb_spec (Z.of_nat (length pods)) replicas).
Qed.

Lemma deletionStage_result cli stsObj pods component cluster sent done err cluster' sent' :
  deletionStage DefaultLeader cli stsObj pods component cluster sent
  = Some (done, err, cluster', sent') →
  cluster' = cluster ∧ ∃ deletes, sent' = sent ++ deletes ∧ Forall isDelete deletes.
Proof.
  unfold deletionStage. destruct (negb _).
  { intros [= <- <- <- <-]. split; [done|]. exists []. by rewrite app_nil_r. }
  destruct (StatefulSet.Replicas stsObj) as [replicas|]; simpl; [|done].
  destruct (negb _).
  { intros [= <- <- <- <-]. split; [done|]. exists []. by rewrite app_nil_r. }
  destruct (generateConsensusUpdatePlan _ _ _) as [plan|]; simpl; [|done].
  pose proof (WalkOneStep_sent cli stsObj plan) as Hsent.
  destruct (WalkOneStep _ plan) as [[done' err'] deletes]. simpl in *.
  intros [= <- <- <- <-]. split; [done|]. by exists deletes.
Qed.

End Pass.

Section Gate.

Variable DefaultLeader : ConsensusMember.t.
Variable defaultPodName : string.
Variable ToUpper : string → string.

(** C9, amended. While the stateful set has not converged (its generation is
    not the observed one, or the pods are not as many as the replicas), a pass
    sends no pod delete and builds no update plan, whatever else happens. For a
    consensus component whose pods were fetched, the status is reconciled
    first, and the pass returns [false] with the error of the status patch or
    of the config propagation if one of them fails, and [(false, nil)] if none
    does; it panics only where the status computation or the config
    propagation does. A pass that ends before that returns what that step
    returned: [false] with the error when the component definition or the pod
    list cannot be fetched, or [(true, nil)] for a component that is absent or
    not a consensus set; such a pass sends nothing and leaves the cluster
    object as it was. *)
Theorem update_deferred_until_converged (cli : Client.t) (cluster : Cluster.t)
    (stsObj : StatefulSet.t) :
  (∀ pods, Client.GetPodListByStatefulSet cli = inr pods → notConverged stsObj pods) →
  let componentName := StatefulSet.ComponentLabel stsObj in
  (∀ done err cluster' sent,
     handleConsensusSetUpdate DefaultLeader defaultPodName ToUpper cli cluster stsObj
     = Some (done, err, cluster', sent) →
     ∀ pod, DeletePod pod ∉ sent)
  ∧ (∀ component pods,
       Client.GetComponentDefByCluster cli = inr (Some component) →
       ClusterComponentDefinition.WorkloadType component = appsv1alpha1.Consensus →
       Client.GetPodListByStatefulSet cli = inr pods →
       handleConsensusSetUpdate DefaultLeader defaultPodName ToUpper cli cluster stsObj =
         newStatus ←
           setConsensusSetStatusRoles defaultPodName
             (initialConsensusSetStatus defaultPodName) component pods;
         if statusChanged newStatus (statusOf cluster componentName) then
           match Client.StatusPatch cli with
           | Some err =>
               Some (false, Some err, withStatus cluster componentName newStatus,
                     [PatchStatus componentName newStatus])
           | Datatypes.None =>
               '(err, sent) ←
                 updateConsensusRoleInfo ToUpper cli component componentName pods;
               Some (false, err, withStatus cluster componentName newStatus,
                     PatchStatus componentName newStatus :: sent)
           end
         else Some (false, Datatypes.None, cluster, []))
  ∧ (∀ err, Client.GetComponentDefByCluster cli = inl err →
       handleConsensusSetUpdate DefaultLeader defaultPodName ToUpper cli cluster stsObj
       = Some (false, Some err, cluster, []))
  ∧ (∀ component err,
       Client.GetComponentDefByCluster cli = inr (Some component) →
       ClusterComponentDefinition.WorkloadType component = appsv1alpha1.Consensus →
       Client.GetPodListByStatefulSet cli = inl err →
       handleConsensusSetUpdate DefaultLeader defaultPodName ToUpper cli cluster stsObj
       = Some (false, Some err, cluster, []))
  ∧ (∀ component,
       Client.GetComponentDefByCluster cli = inr component →
       (∀ c, component = Some c →
             ClusterComponentDefinition.WorkloadType c ≠ appsv1alpha1.Consensus) →
       handleConsensusSetUpdate DefaultLeader defaultPodName ToUpper cli cluster stsObj
       = Some (true, Datatypes.None, cluster, [])).
Proof.
  intros Hgate componentName.
  assert (Hconsensus : ∀ component pods,
    Client.GetComponentDefByCluster cli = inr (Some component) →
    ClusterComponentDefinition.WorkloadType component = appsv1alpha1.Consensus →
    Client.GetPodListByStatefulSet cli = inr pods →
    handleConsensusSetUpdate DefaultLeader defaultPodName ToUpper cli cluster stsObj =
      newStatus ←
        setConsensusSetStatusRoles defaultPodName
          (initialConsensusSetStatus defaultPodName) component pods;
      if statusChanged newStatus (statusOf cluster componentName) then
        match Client.StatusPatch cli with
        | Some err =>
            Some (false, Some err, withStatus cluster componentName newStatus,
                  [PatchStatus componentName newStatus])
        | Datatypes.None =>
            '(err, sent) ←
              updateConsensusRoleInfo ToUpper cli component componentName pods;
            Some (false, err, withStatus cluster componentName newStatus,
                  PatchStatus componentName newStatus :: sent)
        end
      else Some (false, Datatypes.None, cluster, [])).
  { intros component pods Hcomponent Hworkload Hpods.
    rewrite (handleConsensusSetUpdate_consensus _ _ _ cli cluster stsObj component pods)
      by done.
    fold componentName.
    destruct (setConsensusSetStatusRoles _ _ _ _) as [newStatus|]; simpl; [|done].
    rewrite !deletionStage_notConverged by (by apply Hgate).
    destruct (statusChanged _ _); [|done].
    destruct (Client.StatusPatch cli); [done|].
    destruct (updateConsensusRoleInfo _ _ _ _ _) as [[[err|] sent]|]; simpl;
      rewrite ?deletionStage_notConverged by (by apply Hgate); done. }
  split; [|split; [exact Hconsensus|split; [|split]]].
  - intros done err cluster' sent Hresult pod Hpod.
    destruct (Client.GetComponentDefByCluster cli) as [e|[component|]] eqn:Hcomponent.
    + unfold handleConsensusSetUpdate in Hresult. rewrite Hcomponent in Hresult.
      injection Hresult as <- <- <- <-. by apply elem_of_nil in Hpod.
    + destruct (String.eqb_spec (ClusterComponentDefinition.WorkloadType component)
                  appsv1alpha1.Consensus) as [Hworkload|Hworkload].
      * destruct (Client.GetPodListByStatefulSet cli) as [e|pods] eqn:Hpods.
        { unfold handleConsensusSetUpdate in Hresult.
          rewrite Hcomponent, Hworkload, Hpods in Hresult. simpl in Hresult.
          injection Hresult as <- <- <- <-. by apply elem_of_nil in Hpod. }
        rewrite (Hconsensus component pods eq_refl Hworkload eq_refl) in Hresult.
        destruct (setConsensusSetStatusRoles _ _ _ _) as [newStatus|]; simpl in Hresult;
          [|done].
        destruct (statusChanged _ _).
        2: { injection Hresult as <- <- <- <-. by apply elem_of_nil in Hpod. }
        destruct (Client.StatusPatch cli).
        { injection Hresult as <- <- <- <-.
          by apply list_elem_of_singleton in Hpod. }
        destruct (updateConsensusRoleInfo _ _ _ _ _) as [[err' sent']|] eqn:Hinfo;
          simpl in Hresult; [|done].
        injection Hresult as <- <- <- <-.
        apply elem_of_cons in Hpod as [?|Hpod]; [done|].
        apply updateConsensusRoleInfo_sent in Hinfo.
        apply (proj1 (Forall_forall _ _) Hinfo) in Hpod as [config ?]. done.
      * unfold handleConsensusSetUpdate in Hresult. rewrite Hcomponent in Hresult.
        apply String.eqb_neq in Hworkload. rewrite Hworkload in Hresult.
        simpl in Hresult. injection Hresult as <- <- <- <-.
        by apply elem_of_nil in Hpod.
    + unfold handleConsensusSetUpdate in Hresult. rewrite Hcomponent in Hresult.
      injection Hresult as <- <- <- <-. by apply elem_of_nil in Hpod.
  - intros err Hcomponent. unfold handleConsensusSetUpdate. by rewrite Hcomponent.
  - intros component err Hcomponent Hworkload Hpods. unfold handleConsensusSetUpdate.
    by rewrite Hcomponent, Hworkload, Hpods.
  - intros component Hcomponent Hworkload. unfold handleConsensusSetUpdate.
    rewrite Hcomponent. destruct component as [c|]; [|done].
    specialize (Hworkload c eq_refl). apply String.eqb_neq in Hworkload.
    by rewrite Hworkload.
Qed.

End Gate.

Lemma update_deferred_until_converged_sample :
  let cli := Sample.client (Some Sample.component) [Sample.pod "mysql-0" 0 "primary" "rev-1"]
               [] Datatypes.None Datatypes.None Datatypes.None in
  notConverged (Sample.sts 2 1 1) [Sample.pod "mysql-0" 0 "primary" "rev-1"]
  ∧ handleConsensusSetUpdate Sample.defaultLeader Sample.defaultPodName Sample.toUpper
      cli Sample.cluster (Sample.sts 2 1 1)
    = Some (false, Datatypes.None, withStatus Sample.cluster "mysql" Sample.leaderStatus,
            [PatchStatus "mysql" Sample.leaderStatus]).
Proof.
  intros cli.
  assert (Hgate : ∀ pods, Client.GetPodListByStatefulSet cli = inr pods →
                          notConverged (Sample.sts 2 1 1) pods).
  { intros pods _. by left. }
  split; [by left|].
  pose proof (update_deferred_until_converged Sample.defaultLeader Sample.defaultPodName
                Sample.toUpper cli Sample.cluster (Sample.sts 2 1 1) Hgate)
    as (_ & Hpass & _).
  rewrite (Hpass Sample.component _ eq_refl eq_refl eq_refl). by vm_compute.
Defined.

(** C9 as stated fails: with a generation that is not the observed one, the
    pass for a component that is not a consensus set returns [(true, nil)], and
    the pass whose status patch fails returns the error of the patch. *)
Lemma unconverged_pass_not_always_false_nil :
  handleConsensusSetUpdate Sample.defaultLeader Sample.defaultPodName Sample.toUpper
    (Sample.client (Some Sample.stateless) [] [] Datatypes.None Datatypes.None Datatypes.None)
    Sample.cluster (Sample.sts 2 1 3)
  = Some (true, Datatypes.None, Sample.cluster, [])
  ∧ handleConsensusSetUpdate Sample.defaultLeader Sample.defaultPodName Sample.toUpper
      (Sample.client (Some Sample.component) [Sample.pod "mysql-0" 0 "primary" "rev-1"] []
         (Some (Failed "conflict")) Datatypes.None Datatypes.None)
      Sample.cluster (Sample.sts 2 1 3)
    = Some (false, Some (Failed "conflict"),
            withStatus Sample.cluster "mysql" Sample.leaderStatus,
            [PatchStatus "mysql" Sample.leaderStatus]).
Proof. by vm_compute. Qed.

(** ** The config propagation *)

Lemma append_assoc (a b c : string) :
  String.append (String.append a b) c = String.append a (String.append b c).
Proof.
  induction a as [|x a IH]; [done|].
  change (String x (String.append (String.append a b) c)
          = String x (String.append a (String.append b c))).
  by rewrite IH.
Qed.

Lemma append_nil_r (a : string) : String.append a "" = a.
Proof.
  induction a as [|x a IH]; [done|].
  change (String x (String.append a "") = String x a). by rewrite IH.
Qed.

Lemma append_cancel_l (a b c : string) : String.append a b = String.append a c → b = c.
Proof.
  induction a as [|x a IH]; [done|].
  change (String x (String.append a b) = String x (String.append a c) → b = c).
  intros [= ?]. auto.
Qed.

Lemma length_pos_iff (a : string) : (0 <? String.length a)%nat = true ↔ a ≠ "".
Proof.
  destruct a as [|x a]; [by split|]. split; [done|]. intros _. reflexivity.
Qed.

(** The commas and names that follow the first name of a joined list. *)
Lemma concat_comma_cons name names :
  String.concat "," (name :: names)
  = String.append name (fold_right (λ n s, String.append "," (String.append n s)) "" names).
Proof.
  revert name. induction names as [|n names IH]; intros name.
  - simpl. by rewrite append_nil_r.
  - change (String.concat "," (name :: n :: names))
      with (String.append name (String.append "," (String.concat "," (n :: names)))).
    by rewrite IH.
Qed.

Lemma joinOnto_nonempty names : ∀ followers,
  followers ≠ "" →
  joinOnto followers names
  = String.append followers
      (fold_right (λ n s, String.append "," (String.append n s)) "" names).
Proof.
  induction names as [|n names IH]; intros followers Hne; simpl.
  { by rewrite append_nil_r. }
  unfold joinOnto in *. simpl.
  rewrite (proj2 (length_pos_iff followers) Hne).
  rewrite IH by (by destruct followers).
  by rewrite !append_assoc.
Qed.

Lemma joinOnto_concat names :
  Forall (λ name, name ≠ "") names → joinOnto "" names = String.concat "," names.
Proof.
  destruct 1 as [|name names Hname Hnames]; [done|].
  rewrite concat_comma_cons. unfold joinOnto. simpl.
  by apply joinOnto_nonempty.
Qed.

Lemma last_cons_default {A : Type} (l : list A) : ∀ x d : A,
  default d (last (x :: l)) = default x (last l).
Proof.
  induction l as [|y l IH]; intros x d; [done|].
  change (last (x :: y :: l)) with (last (y :: l)). by rewrite !IH.
Qed.

Lemma leaderKey_ne_followersKey ToUpper componentName :
  leaderKey ToUpper componentName ≠ followersKey ToUpper componentName.
Proof.
  unfold leaderKey, followersKey. intros H.
  by apply append_cancel_l, append_cancel_l in H.
Qed.

Section ConfigPropagation.

Variable ToUpper : string → string.

Lemma collectRoleInfo_spec component spec pods : ∀ leader followers,
  ClusterComponentDefinition.ConsensusSpec component = Some spec →
  collectRoleInfo component pods leader followers
  = Some (default leader
            (last (Pod.Name <$>
                     filter (λ pod, roleOfLabel spec (Pod.RoleLabel pod) = Some roleLeader)
                       pods)),
          joinOnto followers (followerNames spec pods)).
Proof.
  intros leader followers Hspec. revert leader followers.
  induction pods as [|pod pods IH]; intros leader followers; [done|].
  simpl. unfold composeConsensusRoleMap. rewrite Hspec. simpl.
  unfold followerNames, roleOfLabel in *.
  destruct (composeRoles spec !! Pod.RoleLabel pod) as [ext|] eqn:Hext; simpl.
  2: { rewrite !filter_cons_False by (rewrite Hext; done). apply IH. }
  destruct (String.eqb_spec (consensusMemberExt.consensusRole ext) roleLeader) as [Hrole|Hnl].
  { rewrite filter_cons_True by (rewrite Hext; simpl; by rewrite Hrole).
    rewrite filter_cons_False by (rewrite Hext; simpl; by rewrite Hrole).
    rewrite IH, fmap_cons. by rewrite last_cons_default. }
  destruct (String.eqb_spec (consensusMemberExt.consensusRole ext) roleFollower) as [Hrole|Hnf].
  { rewrite filter_cons_False by (rewrite Hext; simpl; by rewrite Hrole).
    rewrite filter_cons_True by (rewrite Hext; simpl; by rewrite Hrole).
    rewrite IH, fmap_cons. done. }
  rewrite !filter_cons_False by (rewrite Hext; simpl; congruence). apply IH.
Qed.

Lemma patchConfigs_spec cli componentName leader followers items :
  Forall (λ config, is_Some (ConfigMap.Data config)) items →
  (∀ config, Client.Patch cli config = Datatypes.None) →
  patchConfigs ToUpper cli componentName leader followers items
  = Some (Datatypes.None,
          (λ config, PatchConfigMap (propagated ToUpper componentName leader followers config))
            <$> items).
Proof.
  intros Hdata Hpatch. induction Hdata as [|config items [data Hdata] _ IH]; [done|].
  simpl. rewrite Hdata. simpl. rewrite Hpatch, IH. simpl.
  unfold propagated. by rewrite Hdata.
Qed.

(** C6, amended. When the config maps of the component are listed, each has
    data and no patch fails, the config propagation patches every one of them,
    in order, with the key KB_<COMPONENT>_LEADER set to the name of the last
    pod of the list whose label is the leader's (the empty string if there is
    none) and the key KB_<COMPONENT>_FOLLOWERS set to the names of the pods
    whose label is a follower's, joined by commas in the order of the pod
    list; ready or not, every pod counts. Pod names are not empty. *)
Theorem config_propagation_in_pod_order (cli : Client.t)
    (component : ClusterComponentDefinition.t) (spec : ConsensusSetSpec.t)
    (componentName : string) (pods : list Pod.t) (items : list ConfigMap.t) :
  ClusterComponentDefinition.ConsensusSpec component = Some spec →
  Forall (λ pod, Pod.Name pod ≠ "") pods →
  Client.List cli = inr items →
  Forall (λ config, is_Some (ConfigMap.Data config)) items →
  (∀ config, Client.Patch cli config = Datatypes.None) →
  let leader := leaderName spec pods in
  let followers := String.concat "," (followerNames spec pods) in
  updateConsensusRoleInfo ToUpper cli component componentName pods
  = Some (Datatypes.None,
          (λ config, PatchConfigMap (propagated ToUpper componentName leader followers config))
            <$> items)
  ∧ (∀ config data,
       ConfigMap.Data (propagated ToUpper componentName leader followers config) = Some data →
       data !! leaderKey ToUpper componentName = Some leader
       ∧ data !! followersKey ToUpper componentName = Some followers).
Proof.
  intros Hspec Hnames Hlist Hdata Hpatch leader followers. split.
  - unfold updateConsensusRoleInfo.
    rewrite (collectRoleInfo_spec component spec pods "" "" Hspec). simpl.
    rewrite Hlist. rewrite joinOnto_concat.
    + by apply patchConfigs_spec.
    + unfold followerNames. apply Forall_fmap. apply Forall_forall.
      intros pod [_ Hpod]%list_elem_of_filter.
      by apply (proj1 (Forall_forall _ _) Hnames).
  - intros config data [= <-]. split.
    + rewrite lookup_insert_ne by (apply not_eq_sym, leaderKey_ne_followersKey).
      apply lookup_insert_eq.
    + apply lookup_insert_eq.
Qed.

End ConfigPropagation.

Lemma config_propagation_sample :
  let cli := Sample.client (Some Sample.component) Sample.pods [Sample.config]
               Datatypes.None Datatypes.None Datatypes.None in
  Forall (λ pod, Pod.Name pod ≠ "") Sample.pods
  ∧ updateConsensusRoleInfo Sample.toUpper cli Sample.component "mysql" Sample.pods
    = Some (Datatypes.None,
            [PatchConfigMap
               (ConfigMap.mk "mysql-env"
                  (Some (<["KB_MYSQL_FOLLOWERS" := "mysql-1,mysql-2"]>
                           (<["KB_MYSQL_LEADER" := "mysql-0"]> ∅))))]).
Proof.
  intros cli.
  assert (Hnames : Forall (λ pod, Pod.Name pod ≠ "") Sample.pods)
    by (repeat constructor; done).
  split; [exact Hnames|].
  destruct (config_propagation_in_pod_order Sample.toUpper cli Sample.component
              Sample.consensusSpec "mysql" Sample.pods [Sample.config]
              eq_refl Hnames eq_refl) as [Hsent _].
  - repeat constructor. by eexists.
  - done.
  - rewrite Hsent. by vm_compute.
Defined.

(** C6 as stated fails: two followers listed against the order of their
    names are joined in the order of the list, "mysql-1,mysql-0", and not in
    the order of the names, "mysql-0,mysql-1". *)
Lemma config_followers_not_sorted :
  let cli := Sample.client (Some Sample.component) Sample.unsortedPods [Sample.config]
               Datatypes.None Datatypes.None Datatypes.None in
  updateConsensusRoleInfo Sample.toUpper cli Sample.component "mysql" Sample.unsortedPods
  = Some (Datatypes.None,
          [PatchConfigMap
             (ConfigMap.mk "mysql-env"
                (Some (<["KB_MYSQL_FOLLOWERS" := "mysql-1,mysql-0"]>
                         (<["KB_MYSQL_LEADER" := ""]> ∅))))])
  ∧ String.concat "," (SliceStable stringLess (Pod.Name <$> Sample.unsortedPods))
    = "mysql-0,mysql-1"
  ∧ "mysql-1,mysql-0" ≠ "mysql-0,mysql-1".
Proof. by vm_compute. Qed.

(** ** The scenario of a stale follower *)

(** Three pods under the best-effort-parallel strategy, two of them followers
    and the first follower stale: the first batch is that follower alone, the
    walk deletes it and the pass is not complete. *)
Example stale_follower_scenario :
  let spec :=
    ConsensusSetSpec.mk (ConsensusMember.mk "leader" appsv1alpha1.ReadWrite)
      [ConsensusMember.mk "follower" appsv1alpha1.Readonly] Datatypes.None
      appsv1alpha1.BestEffortParallelStrategy in
  let component := ClusterComponentDefinition.mk appsv1alpha1.Consensus (Some spec) in
  let follower0 := Sample.pod "mysql-0" 0 "follower" "rev-1" in
  let follower1 := Sample.pod "mysql-1" 1 "follower" "rev-2" in
  let leader := Sample.pod "mysql-2" 2 "leader" "rev-2" in
  let pods := [leader; follower0; follower1] in
  let cli := Sample.client (Some component) pods [] Datatypes.None Datatypes.None
               Datatypes.None in
  planBatches <$> generateConsensusUpdatePlan Sample.defaultLeader pods component
  = Some [[Some follower0]; [Some follower1]; [Some leader]]
  ∧ (generateConsensusUpdatePlan Sample.defaultLeader pods component
       ≫= λ plan, Some (WalkOneStep (WalkFunc cli (Sample.sts 1 1 3)) plan))
    = Some ((false, Datatypes.None), [DeletePod follower0]).
Proof. by vm_compute. Qed.

(** ** The order of the pods *)

Lemma podLess_rank m a b priority ordinal :
  podLess m a b = true → sameRank m priority ordinal b → ¬ sameRank m priority ordinal a.
Proof.
  unfold podLess, sameRank, podPriority. intros Hless [Hp Ho] [Hp' Ho'].
  rewrite Hp, Hp', Ho, Ho', Z.eqb_refl in Hless. lia.
Qed.

Lemma insertStable_rank m priority ordinal x l :
  filter (sameRank m priority ordinal) (insertStable (podLess m) x l)
  = filter (sameRank m priority ordinal) (x :: l).
Proof.
  induction l as [|y l IH]; [done|]. simpl.
  destruct (podLess m y x) eqn:Hless; [|done].
  destruct (decide (sameRank m priority ordinal x)) as [Hx|Hx].
  - assert (Hy : ¬ sameRank m priority ordinal y) by eauto using podLess_rank.
    rewrite (filter_cons_False _ y) by done. rewrite IH.
    rewrite !(filter_cons_True _ x) by done. by rewrite (filter_cons_False _ y) by done.
  - rewrite (filter_cons_False _ x) by done.
    destruct (decide (sameRank m priority ordinal y)) as [Hy|Hy].
    + rewrite !(filter_cons_True _ y) by done. rewrite IH.
      by rewrite (filter_cons_False _ x) by done.
    + rewrite !(filter_cons_False _ y) by done. rewrite IH.
      by rewrite (filter_cons_False _ x) by done.
Qed.

(** X1. [SortPods] returns the pods of the list, each as often as the list
    has it, in the order of the priority of their labels and, for one
    priority, of their ordinals; pods of the same priority and ordinal keep
    the order they had, and sorting a sorted list changes nothing. *)
Theorem SortPods_stable_sort (m : gmap string Z) (pods : list Pod.t) :
  sortedPods m (SortPods pods m)
  ∧ SortPods pods m ≡ₚ pods
  ∧ (∀ priority ordinal,
       filter (sameRank m priority ordinal) (SortPods pods m)
       = filter (sameRank m priority ordinal) pods)
  ∧ SortPods (SortPods pods m) m = SortPods pods m.
Proof.
  split; [apply SortPods_sorted|]. split; [apply SortPods_Permutation|]. split.
  - intros priority ordinal. unfold SortPods, SliceStable.
    induction pods as [|pod pods IH]; [done|]. simpl.
    rewrite insertStable_rank.
    destruct (decide (sameRank m priority ordinal pod)).
    + rewrite !(filter_cons_True _ pod) by done. by rewrite IH.
    + rewrite !(filter_cons_False _ pod) by done. by rewrite IH.
  - apply SliceStable_of_sorted, SortPods_sorted.
Qed.

(** ** The plans of the strategies *)

Lemma filter_singletons {A : Type} (l : list A) :
  filter (λ pods : list A, pods ≠ []) ((λ x, [x]) <$> l) = (λ x, [x]) <$> l.
Proof.
  induction l as [|x l IH]; [done|]. rewrite fmap_cons.
  rewrite filter_cons_True by done. by rewrite IH.
Qed.

Section Strategies.

Variable DefaultLeader : ConsensusMember.t.

(** X2. With the strategy Serial the plan walks the pods one at a time, in
    the order of [SortPods]: every batch holds one pod. With the strategy
    Parallel the plan has one batch, which holds all the pods in that order,
    and no batch when there is no pod. *)
Theorem serial_and_parallel_batches (component : ClusterComponentDefinition.t)
    (spec : ConsensusSetSpec.t) (pods : list Pod.t) :
  ClusterComponentDefinition.ConsensusSpec component = Some spec →
  let sorted := SortPods pods (ComposeRolePriorityMap DefaultLeader component) in
  (ConsensusSetSpec.UpdateStrategy spec = appsv1alpha1.SerialStrategy →
   ∃ plan, generateConsensusUpdatePlan DefaultLeader pods component = Some plan
           ∧ planBatches plan = (λ pod, [Some pod]) <$> sorted)
  ∧ (ConsensusSetSpec.UpdateStrategy spec = appsv1alpha1.ParallelStrategy →
     ∃ plan, generateConsensusUpdatePlan DefaultLeader pods component = Some plan
             ∧ planBatches plan = if decide (pods = []) then [] else [Some <$> sorted]).
Proof.
  intros Hspec sorted. split; intros Hstrategy.
  - assert (Hin : ConsensusSetSpec.UpdateStrategy spec
                   ∈ [appsv1alpha1.SerialStrategy; appsv1alpha1.ParallelStrategy;
                      appsv1alpha1.BestEffortParallelStrategy])
      by (rewrite Hstrategy; set_solver).
    destruct (generateConsensusUpdatePlan_linked DefaultLeader component spec pods Hspec Hin)
      as (batches & Hplan & _ & Hserial & _).
    exists (mkStep Datatypes.None (linked batches)). split; [done|].
    rewrite planBatches_linked, (Hserial Hstrategy), filter_singletons.
    fold sorted. rewrite <- list_fmap_compose. done.
  - assert (Hin : ConsensusSetSpec.UpdateStrategy spec
                   ∈ [appsv1alpha1.SerialStrategy; appsv1alpha1.ParallelStrategy;
                      appsv1alpha1.BestEffortParallelStrategy])
      by (rewrite Hstrategy; set_solver).
    destruct (generateConsensusUpdatePlan_linked DefaultLeader component spec pods Hspec Hin)
      as (batches & Hplan & _ & _ & Hparallel & _).
    exists (mkStep Datatypes.None (linked batches)). split; [done|].
    rewrite planBatches_linked, (Hparallel Hstrategy). fold sorted.
    assert (Hperm : sorted ≡ₚ pods) by apply SortPods_Permutation.
    destruct (decide (pods = [])) as [->|Hne].
    + apply Permutation_nil_r in Hperm. rewrite Hperm. done.
    + rewrite filter_cons_True; [done|].
      intros Heq. rewrite Heq in Hperm. symmetry in Hperm.
      by apply Permutation_nil_r in Hperm.
Qed.

(** X3. The [switch] over the update strategy has no default case: for a
    strategy that is none of Serial, Parallel and BestEffortParallel, the
    empty one included, the plan is made without a step, whatever the pods
    are, so that no pod is ever walked. *)
Theorem other_strategy_empty_plan (component : ClusterComponentDefinition.t)
    (spec : ConsensusSetSpec.t) (pods : list Pod.t) :
  ClusterComponentDefinition.ConsensusSpec component = Some spec →
  ConsensusSetSpec.UpdateStrategy spec
    ∉ [appsv1alpha1.SerialStrategy; appsv1alpha1.ParallelStrategy;
       appsv1alpha1.BestEffortParallelStrategy] →
  ∃ plan, generateConsensusUpdatePlan DefaultLeader pods component = Some plan
          ∧ planBatches plan = [] ∧ planPods plan = [].
Proof.
  intros Hspec Hstrategy. unfold generateConsensusUpdatePlan. rewrite Hspec. simpl.
  destruct (String.eqb_spec (ConsensusSetSpec.UpdateStrategy spec) appsv1alpha1.SerialStrategy)
    as [Heq|_]; [rewrite Heq in Hstrategy; set_solver|].
  destruct (String.eqb_spec (ConsensusSetSpec.UpdateStrategy spec) appsv1alpha1.ParallelStrategy)
    as [Heq|_]; [rewrite Heq in Hstrategy; set_solver|].
  destruct (String.eqb_spec (ConsensusSetSpec.UpdateStrategy spec)
              appsv1alpha1.BestEffortParallelStrategy)
    as [Heq|_]; [rewrite Heq in Hstrategy; set_solver|].
  eexists. split; [done|]. done.
Qed.

End Strategies.

(** ** The best-effort-parallel plan of any list *)

(** X4. [generateConsensusBestEffortParallelPlan] never indexes or slices
    out of range, whatever the order of the pod list and whatever the
    priority map: the plan is always made, and it holds as many pods as the
    list has, the pods up to the learner priority followed by the pods of the
    list from the position of their number on. *)
Theorem best_effort_parallel_in_range (m : gmap string Z) (pods : list Pod.t) :
  ∃ plan,
    generateConsensusBestEffortParallelPlan (mkStep Datatypes.None []) pods m = Some plan
    ∧ planPods plan ≡ₚ lowPods m pods ++ drop (length (lowPods m pods)) pods
    ∧ length (planPods plan) = length pods.
Proof.
  rewrite generateConsensusBestEffortParallelPlan_closed. cbv zeta.
  rewrite appendBatches_leaf. eexists. split; [done|].
  set (podList := drop (length (lowPods m pods)) pods).
  set (F := length (filter (λ pod, podPriority m pod < leaderPriority) podList)).
  assert (Hpods : planPods (mkStep Datatypes.None
                    (linked [lowPods m pods; take (F / 2) podList;
                             take (F - F / 2) (drop (F / 2) podList);
                             drop (F - F / 2) (drop (F / 2) podList)]))
                  ≡ₚ lowPods m pods ++ podList).
  { rewrite planPods_linked. simpl. rewrite app_nil_r.
    by rewrite (take_drop (F - F / 2)), (take_drop (F / 2)). }
  split; [done|]. rewrite Hpods, length_app. unfold podList. rewrite length_drop.
  pose proof (length_filter (λ pod, podPriority m pod ≤ learnerPriority) pods).
  unfold lowPods. lia.
Qed.

(** ** The precedence of the entries of the two maps *)

Lemma fold_putFollower_last label fs : ∀ roleMap : gmap string consensusMemberExt.t,
  fold_left
    (fun roleMap follower =>
       putConsensusMemberExt roleMap (ConsensusMember.Name follower) roleFollower
         (ConsensusMember.AccessMode follower)) fs roleMap !! label
  = match lastMember wellFormed label fs with
    | Some f => Some (extOf roleFollower f)
    | Datatypes.None => roleMap !! label
    end.
Proof.
  unfold lastMember. induction fs as [|f fs IH]; intros roleMap; [done|]. simpl.
  rewrite IH. destruct (decide (ConsensusMember.Name f = label ∧ wellFormed f)) as [Hyes|Hno].
  - rewrite filter_cons_True by done. rewrite last_cons.
    destruct (last (filter _ fs)) as [g|]; [done|].
    rewrite putConsensusMemberExt_lookup by done.
    rewrite bool_decide_eq_true_2; [done|]. by destruct Hyes as [? [? ?]].
  - rewrite filter_cons_False by done.
    destruct (last (filter _ fs)) as [g|]; [done|].
    rewrite putConsensusMemberExt_lookup by done.
    rewrite bool_decide_eq_false_2; [done|]. intros (? & ? & ?). by apply Hno.
Qed.

(** X5. The priority [ComposeRolePriorityMap] gives a label, entry by
    entry: that of the last follower of the spec that carries the label with
    one of the three access modes; without such a follower the learner
    priority when the learner carries the label, else the leader priority
    when the leader does, else the empty-label priority for the empty label,
    else zero. The followers are written last, the learner before them, the
    leader before the learner. *)
Theorem priority_map_precedence (DefaultLeader : ConsensusMember.t)
    (component : ClusterComponentDefinition.t) (label : string) :
  priorityOf (ComposeRolePriorityMap DefaultLeader component) label
  = let spec := specOrDefault DefaultLeader component in
    match lastMember (λ f, recognised (ConsensusMember.AccessMode f)) label
            (ConsensusSetSpec.Followers spec) with
    | Some f => default 0 (followerPriority (ConsensusMember.AccessMode f))
    | Datatypes.None =>
        if decide (ConsensusMember.Name <$> ConsensusSetSpec.Learner spec = Some label)
        then learnerPriority
        else if decide (ConsensusMember.Name (ConsensusSetSpec.Leader spec) = label)
        then leaderPriority
        else if decide (label = "") then emptyPriority else 0
    end.
Proof.
  cbv zeta. unfold ComposeRolePriorityMap, specOrDefault, priorityOf.
  set (spec := match ClusterComponentDefinition.ConsensusSpec component with
               | Some spec => spec
               | Datatypes.None => ConsensusSetSpec.mk DefaultLeader [] Datatypes.None ""
               end).
  unfold composePriorities. rewrite fold_putFollowerPriority_last.
  destruct (lastMember _ label (ConsensusSetSpec.Followers spec)) as [f|]; [done|].
  assert (Hbase : default 0
            ((<[ConsensusMember.Name (ConsensusSetSpec.Leader spec) := leaderPriority]>
                (<["" := emptyPriority]> (∅ : gmap string Z))) !! label)
          = if decide (ConsensusMember.Name (ConsensusSetSpec.Leader spec) = label)
            then leaderPriority
            else if decide (label = "") then emptyPriority else 0).
  { destruct (decide (ConsensusMember.Name (ConsensusSetSpec.Leader spec) = label)) as [<-|Hne].
    - by rewrite lookup_insert_eq.
    - rewrite lookup_insert_ne by done.
      destruct (decide (label = "")) as [->|Hne'].
      + by rewrite lookup_insert_eq.
      + rewrite lookup_insert_ne by done. by rewrite lookup_empty. }
  destruct (ConsensusSetSpec.Learner spec) as [learner|]; simpl.
  - destruct (decide (Some (ConsensusMember.Name learner) = Some label)) as [Heq|Hne].
    + inversion Heq. by rewrite lookup_insert_eq.
    + rewrite lookup_insert_ne by congruence. apply Hbase.
  - destruct (decide (Datatypes.None = Some label)); [done|]. apply Hbase.
Qed.

(** X6. The entry [composeConsensusRoleMap] gives a label, entry by entry:
    that of the learner when the learner carries the label with a name and
    an access mode that are not empty; otherwise that of the last such
    follower; otherwise that of the leader when it is such a member;
    otherwise none. Here the learner is written last, after the followers. *)
Theorem role_map_precedence (workloadType : WorkloadType) (spec : ConsensusSetSpec.t)
    (label : string) :
  (roleMap ← composeConsensusRoleMap (ClusterComponentDefinition.mk workloadType (Some spec));
   roleMap !! label)
  = let ofOthers :=
      match lastMember wellFormed label (ConsensusSetSpec.Followers spec) with
      | Some f => Some (extOf roleFollower f)
      | Datatypes.None =>
          if decide (named label (ConsensusSetSpec.Leader spec))
          then Some (extOf roleLeader (ConsensusSetSpec.Leader spec))
          else Datatypes.None
      end in
    match ConsensusSetSpec.Learner spec with
    | Some learner =>
        if decide (named label learner) then Some (extOf roleLearner learner) else ofOthers
    | Datatypes.None => ofOthers
    end.
Proof.
  cbv zeta. simpl. unfold composeRoles.
  assert (Hothers :
    fold_left
      (fun roleMap follower =>
         putConsensusMemberExt roleMap (ConsensusMember.Name follower) roleFollower
           (ConsensusMember.AccessMode follower)) (ConsensusSetSpec.Followers spec)
      (putConsensusMemberExt ∅ (ConsensusMember.Name (ConsensusSetSpec.Leader spec))
         roleLeader (ConsensusMember.AccessMode (ConsensusSetSpec.Leader spec)))
      !! label
    = match lastMember wellFormed label (ConsensusSetSpec.Followers spec) with
      | Some f => Some (extOf roleFollower f)
      | Datatypes.None =>
          if decide (named label (ConsensusSetSpec.Leader spec))
          then Some (extOf roleLeader (ConsensusSetSpec.Leader spec))
          else Datatypes.None
      end).
  { rewrite fold_putFollower_last.
    destruct (lastMember wellFormed label _) as [f|]; [done|].
    rewrite putConsensusMemberExt_lookup by done. unfold named, wellFormed.
    case_bool_decide as Hc; destruct (decide _) as [Hd|Hd]; try done;
      exfalso; naive_solver. }
  destruct (ConsensusSetSpec.Learner spec) as [learner|]; [|exact Hothers].
  rewrite putConsensusMemberExt_lookup by done. unfold named at 1, wellFormed at 1.
  case_bool_decide as Hc.
  - by rewrite decide_True by done.
  - by rewrite decide_False by done.
Qed.

(** X7. The two maps order their entries differently, so a spec that gives
    one name to the learner and to a follower is read in two ways: the role
    map takes the label for the learner's, while the priority map gives it
    the priority of a follower, above the learner priority and below the
    leader priority. *)
Theorem learner_and_follower_share_name (spec : ConsensusSetSpec.t)
    (learner f : ConsensusMember.t) :
  ConsensusSetSpec.Learner spec = Some learner →
  wellFormed learner →
  f ∈ ConsensusSetSpec.Followers spec →
  ConsensusMember.Name f = ConsensusMember.Name learner →
  recognised (ConsensusMember.AccessMode f) →
  roleOfLabel spec (ConsensusMember.Name learner) = Some roleLearner
  ∧ learnerPriority < priorityOf (composePriorities spec) (ConsensusMember.Name learner)
    < leaderPriority.
Proof.
  intros Hlearner Hwf Hf Hname Hmode. split.
  - unfold roleOfLabel, composeRoles. rewrite Hlearner.
    rewrite putConsensusMemberExt_lookup by done.
    rewrite bool_decide_eq_true_2; [done|]. by destruct Hwf.
  - unfold priorityOf, composePriorities. rewrite fold_putFollowerPriority_last.
    assert (Hin : f ∈ filter (λ g, ConsensusMember.Name g = ConsensusMember.Name learner
                                   ∧ recognised (ConsensusMember.AccessMode g))
                         (ConsensusSetSpec.Followers spec))
      by (by apply list_elem_of_filter).
    unfold lastMember.
    destruct (last (filter _ (ConsensusSetSpec.Followers spec))) as [g|] eqn:Hlast.
    + apply last_Some in Hlast as [l' Hl'].
      assert (Hg : g ∈ filter (λ g, ConsensusMember.Name g = ConsensusMember.Name learner
                                    ∧ recognised (ConsensusMember.AccessMode g))
                          (ConsensusSetSpec.Followers spec))
        by (rewrite Hl'; set_solver).
      apply list_elem_of_filter in Hg as [[_ Hg] _].
      unfold followerPriority.
      destruct Hg as [->|[->| ->]]; vm_compute; split; congruence.
    + apply last_None in Hlast. rewrite Hlast in Hin. by apply elem_of_nil in Hin.
Qed.

Lemma learner_and_follower_share_name_sample :
  roleOfLabel Fixture.sharedName "replica" = Some roleLearner
  ∧ learnerPriority < priorityOf (composePriorities Fixture.sharedName) "replica"
    < leaderPriority.
Proof.
  apply (learner_and_follower_share_name Fixture.sharedName
           (ConsensusMember.mk "replica" appsv1alpha1.None)
           (ConsensusMember.mk "replica" appsv1alpha1.Readonly)).
  - reflexivity.
  - split; discriminate.
  - vm_compute. right. left.
  - reflexivity.
  - right. left. reflexivity.
Defined.

(** ** The removal loop on followers that are not distinct *)

Lemma last_lookup_length {A : Type} (l : list A) (y : A) :
  last l = Some y → l !! (length l - 1)%nat = Some y.
Proof.
  intros [l' ->]%last_Some. rewrite length_app. simpl.
  replace (length l' + 1 - 1)%nat with (length l' + 0)%nat by lia.
  by rewrite lookup_app_r, Nat.add_0_r, Nat.sub_diag by lia.
Qed.

Lemma resetFollowersLoop_stale podName y n : ∀ index backing len,
  last backing = Some y →
  ConsensusMemberStatus.Pod y = podName →
  length backing = (index + n)%nat →
  (0 < n)%nat →
  (len ≤ length backing)%nat →
  ((len < length backing)%nat
   ∨ ∃ i member, (index ≤ i < length backing - 1)%nat ∧ backing !! i = Some member
                 ∧ ConsensusMemberStatus.Pod member = podName) →
  resetFollowersLoop podName n index backing len = Datatypes.None.
Proof.
  induction n as [|n IH]; intros index backing len Hlast Hy Hlen Hn Hle Hcase; [lia|].
  simpl. destruct (backing !! index) as [member|] eqn:Hmember; [|done]. simpl.
  pose proof (last_lookup_length _ _ Hlast) as Hend.
  destruct (String.eqb_spec (ConsensusMemberStatus.Pod member) podName) as [Hpod|Hpod].
  - destruct (index + 1 <=? len)%nat eqn:Hin; [|done].
    apply Nat.leb_le in Hin.
    assert (Hmore : (index + 1 < length backing)%nat).
    { destruct Hcase as [?|(i & ? & ? & _)]; lia. }
    apply IH.
    + rewrite !last_app.
      assert (Hdrop : last (drop (len - 1) backing) = Some y).
      { rewrite last_lookup, lookup_drop, length_drop, <- Hend. f_equal. lia. }
      by rewrite Hdrop.
    + done.
    + rewrite !length_app, length_take, length_drop, length_take, length_drop. lia.
    + lia.
    + rewrite !length_app, length_take, length_drop, length_take, length_drop. lia.
    + left. rewrite !length_app, length_take, length_drop, length_take, length_drop. lia.
  - assert (Hne : index ≠ (length backing - 1)%nat).
    { intros ->. rewrite Hend in Hmember. inversion Hmember; subst. done. }
    apply lookup_lt_Some in Hmember as Hlt.
    apply IH; try done; try lia.
    destruct Hcase as [?|(i & member' & Hi & Hmember' & Hpod')]; [by left|].
    right. exists i, member'. split; [|done].
    assert (i ≠ index) by (intros ->; congruence). lia.
Qed.

(** X8. The loop that removes a pod from the followers is written for
    followers of distinct pods: then it returns the followers of the other
    pods, in their order. When the pod is the last follower and is among the
    followers before as well, the loop slices beyond the shortened list and
    panics. *)
Theorem resetFollowers_distinct_or_panic (podName : string)
    (followers : list ConsensusMemberStatus.t) :
  (NoDup (ConsensusMemberStatus.Pod <$> followers) →
   resetFollowers podName followers
   = Some (filter (λ member, ConsensusMemberStatus.Pod member ≠ podName) followers))
  ∧ (∀ l1 x l2 y,
       followers = l1 ++ x :: l2 ++ [y] →
       ConsensusMemberStatus.Pod x = podName →
       ConsensusMemberStatus.Pod y = podName →
       resetFollowers podName followers = Datatypes.None).
Proof.
  split; [apply resetFollowers_NoDup|].
  intros l1 x l2 y -> Hx Hy. unfold resetFollowers.
  rewrite (resetFollowersLoop_stale podName y); [done| |done| | | |].
  - by rewrite app_comm_cons, app_assoc, last_snoc.
  - done.
  - rewrite length_app. simpl. rewrite length_app. simpl. lia.
  - done.
  - right. exists (length l1), x. split; [|split; [|done]].
    + rewrite length_app. simpl. rewrite length_app. simpl. lia.
    + by rewrite lookup_app_r, Nat.sub_diag by lia.
Qed.

Lemma resetFollowers_distinct_or_panic_sample :
  resetFollowers "mysql-1" [Fixture.follower "mysql-0"; Fixture.follower "mysql-1"]
  = Some [Fixture.follower "mysql-0"]
  ∧ resetFollowers "mysql-1"
      [Fixture.follower "mysql-1"; Fixture.follower "mysql-0"; Fixture.follower "mysql-1"]
    = Datatypes.None.
Proof.
  split.
  - apply (proj1 (resetFollowers_distinct_or_panic "mysql-1"
                    [Fixture.follower "mysql-0"; Fixture.follower "mysql-1"])).
    simpl. repeat constructor; set_solver.
  - apply (proj2 (resetFollowers_distinct_or_panic "mysql-1"
                    [Fixture.follower "mysql-1"; Fixture.follower "mysql-0";
                     Fixture.follower "mysql-1"])
             [] (Fixture.follower "mysql-1") [Fixture.follower "mysql-0"]
             (Fixture.follower "mysql-1")); reflexivity.
Defined.

(** ** The status of a pass in closed form *)

Section StatusClosed.

Variable defaultPodName : string.

Lemma resetConsensusSetStatusRole_fresh s podName s1 :
  slotsConsistent defaultPodName s →
  podName ∉ followerPods s → podName ∉ learnerPods s →
  (ConsensusMemberStatus.Pod (ConsensusSetStatus.Leader s) = podName
   → podName = defaultPodName) →
  resetConsensusSetStatusRole defaultPodName s podName = Some s1 →
  ConsensusMemberStatus.Pod (ConsensusSetStatus.Leader s1)
  = ConsensusMemberStatus.Pod (ConsensusSetStatus.Leader s)
  ∧ ConsensusSetStatus.Followers s1 = ConsensusSetStatus.Followers s
  ∧ learnerPods s1 = learnerPods s.
Proof.
  intros (Hnd & _)%slotsConsistent_iff Hf Hl Hleader. unfold resetConsensusSetStatusRole.
  rewrite resetFollowers_slice by exact Hnd. simpl. intros [= <-]. simpl.
  split; [|split].
  - destruct (String.eqb_spec (ConsensusMemberStatus.Pod (ConsensusSetStatus.Leader s)) podName)
      as [Heq|_]; [|done]. simpl. rewrite Heq. symmetry. by apply Hleader.
  - unfold followerPods in Hf.
    destruct (ConsensusSetStatus.Followers s) as [followers|]; [|done]. simpl in *.
    f_equal. apply filter_all, Forall_forall.
    intros x Hx Hpod. apply Hf. rewrite <- Hpod. by apply list_elem_of_fmap_2.
  - unfold learnerPods in *. simpl.
    destruct (ConsensusSetStatus.Learner s) as [learner|]; [|done].
    destruct (String.eqb_spec (ConsensusMemberStatus.Pod learner) podName) as [Heq|_]; [|done].
    exfalso. apply Hl. simpl. rewrite Heq. set_solver.
Qed.

(** The setters never leave an empty slice that is not [nil]. *)
Lemma setConsensusSetStatusLeader_followers s memberExt :
  ConsensusSetStatus.Followers (fst (setConsensusSetStatusLeader s memberExt))
  = ConsensusSetStatus.Followers s.
Proof. unfold setConsensusSetStatusLeader. by destruct (String.eqb _ _). Qed.

Lemma setConsensusSetStatusLearner_followers s memberExt :
  ConsensusSetStatus.Followers (fst (setConsensusSetStatusLearner s memberExt))
  = ConsensusSetStatus.Followers s.
Proof. unfold setConsensusSetStatusLearner. simpl. by destruct (String.eqb _ _). Qed.

Lemma setConsensusSetStatusFollower_followers s memberExt :
  ConsensusSetStatus.Followers s ≠ Some [] →
  ConsensusSetStatus.Followers (fst (setConsensusSetStatusFollower s memberExt)) ≠ Some [].
Proof.
  intros Hs. unfold setConsensusSetStatusFollower. destruct (existsb _ _); [done|]. simpl.
  intros [= Hnil].
  pose proof (SliceStable_Permutation followerLess
                (elements (ConsensusSetStatus.Followers s)
                 ++ [ConsensusMemberStatus.mk (consensusMemberExt.name memberExt)
                       (consensusMemberExt.podName memberExt)
                       (consensusMemberExt.accessMode memberExt)])) as Hperm.
  rewrite Hnil in Hperm. apply Permutation_nil_l in Hperm. symmetry in Hperm.
  by apply app_nil in Hperm as [_ ?].
Qed.

(** The update for a pod that is in no slot yet. *)
Lemma setConsensusSetStatusRole_fresh component spec s label ext podName :
  ClusterComponentDefinition.ConsensusSpec component = Some spec →
  composeRoles spec !! label = Some ext →
  slotsConsistent defaultPodName s →
  podName ∉ followerPods s → podName ∉ learnerPods s →
  (ConsensusMemberStatus.Pod (ConsensusSetStatus.Leader s) = podName
   → podName = defaultPodName) →
  ∃ s' changed,
    setConsensusSetStatusRole defaultPodName s component label podName = Some (s', changed)
    ∧ slotsConsistent defaultPodName s'
    ∧ ConsensusMemberStatus.Pod (ConsensusSetStatus.Leader s')
      = (if decide (consensusMemberExt.consensusRole ext = roleLeader)
         then podName else ConsensusMemberStatus.Pod (ConsensusSetStatus.Leader s))
    ∧ followerPods s'
      ≡ₚ (if decide (consensusMemberExt.consensusRole ext = roleFollower)
          then followerPods s ++ [podName] else followerPods s)
    ∧ learnerPods s'
      = (if decide (consensusMemberExt.consensusRole ext = roleLearner)
         then [podName] else learnerPods s)
    ∧ (ConsensusSetStatus.Followers s ≠ Some [] → ConsensusSetStatus.Followers s' ≠ Some []).
Proof.
  intros Hspec Hext Hs Hf Hl Hleader.
  unfold setConsensusSetStatusRole, composeConsensusRoleMap. rewrite Hspec. simpl.
  rewrite Hext.
  destruct (resetConsensusSetStatusRole_spec defaultPodName s podName Hs)
    as (s1 & Hreset & Hs1 & Hp1 & Hf1 & Hl1 & _).
  destruct (resetConsensusSetStatusRole_fresh s podName s1 Hs Hf Hl Hleader Hreset)
    as (Hleader1 & Hslice1 & Hls1).
  assert (Hfs1 : followerPods s1 = followerPods s) by (unfold followerPods; by rewrite Hslice1).
  simpl. rewrite Hreset. simpl.
  destruct (String.eqb_spec (consensusMemberExt.consensusRole ext) roleLeader) as [Hrole|Hnl].
  { destruct (setConsensusSetStatusLeader_spec defaultPodName s1
                (consensusMemberExt.name ext) (consensusMemberExt.consensusRole ext)
                (consensusMemberExt.accessMode ext) podName Hs1 Hf1 Hl1)
      as (Hs2 & Hpod & Hf2 & Hl2).
    pose proof (setConsensusSetStatusLeader_followers s1
                  (consensusMemberExt.mk (consensusMemberExt.name ext)
                     (consensusMemberExt.consensusRole ext)
                     (consensusMemberExt.accessMode ext) podName)) as Hslice2.
    destruct (setConsensusSetStatusLeader s1 _) as [s2 changed]. simpl in *.
    exists s2, changed. rewrite Hrole. simpl.
    split; [done|]. split; [exact Hs2|]. split; [done|]. split; [|split].
    - by rewrite Hf2, Hfs1.
    - by rewrite Hl2, Hls1.
    - by rewrite Hslice2, Hslice1. }
  destruct (String.eqb_spec (consensusMemberExt.consensusRole ext) roleFollower) as [Hrole|Hnf].
  { destruct (setConsensusSetStatusFollower_spec defaultPodName s1
                (consensusMemberExt.name ext) (consensusMemberExt.consensusRole ext)
                (consensusMemberExt.accessMode ext) podName Hs1 Hp1 Hf1 Hl1)
      as (Hs2 & Hf2 & Hleader2 & Hl2).
    pose proof (setConsensusSetStatusFollower_followers s1
                  (consensusMemberExt.mk (consensusMemberExt.name ext)
                     (consensusMemberExt.consensusRole ext)
                     (consensusMemberExt.accessMode ext) podName)) as Hslice2.
    destruct (setConsensusSetStatusFollower s1 _) as [s2 changed]. simpl in *.
    exists s2, changed. rewrite Hrole. simpl.
    split; [done|]. split; [exact Hs2|]. split; [|split; [|split]].
    - by rewrite Hleader2.
    - by rewrite Hf2, Hfs1.
    - by rewrite Hl2, Hls1.
    - intros Hnil. apply Hslice2. by rewrite Hslice1. }
  destruct (String.eqb_spec (consensusMemberExt.consensusRole ext) roleLearner) as [Hrole|Hnr].
  { destruct (setConsensusSetStatusLearner_spec defaultPodName s1
                (consensusMemberExt.name ext) (consensusMemberExt.consensusRole ext)
                (consensusMemberExt.accessMode ext) podName Hs1 Hp1 Hf1 Hl1)
      as (Hs2 & Hl2 & Hleader2 & Hf2).
    pose proof (setConsensusSetStatusLearner_followers s1
                  (consensusMemberExt.mk (consensusMemberExt.name ext)
                     (consensusMemberExt.consensusRole ext)
                     (consensusMemberExt.accessMode ext) podName)) as Hslice2.
    destruct (setConsensusSetStatusLearner s1 _) as [s2 changed]. simpl in *.
    exists s2, changed. rewrite Hrole. simpl.
    split; [done|]. split; [exact Hs2|]. split; [|split; [|split]].
    - by rewrite Hleader2.
    - by rewrite Hf2, Hfs1.
    - done.
    - by rewrite Hslice2, Hslice1. }
  exists s1, false. rewrite !decide_False by done. rewrite Hfs1, Hslice1. done.
Qed.

Lemma readyNamesOf_cons spec role pod pods :
  readyNamesOf spec role (pod :: pods)
  = (if decide (Pod.Ready pod = true ∧ roleOfLabel spec (Pod.RoleLabel pod) = Some role)
     then [Pod.Name pod] else []) ++ readyNamesOf spec role pods.
Proof.
  unfold readyNamesOf. destruct (decide _) as [Hyes|Hno].
  - by rewrite filter_cons_True by done.
  - by rewrite filter_cons_False by done.
Qed.

Lemma setConsensusSetStatusRoles_closed component spec pods : ∀ s,
  ClusterComponentDefinition.ConsensusSpec component = Some spec →
  slotsConsistent defaultPodName s →
  NoDup (Pod.Name <$> filter (counted spec) pods) →
  (∀ x, x ∈ Pod.Name <$> filter (counted spec) pods →
        (x ∉ followerPods s) ∧ (x ∉ learnerPods s)
        ∧ (ConsensusMemberStatus.Pod (ConsensusSetStatus.Leader s) = x → x = defaultPodName)) →
  ∃ s',
    setConsensusSetStatusRoles defaultPodName s component pods = Some s'
    ∧ slotsConsistent defaultPodName s'
    ∧ ConsensusMemberStatus.Pod (ConsensusSetStatus.Leader s')
      = default (ConsensusMemberStatus.Pod (ConsensusSetStatus.Leader s))
          (last (readyNamesOf spec roleLeader pods))
    ∧ followerPods s' ≡ₚ followerPods s ++ readyNamesOf spec roleFollower pods
    ∧ learnerPods s'
      = match last (readyNamesOf spec roleLearner pods) with
        | Some x => [x]
        | Datatypes.None => learnerPods s
        end
    ∧ (ConsensusSetStatus.Followers s ≠ Some [] → ConsensusSetStatus.Followers s' ≠ Some []).
Proof.
  intros s Hspec. revert s.
  induction pods as [|pod pods IH]; intros s Hs Hnd Hfresh.
  { exists s. unfold readyNamesOf. rewrite !filter_nil. simpl. rewrite app_nil_r.
    split; [done|]. split; [exact Hs|]. done. }
  rewrite !readyNamesOf_cons.
  destruct (decide (counted spec pod)) as [[Hready [ext Hext]]|Hno].
  - rewrite filter_cons_True in Hnd, Hfresh by (split; [done|by exists ext]).
    rewrite fmap_cons in Hnd, Hfresh. apply NoDup_cons in Hnd as [Hnin Hnd].
    destruct (Hfresh (Pod.Name pod)) as (Hf & Hl & Hleader); [set_solver|].
    destruct (setConsensusSetStatusRole_fresh component spec s (Pod.RoleLabel pod) ext
                (Pod.Name pod) Hspec Hext Hs Hf Hl Hleader)
      as (s1 & changed & Hstep & Hs1 & Hleader1 & Hf1 & Hl1 & Hnil1).
    destruct (IH s1 Hs1 Hnd) as (s' & Hrest & Hs' & Hleader' & Hf' & Hl' & Hnil').
    { intros x Hx. destruct (Hfresh x) as (Hxf & Hxl & Hxleader); [set_solver|].
      assert (Hne : x ≠ Pod.Name pod) by (intros ->; done).
      split; [|split].
      - rewrite Hf1.
        destruct (decide (consensusMemberExt.consensusRole ext = roleFollower)); [|done].
        rewrite elem_of_app, list_elem_of_singleton. by intros [?|?].
      - rewrite Hl1.
        destruct (decide (consensusMemberExt.consensusRole ext = roleLearner)); [|done].
        by rewrite list_elem_of_singleton.
      - rewrite Hleader1.
        destruct (decide (consensusMemberExt.consensusRole ext = roleLeader));
          [congruence|done]. }
    exists s'.
    split; [simpl; rewrite Hready; simpl; rewrite Hstep; exact Hrest|]. split; [done|].
    assert (Hyes : ∀ role, consensusMemberExt.consensusRole ext = role →
              Pod.Ready pod = true ∧ roleOfLabel spec (Pod.RoleLabel pod) = Some role)
      by (intros role <-; unfold roleOfLabel; by rewrite Hext).
    assert (Hnot : ∀ role, consensusMemberExt.consensusRole ext ≠ role →
              ¬ (Pod.Ready pod = true ∧ roleOfLabel spec (Pod.RoleLabel pod) = Some role)).
    { intros role Hne [_ Heq]. unfold roleOfLabel in Heq. rewrite Hext in Heq.
      simpl in Heq. congruence. }
    split; [|split; [|split; [|by auto]]].
    + rewrite Hleader', Hleader1.
      destruct (decide (consensusMemberExt.consensusRole ext = roleLeader)) as [Hrole|Hrole].
      * rewrite decide_True by (by apply Hyes). simpl. by rewrite last_cons_default.
      * rewrite decide_False by (by apply Hnot). done.
    + rewrite Hf', Hf1.
      destruct (decide (consensusMemberExt.consensusRole ext = roleFollower)) as [Hrole|Hrole].
      * rewrite decide_True by (by apply Hyes). by rewrite <- app_assoc.
      * rewrite decide_False by (by apply Hnot). done.
    + rewrite Hl', Hl1.
      destruct (decide (consensusMemberExt.consensusRole ext = roleLearner)) as [Hrole|Hrole].
      * rewrite decide_True by (by apply Hyes). simpl. rewrite last_cons.
        by destruct (last (readyNamesOf spec roleLearner pods)).
      * rewrite decide_False by (by apply Hnot). done.
  - rewrite filter_cons_False in Hnd, Hfresh by done.
    destruct (IH s Hs Hnd Hfresh) as (s' & Hrest & Hs' & Hleader' & Hf' & Hl' & Hnil').
    exists s'. split.
    { simpl. destruct (Pod.Ready pod) eqn:Hready; simpl; [|done].
      unfold setConsensusSetStatusRole, composeConsensusRoleMap. rewrite Hspec. simpl.
      destruct (composeRoles spec !! Pod.RoleLabel pod) as [ext|] eqn:Hext; [|done].
      exfalso. apply Hno. split; [done|by exists ext]. }
    assert (Hnone : ∀ role,
              ¬ (Pod.Ready pod = true ∧ roleOfLabel spec (Pod.RoleLabel pod) = Some role)).
    { intros role [Hready Hrole]. apply Hno. split; [done|]. unfold roleOfLabel in Hrole.
      destruct (composeRoles spec !! Pod.RoleLabel pod); [done|discriminate]. }
    rewrite !decide_False by apply Hnone. done.
Qed.

Lemma stringLess_antisymm : AntiSymm (=) (notAfter stringLess).
Proof. intros a b Hab Hba. by apply stringLess_total. Qed.

(** X9. The status of a pass over pods of distinct names, slot by slot: the
    leader slot holds the last ready pod of the list whose label is the
    leader's, or the default pod name when there is none; the followers are
    the ready pods whose label is a follower's, in the order of their names;
    the learner slot holds the last ready pod whose label is the learner's, if
    there is one. A leader that a later leader replaces is in no slot. *)
Theorem status_of_distinct_pods (component : ClusterComponentDefinition.t)
    (spec : ConsensusSetSpec.t) (pods : list Pod.t) :
  ClusterComponentDefinition.ConsensusSpec component = Some spec →
  NoDup (Pod.Name <$> filter (counted spec) pods) →
  ∃ status,
    setConsensusSetStatusRoles defaultPodName (initialConsensusSetStatus defaultPodName)
      component pods = Some status
    ∧ ConsensusMemberStatus.Pod (ConsensusSetStatus.Leader status)
      = default defaultPodName (last (readyNamesOf spec roleLeader pods))
    ∧ followerPods status = SliceStable stringLess (readyNamesOf spec roleFollower pods)
    ∧ learnerPods status = option_list (last (readyNamesOf spec roleLearner pods)).
Proof.
  intros Hspec Hnd.
  destruct (setConsensusSetStatusRoles_closed component spec pods
              (initialConsensusSetStatus defaultPodName) Hspec
              (initialConsensusSetStatus_consistent defaultPodName) Hnd)
    as (status & Hstatus & Hs & Hleader & Hf & Hl & _).
  { intros x _. simpl. repeat split; [set_solver|set_solver|done]. }
  exists status. split; [done|]. split; [done|]. split.
  - apply (@StronglySorted_unique _ (notAfter stringLess) stringLess_antisymm).
    + by destruct Hs.
    + apply SliceStable_sorted; [apply stringLess_asym|apply stringLess_negtrans].
    + rewrite Hf. simpl. by rewrite SliceStable_Permutation.
  - rewrite Hl. by destruct (last _).
Qed.

(** X10. The status of a pass depends on the pods that are ready and carry
    a label of the role map only: the other pods of the list can be left
    out. *)
Theorem status_ignores_other_pods (component : ClusterComponentDefinition.t)
    (spec : ConsensusSetSpec.t) (pods : list Pod.t) (status : ConsensusSetStatus.t) :
  ClusterComponentDefinition.ConsensusSpec component = Some spec →
  setConsensusSetStatusRoles defaultPodName status component pods
  = setConsensusSetStatusRoles defaultPodName status component (filter (counted spec) pods).
Proof.
  intros Hspec. revert status.
  induction pods as [|pod pods IH]; intros status; [done|].
  destruct (decide (counted spec pod)) as [[Hready [ext Hext]]|Hno].
  - rewrite filter_cons_True by (split; [done|by exists ext]). simpl. rewrite Hready. simpl.
    destruct (setConsensusSetStatusRole _ _ _ _ _) as [[status' changed]|]; [|done].
    simpl. apply IH.
  - rewrite filter_cons_False by done. simpl.
    destruct (Pod.Ready pod) eqn:Hready; simpl; [|apply IH].
    unfold setConsensusSetStatusRole, composeConsensusRoleMap. rewrite Hspec. simpl.
    destruct (composeRoles spec !! Pod.RoleLabel pod) as [ext|] eqn:Hext; [|apply IH].
    exfalso. apply Hno. split; [done|by exists ext].
Qed.

End StatusClosed.

Lemma status_of_distinct_pods_sample :
  ∃ status,
    setConsensusSetStatusRoles Sample.defaultPodName
      (initialConsensusSetStatus Sample.defaultPodName) Sample.component Fixture.mixedPods
    = Some status
    ∧ ConsensusMemberStatus.Pod (ConsensusSetStatus.Leader status) = "mysql-0"
    ∧ followerPods status = ["mysql-1"; "mysql-2"]
    ∧ learnerPods status = ["mysql-3"].
Proof.
  apply (status_of_distinct_pods Sample.defaultPodName Sample.component Sample.consensusSpec
           Fixture.mixedPods).
  - reflexivity.
  - refine (bool_decide_unpack _ _). by vm_compute.
Defined.

Lemma status_ignores_other_pods_sample :
  setConsensusSetStatusRoles Sample.defaultPodName
    (initialConsensusSetStatus Sample.defaultPodName) Sample.component Fixture.mixedPods
  = setConsensusSetStatusRoles Sample.defaultPodName
      (initialConsensusSetStatus Sample.defaultPodName) Sample.component
      (filter (counted Sample.consensusSpec) Fixture.mixedPods).
Proof.
  apply (status_ignores_other_pods Sample.defaultPodName Sample.component
           Sample.consensusSpec Fixture.mixedPods).
  reflexivity.
Defined.

Lemma serial_and_parallel_batches_sample :
  (∃ plan,
     generateConsensusUpdatePlan Sample.defaultLeader Sample.pods
       (Fixture.withStrategy appsv1alpha1.SerialStrategy) = Some plan
     ∧ planBatches plan = (λ pod, [Some pod]) <$> Sample.pods)
  ∧ (∃ plan,
       generateConsensusUpdatePlan Sample.defaultLeader Sample.pods
         (Fixture.withStrategy appsv1alpha1.ParallelStrategy) = Some plan
       ∧ planBatches plan = [Some <$> Sample.pods]).
Proof.
  split.
  - apply (proj1 (serial_and_parallel_batches Sample.defaultLeader
                    (Fixture.withStrategy appsv1alpha1.SerialStrategy) _ Sample.pods
                    eq_refl)).
    reflexivity.
  - apply (proj2 (serial_and_parallel_batches Sample.defaultLeader
                    (Fixture.withStrategy appsv1alpha1.ParallelStrategy) _ Sample.pods
                    eq_refl)).
    reflexivity.
Defined.

Lemma other_strategy_empty_plan_sample :
  ∃ plan,
    generateConsensusUpdatePlan Sample.defaultLeader Sample.pods
      (Fixture.withStrategy "RollingUpdate") = Some plan
    ∧ planBatches plan = [] ∧ planPods plan = [].
Proof.
  apply (other_strategy_empty_plan Sample.defaultLeader
           (Fixture.withStrategy "RollingUpdate") _ Sample.pods eq_refl).
  refine (bool_decide_unpack _ _). by vm_compute.
Defined.

(** ** The failures of the config propagation *)

Section PropagationFailures.

Variable ToUpper : string → string.

Lemma patchConfigs_app cli componentName leader followers before rest :
  Forall (λ config, is_Some (ConfigMap.Data config)) before →
  Forall (λ config,
            Client.Patch cli (propagated ToUpper componentName leader followers config)
            = Datatypes.None) before →
  patchConfigs ToUpper cli componentName leader followers (before ++ rest)
  = '(err, sent) ← patchConfigs ToUpper cli componentName leader followers rest;
    Some (err,
          ((λ config, PatchConfigMap (propagated ToUpper componentName leader followers config))
             <$> before) ++ sent).
Proof.
  intros Hdata. induction Hdata as [|config before [data Hdata] _ IH]; intros Hpatch.
  { simpl. by destruct (patchConfigs _ _ _ _ _ rest) as [[err sent]|]. }
  apply Forall_cons in Hpatch as [Hconfig Hpatch]. specialize (IH Hpatch).
  simpl. rewrite Hdata. simpl.
  unfold propagated in Hconfig at 1. rewrite Hdata in Hconfig. simpl in Hconfig.
  rewrite Hconfig, IH.
  destruct (patchConfigs _ _ _ _ _ rest) as [[err sent]|]; [|done]. simpl.
  unfold propagated at 2. by rewrite Hdata.
Qed.

(** X11. How the config propagation fails. When the config maps cannot be
    listed, the error is returned and nothing is patched. When the patch of a
    config map fails, the config maps before it have been patched, the error
    is returned and the config maps after it are left as they were. A config
    map without data makes the propagation panic when the loop comes to it,
    that is when every config map before it has data and is patched without
    an error; what a propagation that panics has sent is not part of its
    result here. *)
Theorem config_propagation_failures (cli : Client.t)
    (component : ClusterComponentDefinition.t) (spec : ConsensusSetSpec.t)
    (componentName : string) (pods : list Pod.t) :
  ClusterComponentDefinition.ConsensusSpec component = Some spec →
  let patched :=
    propagated ToUpper componentName (leaderName spec pods)
      (joinOnto "" (followerNames spec pods)) in
  (∀ err, Client.List cli = inl err →
     updateConsensusRoleInfo ToUpper cli component componentName pods = Some (Some err, []))
  ∧ (∀ before config after,
       Client.List cli = inr (before ++ config :: after) →
       Forall (λ config, is_Some (ConfigMap.Data config)) before →
       Forall (λ config, Client.Patch cli (patched config) = Datatypes.None) before →
       (∀ err, is_Some (ConfigMap.Data config) →
          Client.Patch cli (patched config) = Some err →
          updateConsensusRoleInfo ToUpper cli component componentName pods
          = Some (Some err, PatchConfigMap <$> (patched <$> before ++ [config])))
       ∧ (ConfigMap.Data config = Datatypes.None →
          updateConsensusRoleInfo ToUpper cli component componentName pods = Datatypes.None)).
Proof.
  intros Hspec patched. unfold updateConsensusRoleInfo.
  rewrite (collectRoleInfo_spec component spec) by done. simpl.
  fold (leaderName spec pods). split.
  - intros err ->. done.
  - intros before config after -> Hdata Hpatch.
    rewrite patchConfigs_app by done. split.
    + intros err [data Hconfig] Herr. simpl. rewrite Hconfig. simpl.
      unfold patched, propagated in Herr. rewrite Hconfig in Herr. simpl in Herr.
      rewrite Herr. simpl. rewrite !fmap_app, <- list_fmap_compose. simpl.
      assert (Hpatched :
        patched config
        = ConfigMap.mk (ConfigMap.Name config)
            (Some (<[followersKey ToUpper componentName := joinOnto "" (followerNames spec pods)]>
                     (<[leaderKey ToUpper componentName := leaderName spec pods]> data))))
        by (unfold patched, propagated; by rewrite Hconfig).
      by rewrite Hpatched.
    + intros Hconfig. simpl. by rewrite Hconfig.
Qed.

End PropagationFailures.

Lemma config_propagation_failures_sample :
  updateConsensusRoleInfo Sample.toUpper (Fixture.refusing "env-1") Sample.component
    "mysql" Sample.pods
  = Some (Some (Failed "denied"),
          PatchConfigMap
            <$> (propagated Sample.toUpper "mysql" "mysql-0" "mysql-1,mysql-2"
                   <$> [ConfigMap.mk "env-0" (Some ∅); ConfigMap.mk "env-1" (Some ∅)])).
Proof.
  apply (proj1 (proj2 (config_propagation_failures Sample.toUpper (Fixture.refusing "env-1")
                         Sample.component Sample.consensusSpec "mysql" Sample.pods eq_refl)
                  [ConfigMap.mk "env-0" (Some ∅)] (ConfigMap.mk "env-1" (Some ∅))
                  [ConfigMap.mk "env-2" (Some ∅)] eq_refl
                  ltac:(repeat constructor; by eexists)
                  ltac:(repeat constructor))
           (Failed "denied")).
  - by eexists.
  - reflexivity.
Defined.

(** ** The role label of a pod *)

(** An entry of the role map carries the access mode of a member of that
    name. *)
Lemma composeRoles_member spec label ext :
  composeRoles spec !! label = Some ext →
  ∃ e, e ∈ members spec ∧ named label e
       ∧ consensusMemberExt.accessMode ext = ConsensusMember.AccessMode e.
Proof.
  unfold composeRoles, members, named, wellFormed. intros H.
  assert (Hothers : ∀ ext,
    fold_left
      (fun roleMap follower =>
         putConsensusMemberExt roleMap (ConsensusMember.Name follower) roleFollower
           (ConsensusMember.AccessMode follower)) (ConsensusSetSpec.Followers spec)
      (putConsensusMemberExt ∅ (ConsensusMember.Name (ConsensusSetSpec.Leader spec))
         roleLeader (ConsensusMember.AccessMode (ConsensusSetSpec.Leader spec)))
      !! label = Some ext →
    ∃ e, (e = ConsensusSetSpec.Leader spec ∨ e ∈ ConsensusSetSpec.Followers spec)
         ∧ (ConsensusMember.Name e = label
            ∧ ConsensusMember.Name e ≠ "" ∧ ConsensusMember.AccessMode e ≠ "")
         ∧ consensusMemberExt.accessMode ext = ConsensusMember.AccessMode e).
  { intros e' [(f & Hf & Hname & Hwf & ->)|Hl]%fold_putFollower_lookup.
    - exists f. split; [by right|]. by destruct Hwf.
    - rewrite putConsensusMemberExt_lookup in Hl by done. case_bool_decide as Hc.
      + exists (ConsensusSetSpec.Leader spec). split; [by left|]. by inversion Hl.
      + by rewrite lookup_empty in Hl. }
  destruct (ConsensusSetSpec.Learner spec) as [learner|]; simpl.
  - rewrite putConsensusMemberExt_lookup in H by done. case_bool_decide as Hc.
    + exists learner. split; [set_solver|]. by inversion H.
    + destruct (Hothers _ H) as (e & He & ? & ?). exists e. split; [|done].
      rewrite elem_of_cons, elem_of_cons. tauto.
  - destruct (Hothers _ H) as (e & He & ? & ?). exists e. split; [|done].
    rewrite elem_of_cons. tauto.
Qed.

Section RoleLabelUpdate.

Variable RoleLabelKey : string.
Variable ConsensusSetAccessModeLabelKey : string.

(** X12. [UpdateConsensusSetRoleLabel], once the cluster and the component
    definition are fetched: a role that no member of the spec carries with a
    name and an access mode that are not empty is ignored, no patch is sent
    and no error returned. For a role that such a member carries, the pod is
    patched and the result is that of the patch; the access mode label of
    the patch is the access mode of such a member, the role label is the
    role, and the other labels are as they were. A pod without labels makes
    the update panic. *)
Theorem role_label_update (component : ClusterComponentDefinition.t)
    (spec : ConsensusSetSpec.t) (patch : option error)
    (labels : option (gmap string string)) (role : string) :
  ClusterComponentDefinition.ConsensusSpec component = Some spec →
  let result :=
    UpdateConsensusSetRoleLabel RoleLabelKey ConsensusSetAccessModeLabelKey
      Datatypes.None (inr (Some component)) patch labels role in
  ((¬ ∃ e, e ∈ members spec ∧ named role e) →
   result = Some (Datatypes.None, Datatypes.None))
  ∧ ((∃ e, e ∈ members spec ∧ named role e) →
     match labels with
     | Datatypes.None => result = Datatypes.None
     | Some l =>
         ∃ e l',
           e ∈ members spec ∧ named role e
           ∧ result = Some (patch, Some l')
           ∧ l' !! ConsensusSetAccessModeLabelKey = Some (ConsensusMember.AccessMode e)
           ∧ (RoleLabelKey ≠ ConsensusSetAccessModeLabelKey → l' !! RoleLabelKey = Some role)
           ∧ ∀ k, k ≠ RoleLabelKey → k ≠ ConsensusSetAccessModeLabelKey → l' !! k = l !! k
     end).
Proof.
  intros Hspec result. subst result.
  unfold UpdateConsensusSetRoleLabel, composeConsensusRoleMap. rewrite Hspec. simpl.
  split.
  - intros Hno. destruct (composeRoles spec !! role) as [ext|] eqn:Hext; [|done].
    exfalso. apply Hno. apply composeRoles_is_Some. by exists ext.
  - intros [ext Hext]%composeRoles_is_Some. rewrite Hext.
    destruct labels as [l|]; [|done]. simpl.
    destruct (composeRoles_member spec role ext Hext) as (e & He & Hnamed & Hmode).
    exists e. eexists. split; [done|]. split; [done|]. split; [done|].
    split; [|split].
    + by rewrite lookup_insert_eq, Hmode.
    + intros Hne. rewrite lookup_insert_ne by done. by rewrite lookup_insert_eq.
    + intros k Hk Hk'. by rewrite !lookup_insert_ne by done.
Qed.

End RoleLabelUpdate.

Lemma role_label_update_sample :
  ∃ e l',
    e ∈ members Sample.consensusSpec ∧ named "secondary2" e
    ∧ UpdateConsensusSetRoleLabel "role" "access-mode" Datatypes.None
        (inr (Some Sample.component)) Datatypes.None (Some Fixture.podLabels) "secondary2"
      = Some (Datatypes.None, Some l')
    ∧ l' !! "access-mode" = Some (ConsensusMember.AccessMode e)
    ∧ ("role" ≠ "access-mode" → l' !! "role" = Some "secondary2")
    ∧ ∀ k, k ≠ "role" → k ≠ "access-mode" → l' !! k = Fixture.podLabels !! k.
Proof.
  apply (proj2 (role_label_update "role" "access-mode" Sample.component Sample.consensusSpec
                  Datatypes.None (Some Fixture.podLabels) "secondary2" eq_refl)).
  exists (ConsensusMember.mk "secondary2" appsv1alpha1.Readonly).
  split; [|split; [reflexivity|split; discriminate]].
  unfold members. simpl. do 3 apply list_elem_of_further. apply list_elem_of_here.
Defined.

(** ** The cluster version controller *)

Lemma Join_singleton elem sep : Join [elem] sep = elem.
Proof. done. Qed.

Section ClusterVersions.

Variable UnavailablePhase : string.
Variable AvailablePhase : string.
Variable GetInconsistentComponentsInfo :
  ClusterVersion.t → ClusterDefinition.t → list string * list string.
Variable formatNames : list string → string.

Abbreviation validate :=
  (validateClusterVersion GetInconsistentComponentsInfo formatNames).

Lemma validateClusterVersion_empty clusterVersion clusterDef :
  validate clusterVersion clusterDef = ""
  ↔ GetInconsistentComponentsInfo clusterVersion clusterDef = ([], []).
Proof.
  unfold validateClusterVersion.
  destruct (GetInconsistentComponentsInfo clusterVersion clusterDef)
    as [[|name notFound] [|name' noContainers]]; simpl; split; try done.
Qed.

Lemma revalidate_revalidated clusterDef item :
  revalidated UnavailablePhase AvailablePhase GetInconsistentComponentsInfo clusterDef item
    (revalidate UnavailablePhase AvailablePhase GetInconsistentComponentsInfo formatNames
       clusterDef item).
Proof.
  unfold revalidated, revalidate.
  pose proof (validateClusterVersion_empty item clusterDef) as Hempty.
  destruct (String.eqb_spec (validate item clusterDef) "") as [Hmsg|Hmsg]; simpl.
  - split; [done|]. by rewrite decide_True by (by apply Hempty).
  - split; [done|]. rewrite decide_False by (intros H; by apply Hmsg, Hempty). done.
Qed.

(** X13. [clusterVersionUpdateHandler], when the cluster versions are listed
    and no patch fails: the cluster versions whose [ClusterDefGeneration] is
    not the generation of the definition are patched, in the order of the
    list, and no other. A patched version without an inconsistent component
    is Available, with no message and the generation of the definition, so
    that the next call leaves it alone; one with an inconsistent component is
    Unavailable with a message and keeps its [ClusterDefGeneration], so that
    the next call validates it again. *)
Theorem stale_versions_revalidated (patch : ClusterVersion.t → option error)
    (clusterDef : ClusterDefinition.t) (items : list ClusterVersion.t) :
  (∀ item, patch item = Datatypes.None) →
  ∃ sent,
    clusterVersionUpdateHandler UnavailablePhase AvailablePhase GetInconsistentComponentsInfo
      formatNames Datatypes.None (inr items) patch clusterDef = (Datatypes.None, sent)
    ∧ Forall2 (revalidated UnavailablePhase AvailablePhase GetInconsistentComponentsInfo
                 clusterDef)
        (filter (λ item, ClusterVersion.ClusterDefGeneration item
                         ≠ ClusterDefinition.Generation clusterDef) items)
        sent.
Proof.
  intros Hpatch. simpl. induction items as [|item items (sent & Hsent & Hall)].
  { exists []. split; [done|constructor]. }
  simpl. destruct (Z.eqb_spec (ClusterVersion.ClusterDefGeneration item)
                     (ClusterDefinition.Generation clusterDef)) as [Heq|Hne]; simpl.
  - exists sent. split; [done|]. by rewrite filter_cons_False by (intros H; by apply H).
  - rewrite Hpatch, Hsent. eexists. split; [done|].
    rewrite filter_cons_True by done. constructor; [apply revalidate_revalidated|done].
Qed.

(** X14. [handleClusterDefNotFound] reports a message once: when the status
    already holds the message nothing is sent; otherwise one status patch is
    sent, with the phase Unavailable and the message, and its result is
    returned. Either way the cluster version holds the message afterwards, so
    that a second call with it sends nothing. *)
Theorem cluster_definition_not_found_once (patch : ClusterVersion.t → option error)
    (clusterVersion : ClusterVersion.t) (message : string) :
  let '(err, clusterVersion', sent) :=
    handleClusterDefNotFound UnavailablePhase patch clusterVersion message in
  ClusterVersion.Message clusterVersion' = message
  ∧ (ClusterVersion.Message clusterVersion = message →
     err = Datatypes.None ∧ clusterVersion' = clusterVersion ∧ sent = [])
  ∧ (ClusterVersion.Message clusterVersion ≠ message →
     err = patch clusterVersion' ∧ sent = [clusterVersion']
     ∧ ClusterVersion.Phase clusterVersion' = UnavailablePhase)
  ∧ handleClusterDefNotFound UnavailablePhase patch clusterVersion' message
    = (Datatypes.None, clusterVersion', []).
Proof.
  unfold handleClusterDefNotFound.
  destruct (String.eqb_spec (ClusterVersion.Message clusterVersion) message) as [Heq|Hne].
  - rewrite <- Heq at 4. rewrite String.eqb_refl. by repeat split.
  - simpl. rewrite String.eqb_refl. by repeat split.
Qed.

End ClusterVersions.

Lemma stale_versions_revalidated_sample :
  ∃ sent,
    clusterVersionUpdateHandler "Unavailable" "Available" Fixture.inconsistent
      Fixture.formatNames Datatypes.None
      (inr [Fixture.version "v1" 2; Fixture.version "broken" 1; Fixture.version "v3" 1])
      (λ _, Datatypes.None) Fixture.clusterDef = (Datatypes.None, sent)
    ∧ Forall2 (revalidated "Unavailable" "Available" Fixture.inconsistent Fixture.clusterDef)
        (filter (λ item, ClusterVersion.ClusterDefGeneration item
                         ≠ ClusterDefinition.Generation Fixture.clusterDef)
           [Fixture.version "v1" 2; Fixture.version "broken" 1; Fixture.version "v3" 1])
        sent.
Proof.
  apply (stale_versions_revalidated "Unavailable" "Available" Fixture.inconsistent
           Fixture.formatNames (λ _, Datatypes.None) Fixture.clusterDef
           [Fixture.version "v1" 2; Fixture.version "broken" 1; Fixture.version "v3" 1]).
  reflexivity.
Defined.

(** The clusters after the patches for the flag [upgradable]. *)
Lemma syncClusters_closed patch upgradable items :
  (∀ v, patch v = Datatypes.None) →
  syncClusters patch upgradable items
  = (Datatypes.None,
     (λ v, ClusterOperations.mk (ClusterOperations.Name v) (Some upgradable))
       <$> filter (λ v, default false (ClusterOperations.Upgradable v) ≠ upgradable) items).
Proof.
  intros Hpatch. induction items as [|v items IH]; [done|]. simpl.
  destruct (Bool.eqb_spec (default false (ClusterOperations.Upgradable v)) upgradable)
    as [Heq|Hne].
  - rewrite filter_cons_False by (intros H; by apply H). apply IH.
  - rewrite Hpatch, IH. by rewrite filter_cons_True by done.
Qed.

(** X15. [syncClusterStatusOperationsWithUpgrade] does nothing for a
    cluster version that is neither new nor being deleted. Otherwise, when
    the two lists are fetched and no patch fails, the clusters are upgradable
    exactly when more than one cluster version is listed: the clusters whose
    flag differs, a missing [Operations] counting as not upgradable, are
    patched with the flag, in the order of the list, and no other; once they
    are patched, a second call patches nothing. *)
Theorem upgradable_follows_version_count (patch : ClusterOperations.t → option error)
    (clusterVersion : ClusterVersion.t)
    (clusterList : list ClusterOperations.t) (clusterVersionList : list ClusterVersion.t) :
  (∀ v, patch v = Datatypes.None) →
  let upgradable := bool_decide (1 < length clusterVersionList)%nat in
  let flagged v := ClusterOperations.mk (ClusterOperations.Name v) (Some upgradable) in
  (ClusterVersion.ObservedGeneration clusterVersion ≠ 0
   ∧ ClusterVersion.Deleting clusterVersion = false →
   ∀ listClusters listClusterVersions,
     syncClusterStatusOperationsWithUpgrade listClusters listClusterVersions patch
       clusterVersion = (Datatypes.None, []))
  ∧ (ClusterVersion.ObservedGeneration clusterVersion = 0
     ∨ ClusterVersion.Deleting clusterVersion = true →
     syncClusterStatusOperationsWithUpgrade (inr clusterList) (inr clusterVersionList) patch
       clusterVersion
     = (Datatypes.None,
        flagged <$> filter (λ v, default false (ClusterOperations.Upgradable v) ≠ upgradable)
                      clusterList)
     ∧ syncClusterStatusOperationsWithUpgrade
         (inr ((λ v, if decide (default false (ClusterOperations.Upgradable v) ≠ upgradable)
                     then flagged v else v) <$> clusterList))
         (inr clusterVersionList) patch clusterVersion
       = (Datatypes.None, [])).
Proof.
  intros Hpatch upgradable flagged. unfold syncClusterStatusOperationsWithUpgrade.
  assert (Hup : (1 <? length clusterVersionList)%nat = upgradable).
  { unfold upgradable. destruct (Nat.ltb_spec 1 (length clusterVersionList)).
    - by rewrite bool_decide_eq_true_2.
    - rewrite bool_decide_eq_false_2; [done|lia]. }
  split.
  - intros [Hgen Hdel] listClusters listClusterVersions. rewrite Hdel.
    destruct (Z.eqb_spec (ClusterVersion.ObservedGeneration clusterVersion) 0); done.
  - intros Hcase.
    assert (Hgo : negb (ClusterVersion.ObservedGeneration clusterVersion =? 0)
                  && negb (ClusterVersion.Deleting clusterVersion) = false).
    { destruct Hcase as [->| ->]; [done|]. by rewrite andb_false_r. }
    rewrite Hgo, Hup, !syncClusters_closed by done. split; [done|].
    f_equal. rewrite (filter_none _ _); [done|].
    apply Forall_forall. intros v [v0 [-> _]]%list_elem_of_fmap.
    destruct (decide (default false (ClusterOperations.Upgradable v0) ≠ upgradable)) as [|Heq];
      simpl; [by intros H|]. intros H. by apply H.
Qed.

Lemma upgradable_follows_version_count_sample :
  syncClusterStatusOperationsWithUpgrade (inr Fixture.clusters)
    (inr [Fixture.version "v1" 2; Fixture.created]) (λ _, Datatypes.None) Fixture.created
  = (Datatypes.None,
     [ClusterOperations.mk "c1" (Some true); ClusterOperations.mk "c3" (Some true)]).
Proof.
  apply (proj1 (proj2 (upgradable_follows_version_count (λ _, Datatypes.None) Fixture.created
                         Fixture.clusters [Fixture.version "v1" 2; Fixture.created]
                         (λ _, eq_refl))
                  (or_introl eq_refl))).
Defined.

(** ** The object factory *)

Lemma map_fold_write (l labels : gmap string string) :
  map_fold
    (λ k v (l : option (option (gmap string string))),
       l ← l; l ← l; Some (Some (<[k := v]> l)))
    (Some (Some l)) labels
  = Some (Some (labels ∪ l)).
Proof.
  apply (map_fold_weak_ind (λ r m, r = Some (Some (m ∪ l)))).
  - by rewrite (left_id_L ∅ (∪)).
  - intros k v m r _ ->. simpl. by rewrite insert_union_l.
Qed.

Lemma map_fold_write_nil (labels : gmap string string) :
  map_fold
    (λ k v (l : option (option (gmap string string))),
       l ← l; l ← l; Some (Some (<[k := v]> l)))
    (Some Datatypes.None) labels
  = if decide (labels = ∅) then Some Datatypes.None else Datatypes.None.
Proof.
  set (write := λ (k v : string) (l : option (option (gmap string string))),
                  l ← l; l ← l; Some (Some (<[k := v]> l))).
  assert (H : (labels = ∅ → map_fold write (Some Datatypes.None) labels = Some Datatypes.None)
              ∧ (labels ≠ ∅ → map_fold write (Some Datatypes.None) labels = Datatypes.None)).
  { apply (map_fold_weak_ind
             (λ r (m : gmap string string),
                (m = ∅ → r = Some Datatypes.None) ∧ (m ≠ ∅ → r = Datatypes.None))).
    - by split.
    - intros k v m r _ [Hempty Hfull]. split.
      + intros Hins. by apply insert_non_empty in Hins.
      + intros _. destruct (decide (m = ∅)) as [Hm|Hm].
        * by rewrite (Hempty Hm).
        * by rewrite (Hfull Hm). }
  destruct (decide (labels = ∅)) as [Hm|Hm]; by apply H.
Qed.

(** X16. [AddLabelsInMap] on a factory whose object has labels, as every
    factory has after [init]: the labels of the object are the given ones
    together with those it had, a given label replacing one of the same key;
    the namespace and the name stay. Adding two maps one after the other is
    adding their union, the second map first. On an object without a label
    map the method panics, unless no label is given. *)
Theorem AddLabelsInMap_union (factory : BaseFactory.t) (labels labels' : gmap string string) :
  (∀ l, Object.Labels (BaseFactory.object factory) = Some l →
     BaseFactory.AddLabelsInMap factory labels
     = Some (BaseFactory.mk
               (Object.mk (Object.Namespace (BaseFactory.object factory))
                  (Object.Name (BaseFactory.object factory)) (Some (labels ∪ l))))
     ∧ (BaseFactory.AddLabelsInMap factory labels
        ≫= λ factory, BaseFactory.AddLabelsInMap factory labels')
       = BaseFactory.AddLabelsInMap factory (labels' ∪ labels))
  ∧ (Object.Labels (BaseFactory.object factory) = Datatypes.None →
     BaseFactory.AddLabelsInMap factory labels
     = if decide (labels = ∅) then Some factory else Datatypes.None)
  ∧ (∀ namespace name obj,
       BaseFactory.AddLabelsInMap (BaseFactory.init namespace name obj) labels
       = Some (BaseFactory.mk (Object.mk namespace name (Some labels)))).
Proof.
  assert (Hadd : ∀ factory labels l,
            Object.Labels (BaseFactory.object factory) = Some l →
            BaseFactory.AddLabelsInMap factory labels
            = Some (BaseFactory.mk
                      (Object.mk (Object.Namespace (BaseFactory.object factory))
                         (Object.Name (BaseFactory.object factory)) (Some (labels ∪ l))))).
  { intros f m l Hl. unfold BaseFactory.AddLabelsInMap. rewrite Hl.
    by rewrite map_fold_write. }
  split; [|split].
  - intros l Hl. split; [by apply Hadd|].
    rewrite (Hadd factory labels l Hl). simpl.
    rewrite (Hadd _ labels' (labels ∪ l)) by done. simpl.
    rewrite (Hadd factory (labels' ∪ labels) l Hl). by rewrite (assoc_L (∪)).
  - intros Hnil. unfold BaseFactory.AddLabelsInMap. rewrite Hnil, map_fold_write_nil.
    destruct (decide (labels = ∅)); [|done]. simpl.
    destruct factory as [[namespace name l]]. simpl in *. by subst.
  - intros namespace name obj. rewrite (Hadd _ labels ∅) by done. simpl.
    by rewrite (right_id_L ∅ (∪)).
Qed.

(** ** The order of the requests of a pass *)

Section RequestOrder.

Variable DefaultLeader : ConsensusMember.t.
Variable defaultPodName : string.
Variable ToUpper : string → string.

(** X17. The requests of a pass come in one order: at most one status
    patch, then the patches of the config maps, then the deletes of pods. No
    config map is patched in a pass without a status patch, and when the
    status patch fails nothing follows it and the pass returns [false] with
    its error. A pass that sends no status patch leaves the cluster object as
    it was; one that sends it has written the new status into the cluster
    object before, so the object holds it whether the patch went through or
    not. *)
Theorem pass_requests_in_order (cli : Client.t) (cluster : Cluster.t)
    (stsObj : StatefulSet.t) (done : bool) (err : option error) (cluster' : Cluster.t)
    (sent : list Action) :
  handleConsensusSetUpdate DefaultLeader defaultPodName ToUpper cli cluster stsObj
  = Some (done, err, cluster', sent) →
  ∃ patches configs deletes,
    sent = patches ++ configs ++ deletes
    ∧ Forall isPatchConfigMap configs
    ∧ Forall isDelete deletes
    ∧ ((patches = [] ∧ configs = [] ∧ cluster' = cluster)
       ∨ ∃ status,
           patches = [PatchStatus (StatefulSet.ComponentLabel stsObj) status]
           ∧ cluster' = withStatus cluster (StatefulSet.ComponentLabel stsObj) status
           ∧ ∀ failure, Client.StatusPatch cli = Some failure →
                        configs = [] ∧ deletes = [] ∧ done = false ∧ err = Some failure).
Proof.
  intros Hpass.
  match goal with
  | |- ?G => assert (Hnone : sent = [] → cluster' = cluster → G)
  end.
  { intros -> ->. exists [], [], [].
    split; [done|]. split; [constructor|]. split; [constructor|]. by left. }
  destruct (Client.GetComponentDefByCluster cli) as [failure|[component|]] eqn:Hcomponent.
  { unfold handleConsensusSetUpdate in Hpass. rewrite Hcomponent in Hpass.
    inversion Hpass; subst. by apply Hnone. }
  2: { unfold handleConsensusSetUpdate in Hpass. rewrite Hcomponent in Hpass.
       inversion Hpass; subst. by apply Hnone. }
  destruct (String.eqb_spec (ClusterComponentDefinition.WorkloadType component)
              appsv1alpha1.Consensus) as [Hworkload|Hworkload].
  2: { unfold handleConsensusSetUpdate in Hpass. rewrite Hcomponent in Hpass.
       apply String.eqb_neq in Hworkload. rewrite Hworkload in Hpass. simpl in Hpass.
       inversion Hpass; subst. by apply Hnone. }
  destruct (Client.GetPodListByStatefulSet cli) as [failure|pods] eqn:Hpods.
  { unfold handleConsensusSetUpdate in Hpass. rewrite Hcomponent in Hpass.
    apply String.eqb_eq in Hworkload. rewrite Hworkload, Hpods in Hpass. simpl in Hpass.
    inversion Hpass; subst. by apply Hnone. }
  clear Hnone.
  rewrite (handleConsensusSetUpdate_consensus DefaultLeader defaultPodName ToUpper
             cli cluster stsObj component pods Hcomponent Hworkload Hpods) in Hpass.
  destruct (setConsensusSetStatusRoles _ _ _ _) as [status|]; simpl in Hpass; [|done].
  destruct (statusChanged status _).
  - destruct (Client.StatusPatch cli) as [failure|] eqn:Hpatch.
    { inversion Hpass; subst. exists [PatchStatus (StatefulSet.ComponentLabel stsObj) status].
      exists [], []. split; [done|]. split; [constructor|]. split; [constructor|].
      right. exists status. split; [done|]. split; [done|]. by intros ? [= <-]. }
    destruct (updateConsensusRoleInfo _ _ _ _ _) as [[failure configs]|] eqn:Hconfigs;
      simpl in Hpass; [|done].
    apply updateConsensusRoleInfo_sent in Hconfigs.
    destruct failure as [failure|].
    + inversion Hpass; subst. exists [PatchStatus (StatefulSet.ComponentLabel stsObj) status].
      exists configs, []. rewrite app_nil_r.
      split; [done|]. split; [done|]. split; [constructor|]. right. by exists status.
    + apply deletionStage_result in Hpass as (-> & deletes & -> & Hdeletes).
      exists [PatchStatus (StatefulSet.ComponentLabel stsObj) status], configs, deletes.
      split; [done|]. split; [done|]. split; [done|]. right. by exists status.
  - apply deletionStage_result in Hpass as (-> & deletes & -> & Hdeletes).
    exists [], [], deletes. split; [done|]. split; [constructor|]. split; [done|]. by left.
Qed.

End RequestOrder.

Lemma pass_requests_in_order_sample :
  let cli := Sample.client (Some Sample.component) Sample.pods [Sample.config]
               Datatypes.None Datatypes.None Datatypes.None in
  ∃ patches configs deletes,
    [PatchStatus "mysql" Fixture.fullStatus;
     PatchConfigMap (propagated Sample.toUpper "mysql" "mysql-0" "mysql-1,mysql-2" Sample.config);
     DeletePod (Sample.pod "mysql-1" 1 "secondary2" "rev-1")]
    = patches ++ configs ++ deletes
    ∧ Forall isPatchConfigMap configs
    ∧ Forall isDelete deletes
    ∧ ((patches = [] ∧ configs = []
        ∧ withStatus Sample.cluster "mysql" Fixture.fullStatus = Sample.cluster)
       ∨ ∃ status,
           patches = [PatchStatus "mysql" status]
           ∧ withStatus Sample.cluster "mysql" Fixture.fullStatus
             = withStatus Sample.cluster "mysql" status
           ∧ ∀ failure, Client.StatusPatch cli = Some failure →
                        configs = [] ∧ deletes = [] ∧ false = false
                        ∧ Datatypes.None = Some failure).
Proof.
  apply (pass_requests_in_order Sample.defaultLeader Sample.defaultPodName Sample.toUpper
           (Sample.client (Some Sample.component) Sample.pods [Sample.config]
              Datatypes.None Datatypes.None Datatypes.None)
           Sample.cluster (Sample.sts 1 1 4) false Datatypes.None
           (withStatus Sample.cluster "mysql" Fixture.fullStatus)).
  by vm_compute.
Defined.

(** ** The flag of the status update *)

Section ChangedFlag.

Variable defaultPodName : string.

(** X18. The flag [setConsensusSetStatusRole] returns tells whether the
    label is a role of the role map, not whether the status changed: the pod
    is first removed from every slot, so the setter of its role never finds
    it there. For a status without a pod name in two slots and a pod name
    that is neither empty nor the default one, the flag is [true] for every
    label of the role map, also when the status afterwards is the status
    before, and [false] with the status untouched for every other label. *)
Theorem changed_flag_tells_defined_role (component : ClusterComponentDefinition.t)
    (spec : ConsensusSetSpec.t) (status : ConsensusSetStatus.t) (role podName : string) :
  ClusterComponentDefinition.ConsensusSpec component = Some spec →
  slotsConsistent defaultPodName status →
  podName ≠ "" → podName ≠ defaultPodName →
  ∃ status',
    setConsensusSetStatusRole defaultPodName status component role podName
    = Some (status', bool_decide (is_Some (composeRoles spec !! role)))
    ∧ (composeRoles spec !! role = Datatypes.None → status' = status).
Proof.
  intros Hspec Hs Hne Hnd.
  unfold setConsensusSetStatusRole, composeConsensusRoleMap. rewrite Hspec. simpl.
  destruct (composeRoles spec !! role) as [ext|] eqn:Hext.
  2: { exists status. split; [|done]. rewrite bool_decide_eq_false_2; [done|].
       by intros [? ?]. }
  rewrite bool_decide_eq_true_2 by done.
  destruct (resetConsensusSetStatusRole_spec defaultPodName status podName Hs)
    as (s1 & Hreset & Hs1 & Hp1 & Hf1 & Hl1 & _).
  simpl. rewrite Hreset. simpl.
  pose proof (composeRoles_lookup spec role ext Hext) as (_ & _ & _ & Hrole).
  destruct (String.eqb_spec (consensusMemberExt.consensusRole ext) roleLeader) as [_|Hnl].
  { unfold setConsensusSetStatusLeader. simpl.
    destruct (String.eqb_spec (ConsensusMemberStatus.Pod (ConsensusSetStatus.Leader s1)) podName)
      as [Heq|_]; [|by eexists].
    exfalso. apply Hp1. unfold leaderPods. rewrite decide_False by congruence.
    rewrite Heq. set_solver. }
  destruct (String.eqb_spec (consensusMemberExt.consensusRole ext) roleFollower) as [_|Hnf].
  { unfold setConsensusSetStatusFollower. simpl.
    rewrite existsb_pod_false by exact Hf1. by eexists. }
  destruct (String.eqb_spec (consensusMemberExt.consensusRole ext) roleLearner) as [_|Hnr].
  { unfold setConsensusSetStatusLearner. simpl.
    destruct (ConsensusSetStatus.Learner s1) as [learner|] eqn:Hlearner; simpl.
    - destruct (String.eqb_spec (ConsensusMemberStatus.Pod learner) podName) as [Heq|_];
        [|by eexists].
      exfalso. apply Hl1. unfold learnerPods. rewrite Hlearner. simpl. rewrite Heq. set_solver.
    - destruct podName as [|c podName']; [done|]. simpl. by eexists. }
  exfalso. destruct Hrole as [[? _]|[[? _]|[? _]]]; congruence.
Qed.

End ChangedFlag.

Lemma changed_flag_tells_defined_role_sample :
  ∃ status',
    setConsensusSetStatusRole Sample.defaultPodName Sample.leaderStatus Sample.component
      "primary" "mysql-0"
    = Some (status', bool_decide (is_Some (composeRoles Sample.consensusSpec !! "primary")))
    ∧ (composeRoles Sample.consensusSpec !! "primary" = Datatypes.None
       → status' = Sample.leaderStatus).
Proof.
  apply (changed_flag_tells_defined_role Sample.defaultPodName Sample.component
           Sample.consensusSpec Sample.leaderStatus "primary" "mysql-0" eq_refl).
  - split; [|constructor]. simpl. repeat constructor. set_solver.
  - discriminate.
  - discriminate.
Defined.

(** The flag is [true] though the status is the one before. *)
Example changed_flag_on_unchanged_status :
  setConsensusSetStatusRole Sample.defaultPodName Sample.leaderStatus Sample.component
    "primary" "mysql-0"
  = Some (Sample.leaderStatus, true).
Proof. by vm_compute. Qed.

(** ** The second pass *)

Section Idempotence.

Variable DefaultLeader : ConsensusMember.t.
Variable defaultPodName : string.
Variable ToUpper : string → string.

(** After a pass that got to the status, the cluster object holds the status
    of the pass: it held it before, or the pass wrote it and sent it in the
    status patch, its first request. *)
Lemma handleConsensusSetUpdate_persists cli cluster stsObj component pods
    done err cluster' sent :
  Client.GetComponentDefByCluster cli = inr (Some component) →
  ClusterComponentDefinition.WorkloadType component = appsv1alpha1.Consensus →
  Client.GetPodListByStatefulSet cli = inr pods →
  handleConsensusSetUpdate DefaultLeader defaultPodName ToUpper cli cluster stsObj
  = Some (done, err, cluster', sent) →
  ∃ status,
    setConsensusSetStatusRoles defaultPodName (initialConsensusSetStatus defaultPodName)
      component pods = Some status
    ∧ statusOf cluster' (StatefulSet.ComponentLabel stsObj) = Some status
    ∧ ((statusOf cluster (StatefulSet.ComponentLabel stsObj) = Some status
        ∧ cluster' = cluster ∧ Forall isDelete sent)
       ∨ (statusOf cluster (StatefulSet.ComponentLabel stsObj) ≠ Some status
          ∧ ∃ rest, sent = PatchStatus (StatefulSet.ComponentLabel stsObj) status :: rest)).
Proof.
  intros Hcomponent Hworkload Hpods.
  rewrite (handleConsensusSetUpdate_consensus _ _ _ cli cluster stsObj component pods)
    by done.
  destruct (setConsensusSetStatusRoles _ _ _ _) as [status|]; simpl; [|done].
  intros Hresult. exists status. split; [done|].
  assert (Hset : statusOf (withStatus cluster (StatefulSet.ComponentLabel stsObj) status)
                   (StatefulSet.ComponentLabel stsObj) = Some status).
  { unfold statusOf, withStatus. simpl. by rewrite lookup_insert_eq. }
  destruct (statusChanged status _) eqn:Hchanged.
  - assert (Hold : statusOf cluster (StatefulSet.ComponentLabel stsObj) ≠ Some status).
    { intros Hold. apply statusChanged_false in Hold. congruence. }
    destruct (Client.StatusPatch cli) as [failure|].
    { injection Hresult as <- <- <- <-. split; [done|]. right. split; [done|]. by eexists. }
    destruct (updateConsensusRoleInfo _ _ _ _ _) as [[[e|] sent']|]; simpl in Hresult;
      [| |done].
    + injection Hresult as <- <- <- <-. split; [done|]. right. split; [done|]. by eexists.
    + apply deletionStage_result in Hresult as (-> & deletes & -> & _).
      split; [done|]. right. split; [done|]. by eexists.
  - apply deletionStage_result in Hresult as (-> & deletes & -> & Hdeletes).
    apply statusChanged_false in Hchanged. split; [done|]. left. by repeat split.
Qed.

(** C5. The status of a pass is computed from the component definition and
    from the names and labels of the ready pods alone, starting from the
    initial status and not from the status of the cluster. A pass that got to
    the status leaves it in the cluster object: the cluster held it already
    and the pass sent nothing about it, or the pass sent it in a status
    patch. For every cluster that holds that status, the cluster object the
    first pass left among them, a second pass for the same component with the
    same ready pods and labels computes the status again and finds it equal:
    the changed flag is false, the pass goes on to the checks and the walk of
    the plan at once, leaves the cluster as it is and sends nothing but pod
    deletes, so no status patch and no config map patch. The comparison tells
    a [nil] slice of followers from an empty one, and for pods of distinct
    names the computed status never holds the empty one. *)
Theorem status_reconciliation_idempotent (cli1 cli2 : Client.t) (cluster0 : Cluster.t)
    (stsObj1 stsObj2 : StatefulSet.t) (component : ClusterComponentDefinition.t)
    (pods1 pods2 : list Pod.t) (done1 : bool) (err1 : option error)
    (cluster1 : Cluster.t) (sent1 : list Action) :
  Client.GetComponentDefByCluster cli1 = inr (Some component) →
  Client.GetComponentDefByCluster cli2 = inr (Some component) →
  ClusterComponentDefinition.WorkloadType component = appsv1alpha1.Consensus →
  Client.GetPodListByStatefulSet cli1 = inr pods1 →
  Client.GetPodListByStatefulSet cli2 = inr pods2 →
  readyRoles pods1 = readyRoles pods2 →
  StatefulSet.ComponentLabel stsObj1 = StatefulSet.ComponentLabel stsObj2 →
  handleConsensusSetUpdate DefaultLeader defaultPodName ToUpper cli1 cluster0 stsObj1
  = Some (done1, err1, cluster1, sent1) →
  ∃ status,
    applyRoles defaultPodName (initialConsensusSetStatus defaultPodName) component
      (readyRoles pods1) = Some status
    ∧ setConsensusSetStatusRoles defaultPodName (initialConsensusSetStatus defaultPodName)
        component pods1 = Some status
    ∧ setConsensusSetStatusRoles defaultPodName (initialConsensusSetStatus defaultPodName)
        component pods2 = Some status
    ∧ statusOf cluster1 (StatefulSet.ComponentLabel stsObj1) = Some status
    ∧ ((statusOf cluster0 (StatefulSet.ComponentLabel stsObj1) = Some status
        ∧ cluster1 = cluster0 ∧ Forall isDelete sent1)
       ∨ (statusOf cluster0 (StatefulSet.ComponentLabel stsObj1) ≠ Some status
          ∧ ∃ rest, sent1 = PatchStatus (StatefulSet.ComponentLabel stsObj1) status :: rest))
    ∧ (∀ cluster,
         statusOf cluster (StatefulSet.ComponentLabel stsObj1) = Some status →
         statusChanged status (statusOf cluster (StatefulSet.ComponentLabel stsObj2)) = false
         ∧ handleConsensusSetUpdate DefaultLeader defaultPodName ToUpper cli2 cluster stsObj2
           = deletionStage DefaultLeader cli2 stsObj2 pods2 component cluster []
         ∧ (∀ done2 err2 cluster2 sent2,
              handleConsensusSetUpdate DefaultLeader defaultPodName ToUpper cli2 cluster
                stsObj2
              = Some (done2, err2, cluster2, sent2) →
              cluster2 = cluster ∧ Forall isDelete sent2))
    ∧ (∀ spec,
         ClusterComponentDefinition.ConsensusSpec component = Some spec →
         NoDup (Pod.Name <$> filter (counted spec) pods1) →
         ConsensusSetStatus.Followers status ≠ Some []).
Proof.
  intros Hc1 Hc2 Hworkload Hp1 Hp2 Hroles Hname Hpass1.
  destruct (handleConsensusSetUpdate_persists cli1 cluster0 stsObj1 component pods1
              done1 err1 cluster1 sent1 Hc1 Hworkload Hp1 Hpass1)
    as (status & Hstatus & Hheld & Hsent).
  exists status.
  assert (Hstatus2 : setConsensusSetStatusRoles defaultPodName
                       (initialConsensusSetStatus defaultPodName) component pods2
                     = Some status).
  { rewrite setConsensusSetStatusRoles_applyRoles, <- Hroles.
    by rewrite <- setConsensusSetStatusRoles_applyRoles. }
  split; [by rewrite <- setConsensusSetStatusRoles_applyRoles|].
  split; [done|]. split; [done|]. split; [done|]. split; [done|]. split.
  - intros cluster Hcluster.
    assert (Hsame : statusChanged status
                      (statusOf cluster (StatefulSet.ComponentLabel stsObj2)) = false).
    { apply statusChanged_false. by rewrite <- Hname. }
    assert (Hpass2 :
      handleConsensusSetUpdate DefaultLeader defaultPodName ToUpper cli2 cluster stsObj2
      = deletionStage DefaultLeader cli2 stsObj2 pods2 component cluster []).
    { rewrite (handleConsensusSetUpdate_consensus _ _ _ cli2 cluster stsObj2 component pods2)
        by done.
      rewrite Hstatus2. simpl. by rewrite Hsame. }
    split; [done|]. split; [done|].
    intros done2 err2 cluster2 sent2. rewrite Hpass2.
    intros [-> (deletes & -> & Hdeletes)]%deletionStage_result. by split.
  - intros spec Hspec Hnd.
    destruct (setConsensusSetStatusRoles_closed defaultPodName component spec pods1
                (initialConsensusSetStatus defaultPodName) Hspec
                (initialConsensusSetStatus_consistent defaultPodName) Hnd)
      as (status' & Hstatus' & _ & _ & _ & _ & Hnil).
    { intros x _. simpl. repeat split; [set_solver|set_solver|done]. }
    rewrite Hstatus in Hstatus'. injection Hstatus' as <-. by apply Hnil.
Qed.

End Idempotence.

Lemma status_reconciliation_idempotent_sample :
  let pods := [Sample.pod "mysql-0" 0 "primary" "rev-1"] in
  let cli := Sample.client (Some Sample.component) pods [] Datatypes.None Datatypes.None
               Datatypes.None in
  let cluster1 := withStatus Sample.cluster "mysql" Sample.leaderStatus in
  handleConsensusSetUpdate Sample.defaultLeader Sample.defaultPodName Sample.toUpper
    cli Sample.cluster (Sample.sts 2 1 1)
  = Some (false, Datatypes.None, cluster1, [PatchStatus "mysql" Sample.leaderStatus])
  ∧ handleConsensusSetUpdate Sample.defaultLeader Sample.defaultPodName Sample.toUpper
      cli cluster1 (Sample.sts 2 2 1)
    = Some (false, Datatypes.None, cluster1,
            [DeletePod (Sample.pod "mysql-0" 0 "primary" "rev-1")]).
Proof.
  intros pods cli cluster1.
  assert (Hpass1 :
    handleConsensusSetUpdate Sample.defaultLeader Sample.defaultPodName Sample.toUpper
      cli Sample.cluster (Sample.sts 2 1 1)
    = Some (false, Datatypes.None, cluster1, [PatchStatus "mysql" Sample.leaderStatus]))
    by (by vm_compute).
  split; [exact Hpass1|].
  destruct (status_reconciliation_idempotent Sample.defaultLeader Sample.defaultPodName
              Sample.toUpper cli cli Sample.cluster (Sample.sts 2 1 1) (Sample.sts 2 2 1)
              Sample.component pods pods _ _ _ _
              eq_refl eq_refl eq_refl eq_refl eq_refl eq_refl eq_refl Hpass1)
    as (status & _ & _ & _ & Hheld & _ & Hsecond & _).
  destruct (Hsecond cluster1 Hheld) as (_ & Hpass2 & _).
  rewrite Hpass2. by vm_compute.
Defined.

(** The comparison of the status tells the [nil] slice of followers from an
    empty one: a cluster that holds the status of a lone leader with an empty
    slice is patched with the status whose slice is [nil]. The empty slice
    comes from a follower that a later pod of the same name replaces. *)
Example nil_followers_differ_from_empty :
  let pods := [Sample.pod "mysql-0" 0 "primary" "rev-1"] in
  let cli := Sample.client (Some Sample.component) pods [] Datatypes.None Datatypes.None
               Datatypes.None in
  let old :=
    ConsensusSetStatus.mk (ConsensusSetStatus.Leader Sample.leaderStatus) (Some [])
      Datatypes.None in
  statusChanged Sample.leaderStatus (Some old) = true
  ∧ handleConsensusSetUpdate Sample.defaultLeader Sample.defaultPodName Sample.toUpper
      cli (withStatus Sample.cluster "mysql" old) (Sample.sts 2 1 1)
    = Some (false, Datatypes.None, withStatus Sample.cluster "mysql" Sample.leaderStatus,
            [PatchStatus "mysql" Sample.leaderStatus])
  ∧ setConsensusSetStatusRoles Sample.defaultPodName
      (initialConsensusSetStatus Sample.defaultPodName) Sample.component
      [Sample.pod "mysql-0" 0 "secondary" "rev-1"; Sample.pod "mysql-0" 0 "primary" "rev-1"]
    = Some old.
Proof. by vm_compute. Qed.
